(** * Chun-MediaConv: codec fallback, command synthesis, job execution and
      scheduling

    A shallow embedding of the conversion core of Chun-MediaConv
    ([src/core/format_compatibility.py], [src/core/hardware_detector.py],
    [src/core/conversion_engine.py], [src/utils/temp_manager.py]) and of the
    scheduler that lives in [src/ui/main_window.py], followed by the
    properties the design document states about them.

    Modelling conventions.
    - Python [str] is [string]; the helpers of [PyStr] give the ASCII
      behaviour of [lower], [strip], [in], [endswith] and [int].
    - Python [float] is an IEEE 754 binary64 number ([Binary64], on the
      primitive floats of the Standard Library and their specification
      [SpecFloat]) wherever the arithmetic of the code decides the result:
      in the target-size bitrate and in the aggregate progress of the
      scheduler, where every operation rounds as the machine does,
      [int(x)] truncates toward zero and raises on a NaN or an infinity.
      The frame rate, the keyframe interval and the progress fraction of a
      single job are given by their exact values ([Q]); [round(x)] rounds
      half to even.
    - Python [dict] is an association list in insertion order ([PyDict]):
      assignment to an existing key keeps its position, [popitem] removes
      the last entry.
    - Object identity (threads, workers) is a natural number.
    - What the outside world decides (the probe, the child process, the
      file system, the hardware detection) is an explicit argument. *)

From Stdlib Require Import ZArith QArith Qround Qpower Qminmax Bool List.
From Stdlib Require Import Ascii String Lia Lqa DecimalString.
From Stdlib Require Floats Uint63.
Import ListNotations.

Open Scope string_scope.
Open Scope Z_scope.

(** ** Python strings *)

Module PyStr.

(** [c.lower()] on one ASCII character. *)
Definition lower_ascii (c : ascii) : ascii :=
  let n := nat_of_ascii c in
  if andb (Nat.leb 65 n) (Nat.leb n 90) then ascii_of_nat (n + 32) else c.

(** [s.lower()] *)
Fixpoint lower (s : string) : string :=
  match s with
  | EmptyString => EmptyString
  | String c r => String (lower_ascii c) (lower r)
  end.

(** The ASCII characters [str.strip()] removes. *)
Definition is_space (c : ascii) : bool :=
  let n := nat_of_ascii c in
  orb (andb (Nat.leb 9 n) (Nat.leb n 13))
      (orb (andb (Nat.leb 28 n) (Nat.leb n 31)) (Nat.eqb n 32)).

Fixpoint lstrip (s : string) : string :=
  match s with
  | EmptyString => EmptyString
  | String c r => if is_space c then lstrip r else s
  end.

Fixpoint rstrip (s : string) : string :=
  match s with
  | EmptyString => EmptyString
  | String c r =>
      match rstrip r with
      | EmptyString => if is_space c then EmptyString else String c EmptyString
      | r' => String c r'
      end
  end.

(** [s.strip()] *)
Definition strip (s : string) : string := rstrip (lstrip s).

(** [s.startswith(p)] *)
Fixpoint startswith (p s : string) : bool :=
  match p, s with
  | EmptyString, _ => true
  | String a p', String b s' => andb (Ascii.eqb a b) (startswith p' s')
  | String _ _, EmptyString => false
  end.

(** [p in s] for strings: [p] occurs as a substring of [s]. *)
Fixpoint contains (p s : string) : bool :=
  orb (startswith p s)
      match s with
      | EmptyString => false
      | String _ s' => contains p s'
      end.

(** [s.endswith(p)] *)
Definition endswith (p s : string) : bool :=
  let lp := String.length p in
  let ls := String.length s in
  andb (Nat.leb lp ls) (String.eqb (substring (ls - lp) lp s) p).

(** [s[:-1]] *)
Definition drop_last (s : string) : string :=
  substring 0 (String.length s - 1) s.

(** [x in l] for a list of strings. *)
Definition in_list (x : string) (l : list string) : bool :=
  existsb (String.eqb x) l.

(** [sep.join(l)] *)
Fixpoint join (sep : string) (l : list string) : string :=
  match l with
  | [] => EmptyString
  | [x] => x
  | x :: r => x ++ sep ++ join sep r
  end.

(** [str(n)] for an [int]. *)
Definition of_Z (z : Z) : string := NilEmpty.string_of_int (Z.to_int z).

Definition digit_of (c : ascii) : option Z :=
  let n := nat_of_ascii c in
  if andb (Nat.leb 48 n) (Nat.leb n 57) then Some (Z.of_nat (n - 48)) else None.

(** The digits of an [int] literal: decimal digits, a single underscore
    allowed between two digits.  [prev] tells whether the previous
    character was a digit. *)
Fixpoint parse_digits (s : string) (acc : Z) (prev : bool) : option Z :=
  match s with
  | EmptyString => if prev then Some acc else None
  | String c r =>
      match digit_of c with
      | Some d => parse_digits r (10 * acc + d) true
      | None =>
          if andb (Ascii.eqb c "_"%char) prev then
            match r with
            | String c' _ =>
                match digit_of c' with
                | Some _ => parse_digits r acc false
                | None => None
                end
            | EmptyString => None
            end
          else None
      end
  end.

(** The characters [int()] skips around a literal: blank, tab, line feed,
    vertical tab, form feed and carriage return. *)
Definition is_int_space (c : ascii) : bool :=
  let n := nat_of_ascii c in
  orb (andb (Nat.leb 9 n) (Nat.leb n 13)) (Nat.eqb n 32).

Fixpoint lstrip_int (s : string) : string :=
  match s with
  | EmptyString => EmptyString
  | String c r => if is_int_space c then lstrip_int r else s
  end.

Fixpoint rstrip_int (s : string) : string :=
  match s with
  | EmptyString => EmptyString
  | String c r =>
      match rstrip_int r with
      | EmptyString =>
          if is_int_space c then EmptyString else String c EmptyString
      | r' => String c r'
      end
  end.

(** The number of decimal digits in [s]. *)
Fixpoint count_digits (s : string) : nat :=
  match s with
  | EmptyString => 0%nat
  | String c r =>
      match digit_of c with
      | Some _ => S (count_digits r)
      | None => count_digits r
      end
  end.

(** [int(s)] for a string; [None] stands for [ValueError], which the
    interpreter also raises, in its default configuration, for a literal
    of more than 4300 digits. *)
Definition to_int (s : string) : option Z :=
  let t := rstrip_int (lstrip_int s) in
  if Nat.ltb 4300 (count_digits t) then None
  else
    match t with
    | String "-"%char r => option_map Z.opp (parse_digits r 0 false)
    | String "+"%char r => parse_digits r 0 false
    | _ => parse_digits t 0 false
    end.

End PyStr.

(** ** Python dictionaries, in insertion order *)

Module PyDict.
Section Dict.
Context {V : Type}.

Definition t := list (string * V).

(** [d.get(k)] *)
Fixpoint get (d : t) (k : string) : option V :=
  match d with
  | [] => None
  | (k', v) :: r => if String.eqb k k' then Some v else get r k
  end.

(** [d[k] = v] *)
Fixpoint set (d : t) (k : string) (v : V) : t :=
  match d with
  | [] => [(k, v)]
  | (k', v') :: r =>
      if String.eqb k k' then (k', v) :: r else (k', v') :: set r k v
  end.

(** [d.pop(k, None)] / [del d[k]] when the key is present. *)
Fixpoint remove (d : t) (k : string) : t :=
  match d with
  | [] => []
  | (k', v') :: r =>
      if String.eqb k k' then r else (k', v') :: remove r k
  end.

(** [d.popitem()]: the entry inserted last, and the rest. *)
Definition popitem (d : t) : option ((string * V) * t) :=
  match rev d with
  | [] => None
  | kv :: r => Some (kv, rev r)
  end.

Definition keys (d : t) : list string := map fst d.
Definition values (d : t) : list V := map snd d.
End Dict.
Arguments t : clear implicits.
End PyDict.

(** ** [src/core/format_compatibility.py] *)

Module FormatCompatibility.

Record FormatInfo := mkFormatInfo {
  name : string;
  extension : string;
  type : string;
  supported_video_codecs : list string;
  supported_audio_codecs : list string;
  container_features : list string
}.

(** [_initialize_formats] *)
Definition formats : PyDict.t FormatInfo :=
  [ ("mp4", mkFormatInfo "MP4" "mp4" "video"
       ["h264"; "h265"] ["aac"; "alac"]
       ["chapters"; "subtitles"; "metadata"]);
    ("mkv", mkFormatInfo "Matroska" "mkv" "video"
       ["h264"; "h265"; "vp9"; "av1"; "mpeg4"; "ffv1"]
       ["aac"; "mp3"; "ac3"; "flac"; "opus"; "vorbis"; "dts"]
       ["chapters"; "subtitles"; "metadata"; "multiple_audio";
        "multiple_subtitles"]);
    ("webm", mkFormatInfo "WebM" "webm" "video"
       ["vp8"; "vp9"; "av1"] ["vorbis"; "opus"]
       ["subtitles"; "metadata"]);
    ("avi", mkFormatInfo "AVI" "avi" "video"
       ["mpeg4"; "mjpeg"] ["mp3"; "ac3"; "pcm"] ["metadata"]);
    ("mov", mkFormatInfo "QuickTime" "mov" "video"
       ["h264"; "h265"; "prores"] ["aac"; "alac"; "pcm"]
       ["chapters"; "metadata"]);
    ("flv", mkFormatInfo "Flash Video" "flv" "video"
       ["h264"; "flv1"] ["aac"; "mp3"] ["metadata"]);
    ("mp3", mkFormatInfo "MP3 Audio" "mp3" "audio"
       [] ["mp3"] ["metadata"; "id3tags"]);
    ("aac", mkFormatInfo "AAC Audio" "aac" "audio"
       [] ["aac"] ["metadata"]);
    ("flac", mkFormatInfo "FLAC Lossless" "flac" "audio"
       [] ["flac"] ["metadata"; "lossless"]);
    ("wav", mkFormatInfo "WAV Audio" "wav" "audio"
       [] ["pcm"] ["lossless"]);
    ("ogg", mkFormatInfo "Ogg Vorbis" "ogg" "audio"
       [] ["vorbis"; "opus"] ["metadata"]);
    ("opus", mkFormatInfo "Opus Audio" "opus" "audio"
       [] ["opus"] ["metadata"]);
    ("m4a", mkFormatInfo "M4A Audio" "m4a" "audio"
       [] ["aac"; "alac"] ["metadata"]) ].

(** [get_format_info] *)
Definition get_format_info (format_name : string) : option FormatInfo :=
  PyDict.get formats format_name.

(** A list is truthy when it is not empty. *)
Definition truthy {A} (l : list A) : bool :=
  match l with [] => false | _ :: _ => true end.

(** [get_fallback_codec].  [l[0]] is only evaluated behind the guard that
    [l] is not empty, so the default of [hd] is never returned. *)
Definition get_fallback_codec
    (format_name requested_video_codec requested_audio_codec : string)
    : string * string :=
  match PyDict.get formats format_name with
  | None => ("libx264", "aac")
  | Some fmt =>
      let video_codec :=
        if andb (negb (PyStr.in_list requested_video_codec
                         (supported_video_codecs fmt)))
                (truthy (supported_video_codecs fmt))
        then hd requested_video_codec (supported_video_codecs fmt)
        else requested_video_codec in
      let audio_codec :=
        if andb (negb (PyStr.in_list requested_audio_codec
                         (supported_audio_codecs fmt)))
                (truthy (supported_audio_codecs fmt))
        then hd requested_audio_codec (supported_audio_codecs fmt)
        else requested_audio_codec in
      (video_codec, audio_codec)
  end.

End FormatCompatibility.

(** ** Python numbers given by their exact values *)

Module PyNum.

(** [max(a, b)] *)
Definition Qmax (a b : Q) : Q := if Qle_bool b a then a else b.

(** [min(a, b)] *)
Definition Qmin (a b : Q) : Q := if Qle_bool a b then a else b.

(** [round(x)]: the nearest integer, ties to the even one. *)
Definition round (x : Q) : Z :=
  let f := Qfloor x in
  match Qcompare (x - inject_Z f)%Q (1 # 2)%Q with
  | Lt => f
  | Gt => f + 1
  | Eq => if Z.even f then f else f + 1
  end.

End PyNum.

(** ** Python floats: IEEE 754 binary64 *)

Module Binary64.

Import Floats.

(** The exact value of [2^e]. *)
Definition bpow (e : Z) : Q := Qpower 2 e.

(** The exact value of a float that is neither a NaN nor an infinity. *)
Definition exact (x : float) : option Q :=
  match Prim2SF x with
  | S754_zero _ => Some 0%Q
  | S754_finite s m e =>
      Some (if s then (- (inject_Z (Z.pos m) * bpow e))%Q
            else (inject_Z (Z.pos m) * bpow e)%Q)
  | S754_infinity _ | S754_nan => None
  end.

(** [int(x)] on the specification of a float: its exact value truncated
    toward zero; [None] stands for the exception raised on a NaN
    ([ValueError]) or an infinity ([OverflowError]). *)
Definition SFtrunc (x : spec_float) : option Z :=
  match x with
  | S754_zero _ => Some 0
  | S754_finite s m e =>
      let v := if Z.leb 0 e then Z.pos m * 2 ^ e
               else Z.quot (Z.pos m) (2 ^ (- e)) in
      Some (if s then - v else v)
  | S754_infinity _ | S754_nan => None
  end.

(** [int(x)] for a float. *)
Definition int_of_float (x : float) : option Z := SFtrunc (Prim2SF x).

(** [math.floor(x)]: the exact value rounded down. *)
Definition floor_of_float (x : float) : option Z :=
  match Prim2SF x with
  | S754_zero _ => Some 0
  | S754_finite s m e =>
      let n := if s then Z.neg m else Z.pos m in
      Some (if Z.leb 0 e then n * 2 ^ e else n / 2 ^ (- e))
  | S754_infinity _ | S754_nan => None
  end.

(** [float(n)] for an integer, also where an integer meets a float in an
    arithmetic operation: the nearest binary64 number, ties to even;
    [None] stands for the [OverflowError] raised when [n] is too large. *)
Definition float_of_int (z : Z) : option float :=
  match binary_normalize prec emax z 0 false with
  | S754_infinity _ => None
  | sf => Some (SF2Prim sf)
  end.

(** [(total_kbits - audio_bitrate * duration) / duration] with
    [duration = max(duration, 1.0)] and [total_kbits = target_mb * 8000],
    every operation rounded to binary64.  [max(d, 1.0)] is [1.0] when
    [1.0 > d] and [d] otherwise, also for a NaN. *)
Definition target_quotient (target_mb duration : float) (audio_bitrate : Z)
    : option float :=
  let duration :=
    if PrimFloat.ltb duration 1%float then 1%float else duration in
  let total_kbits := PrimFloat.mul target_mb 8000%float in
  match float_of_int audio_bitrate with
  | Some a =>
      Some (PrimFloat.div
              (PrimFloat.sub total_kbits (PrimFloat.mul a duration))
              duration)
  | None => None
  end.

(** The bitrate computed in the [target_size] branch of
    [_apply_video_settings]: [max(int(...), 300)], or the exception that
    [int] or the conversion of the audio bitrate raises. *)
Definition target_size_video_kbps (target_mb duration : float)
    (audio_bitrate : Z) : option Z :=
  match target_quotient target_mb duration audio_bitrate with
  | Some q => option_map (fun v => Z.max v 300) (int_of_float q)
  | None => None
  end.

(** The loop of [sum] over floats in CPython up to 3.11: one rounded
    addition per item. *)
Fixpoint sum_plain (l : list float) (f_result : float) : float :=
  match l with
  | [] => f_result
  | x :: rest => sum_plain rest (PrimFloat.add f_result x)
  end.

(** The loop of [sum] over floats in CPython from 3.12 on: Neumaier's
    compensated summation.  The compensation [c] is added at the end when
    it is neither zero nor an infinity nor a NaN. *)
Fixpoint sum_compensated (l : list float) (f_result c : float) : float :=
  match l with
  | [] =>
      if andb (negb (PrimFloat.eqb c 0%float)) (PrimFloat.is_finite c)
      then PrimFloat.add f_result c else f_result
  | x :: rest =>
      let t := PrimFloat.add f_result x in
      let c' :=
        if PrimFloat.leb (PrimFloat.abs x) (PrimFloat.abs f_result)
        then PrimFloat.add c (PrimFloat.add (PrimFloat.sub f_result t) x)
        else PrimFloat.add c (PrimFloat.add (PrimFloat.sub x t) f_result) in
      sum_compensated rest t c'
  end.

(** [sum(l)] for a list of floats that is not empty: the first item is
    added to the integer [0], the others are added by the loop over
    floats of the interpreter, which [compensated] selects.  (The sum of
    the empty list is the integer [0]; dividing it gives [0.0].) *)
Definition sum (compensated : bool) (l : list float) : float :=
  match l with
  | [] => 0%float
  | x :: rest =>
      let first := PrimFloat.add 0%float x in
      if compensated then sum_compensated rest first 0%float
      else sum_plain rest first
  end.

(** [sum(l) / max(1, len(l))] *)
Definition mean (compensated : bool) (l : list float) : option float :=
  match float_of_int (Z.max 1 (Z.of_nat (List.length l))) with
  | Some n => Some (PrimFloat.div (sum compensated l) n)
  | None => None
  end.

(** *** The order of the floats

    What follows describes rounding, for the proofs about the operations
    above. *)

(** In the order of the floats an infinity stands where [2^1024] would,
    above every finite number. *)
Definition top : Q := bpow 1024.

(** The place of a float in that order: its exact value, and [0] for a
    NaN. *)
Definition SF2Q (x : spec_float) : Q :=
  match x with
  | S754_zero _ | S754_nan => 0%Q
  | S754_infinity s => if s then (- top)%Q else top
  | S754_finite s m e =>
      if s then (- (inject_Z (Z.pos m) * bpow e))%Q
      else (inject_Z (Z.pos m) * bpow e)%Q
  end.

(** [y] lies at [m] with the rounding information [l]: it is [m], or
    strictly between [m] and [m + 1], below, at or above the middle. *)
Definition located (y : Q) (m : Z) (l : location) : Prop :=
  match l with
  | loc_Exact => (y == inject_Z m)%Q
  | loc_Inexact Lt => (inject_Z m < y /\ y < inject_Z m + (1 # 2))%Q
  | loc_Inexact Eq => (y == inject_Z m + (1 # 2))%Q
  | loc_Inexact Gt => (inject_Z m + (1 # 2) < y /\ y < inject_Z m + 1)%Q
  end.

(** [v] is the number [x >= 0] rounds to, half to even, in a format of 53
    bits whose least exponent is -1074 and whose exponents have no upper
    bound. *)
Definition roundedpos (x v : Q) : Prop :=
  exists m l e,
    0 <= m /\ located (x / bpow e) m l /\ -1074 <= e /\ m < 2 ^ 53 /\
    (-1074 < e -> 2 ^ 52 <= m) /\
    (v == inject_Z (round_nearest_even m l) * bpow e)%Q.

Definition signed (s : bool) (v : Q) : Q := if s then (- v)%Q else v.

(** The same for a number of either sign. *)
Definition rounded (z v : Q) : Prop :=
  ((0 <= z)%Q /\ roundedpos z v) \/ ((z <= 0)%Q /\ roundedpos (- z) (- v)).

(** Overflow: what lies beyond [2^1024] becomes an infinity. *)
Definition clamp (v : Q) : Q := Qmax (- top) (Qmin v top).

(** A zero or a finite number. *)
Definition fz (x : spec_float) : Prop :=
  match x with
  | S754_zero _ | S754_finite _ _ _ => True
  | _ => False
  end.

(** [r] is the float an operation returns whose exact result is [z]. *)
Definition op_spec (z : Q) (r : spec_float) : Prop :=
  exists v, rounded z v /\ r <> S754_nan /\ (SF2Q r == clamp v)%Q.

(** [2^k] as a float, for [k] from 52 on. *)
Definition pow2 (k : Z) : spec_float :=
  S754_finite false 4503599627370496 (k - 52).

(** A float above zero. *)
Definition positive_float (d : spec_float) : Prop :=
  match d with
  | S754_infinity false | S754_finite false _ _ => True
  | _ => False
  end.

End Binary64.

(** ** [src/core/hardware_detector.py] *)

Module HardwareDetector.

Inductive AccelerationType :=
| CUDA | VULKAN | OPENCL | VIDEOTOOLBOX | QSV | DXVA2 | D3D11VA | NONE.

(** [AccelerationType.value] *)
Definition value (a : AccelerationType) : string :=
  match a with
  | CUDA => "cuda" | VULKAN => "vulkan" | OPENCL => "opencl"
  | VIDEOTOOLBOX => "videotoolbox" | QSV => "qsv" | DXVA2 => "dxva2"
  | D3D11VA => "d3d11va" | NONE => "none"
  end.

Definition is_none (a : AccelerationType) : bool :=
  match a with NONE => true | _ => false end.

Record t := mk {
  ffmpeg_path : string;
  available_hwaccels : list string;
  available_encoders : PyDict.t (list string);
  detected_gpu : option string;
  best_acceleration : AccelerationType
}.

(** [HardwareDetector.__init__] *)
Definition init (path : string) : t := mk path [] [] None NONE.

(** The priority list of [_determine_best_acceleration] for a platform
    ([platform.system()]) and a GPU name. *)
Definition priority_order (system gpu_lower : string)
    : list AccelerationType :=
  if String.eqb system "Windows" then
    if PyStr.contains "nvidia" gpu_lower then
      [CUDA; D3D11VA; DXVA2; VULKAN; OPENCL]
    else if orb (PyStr.contains "amd" gpu_lower)
                (PyStr.contains "radeon" gpu_lower) then
      [VULKAN; D3D11VA; OPENCL; DXVA2]
    else if PyStr.contains "intel" gpu_lower then
      [QSV; D3D11VA; VULKAN; OPENCL]
    else [D3D11VA; DXVA2; VULKAN; OPENCL]
  else if String.eqb system "Darwin" then [VIDEOTOOLBOX]
  else [VULKAN; OPENCL].

Fixpoint first_available (order : list AccelerationType)
    (hwaccels : list string) : AccelerationType :=
  match order with
  | [] => NONE
  | a :: r =>
      if PyStr.in_list (value a) hwaccels then a
      else first_available r hwaccels
  end.

(** [_determine_best_acceleration] *)
Definition _determine_best_acceleration (system : string) (hw : t) : t :=
  let best :=
    match available_hwaccels hw with
    | [] => NONE
    | _ :: _ =>
        let gpu_lower :=
          PyStr.lower (match detected_gpu hw with Some g => g | None => "" end)
        in
        first_available (priority_order system gpu_lower)
          (available_hwaccels hw)
    end in
  mk (ffmpeg_path hw) (available_hwaccels hw) (available_encoders hw)
     (detected_gpu hw) best.

(** What the three probes of [detect] find on the machine: the methods
    listed by [ffmpeg -hwaccels], the hardware suffixes per codec family
    listed by [ffmpeg -encoders], and the GPU name. *)
Record Machine := mkMachine {
  system : string;
  hwaccels : list string;
  encoders : PyDict.t (list string);
  gpu : option string
}.

(** [detect]: the new detector state and the returned flag. *)
Definition detect (m : Machine) (hw : t) : t * bool :=
  if String.eqb (ffmpeg_path hw) "" then (hw, false)
  else
    let hw1 := mk (ffmpeg_path hw) (available_hwaccels hw ++ hwaccels m)
                  (encoders m) (gpu m) (best_acceleration hw) in
    let hw2 := _determine_best_acceleration (system m) hw1 in
    (hw2, negb (is_none (best_acceleration hw2))).

(** [get_encoder] *)
Definition get_encoder (hw : t) (codec fallback : string) : string :=
  if is_none (best_acceleration hw) then fallback
  else
    match PyDict.get (available_encoders hw) codec with
    | None => fallback
    | Some hw_encoders =>
        let has x := PyStr.in_list x hw_encoders in
        let tail := if has "vaapi" then codec ++ "_vaapi" else fallback in
        match best_acceleration hw with
        | CUDA => if has "nvenc" then codec ++ "_nvenc" else tail
        | QSV => if has "qsv" then codec ++ "_qsv" else tail
        | VIDEOTOOLBOX =>
            if has "videotoolbox" then codec ++ "_videotoolbox" else tail
        | D3D11VA | DXVA2 =>
            if has "amf" then codec ++ "_amf"
            else if has "qsv" then codec ++ "_qsv"
            else if has "nvenc" then codec ++ "_nvenc"
            else tail
        | VULKAN => if has "vulkan" then codec ++ "_vulkan" else tail
        | OPENCL =>
            if has "nvenc" then codec ++ "_nvenc"
            else if has "qsv" then codec ++ "_qsv"
            else if has "amf" then codec ++ "_amf"
            else tail
        | NONE => tail
        end
    end.

End HardwareDetector.

(** ** [src/core/conversion_engine.py]: command synthesis *)

Module ConversionWorker.

Import PrimFloat.

(** The values a configuration entry of unknown type may hold. *)
Inductive pyval :=
| PyNone
| PyStr (s : string)
| PyInt (z : Z).

(** The entries of the [job_config] dictionary read by the functions below;
    [None] is an absent key. *)
Record JobConfig := mkJobConfig {
  video_codec : option string;
  audio_codec : option string;
  video_encoder : option string;
  use_hardware_acceleration : option bool;
  encoding_mode : option string;
  crf : option Z;
  cq : option Z;
  video_bitrate : option string;
  target_size_mb : option float;
  audio_bitrate : pyval;
  video_tune : option string;
  gop_mode : option string;
  gop_size : option Z;
  gop_seconds : option Q
}.

Record VideoStream := mkVideoStream {
  vs_codec : string;
  width : Z;
  height : Z;
  fps : Q
}.

(** The dictionary built by [_get_input_info]. *)
Record InputInfo := mkInputInfo {
  duration : float;
  video_streams : list VideoStream
}.

(** [config.get(key, default)] *)
Definition get_or {A} (o : option A) (default : A) : A :=
  match o with Some v => v | None => default end.

(** [x or default] for strings: the empty string is falsy. *)
Definition str_or (o : option string) (default : string) : string :=
  match o with
  | Some EmptyString | None => default
  | Some v => v
  end.

(** Truthiness of an optional string. *)
Definition str_truthy (o : option string) : bool :=
  match o with
  | Some (String _ _) => true
  | _ => false
  end.

(** Truthiness of an optional integer. *)
Definition int_truthy (o : option Z) : bool :=
  match o with
  | Some z => negb (Z.eqb z 0)
  | None => false
  end.

Definition _DEFAULT_VIDEO_ENCODERS : PyDict.t string :=
  [ ("h264", "libx264"); ("h265", "libx265"); ("vp9", "libvpx-vp9");
    ("vp8", "libvpx"); ("av1", "libaom-av1"); ("mpeg4", "mpeg4");
    ("mjpeg", "mjpeg"); ("ffv1", "ffv1"); ("prores", "prores_ks") ].

Definition video_codec_aliases : PyDict.t string :=
  [ ("libx264", "h264"); ("x264", "h264"); ("libx265", "h265");
    ("x265", "h265"); ("hevc", "h265"); ("libvpx-vp9", "vp9");
    ("libvpx", "vp8"); ("vp10", "av1"); ("libaom-av1", "av1");
    ("libaom", "av1"); ("libxvid", "mpeg4"); ("xvid", "mpeg4");
    ("ffvhuff", "ffv1") ].

(** [_normalize_video_codec] *)
Definition _normalize_video_codec (codec : option string) : string :=
  match codec with
  | None | Some EmptyString => "h264"
  | Some c =>
      let codec_lower := PyStr.lower c in
      match PyDict.get video_codec_aliases codec_lower with
      | Some canonical => canonical
      | None =>
          let l1 := if PyStr.startswith "lib" codec_lower
                    then substring 3 (String.length codec_lower - 3)
                                   codec_lower
                    else codec_lower in
          let l2 := if andb (PyStr.startswith "x" l1)
                            (negb (String.eqb l1 "xvid"))
                    then substring 1 (String.length l1 - 1) l1
                    else l1 in
          if String.eqb l2 "vpx-vp9" then "vp9"
          else if String.eqb l2 "vpx" then "vp8"
          else if String.eqb l2 "xvid" then "mpeg4"
          else l2
      end
  end.

Definition audio_codec_aliases : PyDict.t string :=
  [ ("libopus", "opus"); ("libvorbis", "vorbis"); ("libmp3lame", "mp3");
    ("pcm_s16le", "pcm"); ("pcm_s24le", "pcm"); ("pcm_s32le", "pcm") ].

(** [_normalize_audio_codec] *)
Definition _normalize_audio_codec (codec : option string) : string :=
  match codec with
  | None | Some EmptyString => "aac"
  | Some c =>
      let codec_lower := PyStr.lower c in
      get_or (PyDict.get audio_codec_aliases codec_lower) codec_lower
  end.

(** The codec pair [_apply_video_settings] continues with: the normalised
    request, replaced by the fallback pair when the container is known and
    does not allow the video codec. *)
Definition corrected_codecs (config : JobConfig)
    (fmt_info : option FormatCompatibility.FormatInfo) (output_ext : string)
    : string * string :=
  let video := _normalize_video_codec
                 (Some (get_or (video_codec config) "h264")) in
  let audio := _normalize_audio_codec
                 (Some (get_or (audio_codec config) "aac")) in
  match fmt_info with
  | Some fmt =>
      if negb (PyStr.in_list video
                 (FormatCompatibility.supported_video_codecs fmt))
      then FormatCompatibility.get_fallback_codec output_ext video audio
      else (video, audio)
  | None => (video, audio)
  end.

(** The encoder [_apply_video_settings] passes to [-c:v]. *)
Definition select_video_encoder (hw : HardwareDetector.t)
    (config : JobConfig) (codec : string) : string :=
  if str_truthy (video_encoder config) then get_or (video_encoder config) ""
  else
    let default_encoder :=
      get_or (PyDict.get _DEFAULT_VIDEO_ENCODERS codec) ("lib" ++ codec) in
    if get_or (use_hardware_acceleration config) true
    then HardwareDetector.get_encoder hw codec default_encoder
    else default_encoder.

(** [_extract_audio_bitrate_kbps] *)
Definition _extract_audio_bitrate_kbps (audio_bitrate : pyval) : Z :=
  match audio_bitrate with
  | PyNone => 128
  | PyInt z => if Z.eqb z 0 then 128 else z
  | PyStr s =>
      if String.eqb s "" then 128
      else if PyStr.endswith "k" s
      then get_or (PyStr.to_int (PyStr.drop_last s)) 128
      else get_or (PyStr.to_int s) 128
  end.

(** The flags the encoding-mode chain of [_apply_video_settings] appends;
    [None] stands for the exception the [target_size] branch raises when
    its bitrate cannot be computed. *)
Definition encoding_mode_args (config : JobConfig) (input_info : InputInfo)
    : option (list string) :=
  let mode := PyStr.lower (str_or (encoding_mode config) "crf") in
  if String.eqb mode "crf" then
    Some ["-crf"; PyStr.of_Z (get_or (crf config) 23)]
  else if String.eqb mode "bitrate" then
    Some ["-b:v"; get_or (video_bitrate config) "5M"]
  else if String.eqb mode "target_size" then
    let target_mb := get_or (target_size_mb config) 50%float in
    let audio := _extract_audio_bitrate_kbps (audio_bitrate config) in
    match Binary64.target_size_video_kbps target_mb (duration input_info)
                                          audio with
    | Some video_kbps => Some ["-b:v"; PyStr.of_Z video_kbps ++ "k"]
    | None => None
    end
  else if String.eqb mode "cq" then
    Some ["-cq"; PyStr.of_Z (get_or (cq config) 20)]
  else Some [].

(** [_map_encoder_tune] *)
Definition _map_encoder_tune (encoder : string) (tune : option string)
    : option string :=
  match tune with
  | None | Some EmptyString => None
  | Some t =>
      let tune_str := PyStr.lower (PyStr.strip t) in
      if String.eqb tune_str "" then None
      else if PyStr.contains "nvenc" (PyStr.lower encoder) then None
      else Some t
  end.

(** The flags [_apply_video_settings] appends for the tune. *)
Definition tune_args (encoder : string) (config : JobConfig) : list string :=
  match _map_encoder_tune encoder (video_tune config) with
  | Some (String c r) => ["-tune"; String c r]
  | _ => []
  end.

(** [_extract_source_fps] *)
Definition _extract_source_fps (input_info : InputInfo) : Q :=
  match video_streams input_info with
  | [] => 0%Q
  | s :: _ => if Qeq_bool (fps s) 0%Q then 0%Q else fps s
  end.

(** [_resolve_gop_size] *)
Definition _resolve_gop_size (config : JobConfig) (input_info : InputInfo)
    : option Z :=
  let mode := PyStr.lower (str_or (gop_mode config) "half_fps") in
  let fps := _extract_source_fps input_info in
  let default_g := gop_size config in
  let fps_pos := negb (Qle_bool fps 0%Q) in
  if andb (Qle_bool fps 0%Q) (negb (int_truthy default_g)) then None
  else if andb (String.eqb mode "half_fps") fps_pos then
    Some (Z.max 1 (PyNum.round (fps / 2)%Q))
  else if andb (String.eqb mode "same_fps") fps_pos then
    Some (Z.max 1 (PyNum.round fps))
  else if andb (String.eqb mode "double_fps") fps_pos then
    Some (Z.max 1 (PyNum.round (fps * 2)%Q))
  else if andb (String.eqb mode "seconds") fps_pos then
    let seconds := get_or (gop_seconds config) 2%Q in
    Some (Z.max 1 (PyNum.round (fps * seconds)%Q))
  else if andb (String.eqb mode "custom") (int_truthy default_g) then
    default_g
  else if int_truthy default_g then default_g else None.

(** The flags [_apply_video_settings] appends for the keyframe interval. *)
Definition gop_args (config : JobConfig) (input_info : InputInfo)
    : list string :=
  let gop_size := _resolve_gop_size config input_info in
  if int_truthy gop_size then ["-g"; PyStr.of_Z (get_or gop_size 0)] else [].

(** The bitrate formula of the design document, on exact numbers. *)
Definition spec_video_kbps (S d : Q) (a : Z) : Z :=
  let d' := PyNum.Qmax d 1%Q in
  Z.max 300 (Qfloor ((S * 8000 - inject_Z a * d') / d')%Q).

(** The modes that derive the keyframe interval from the frame rate. *)
Definition rate_relative (mode : string) : bool :=
  PyStr.in_list mode ["half_fps"; "same_fps"; "double_fps"; "seconds"].

Definition gop_mode_of (config : JobConfig) : string :=
  PyStr.lower (str_or (gop_mode config) "half_fps").

End ConversionWorker.

(** ** [src/utils/temp_manager.py] *)

Module TempFileManager.

Inductive Kind := File | Dir.

(** The part of the file system the manager touches: what exists at a
    path. *)
Definition FS := string -> option Kind.

Definition exists_ (fs : FS) (p : string) : bool :=
  match fs p with Some _ => true | None => false end.

Definition write (fs : FS) (p : string) (k : option Kind) : FS :=
  fun q => if String.eqb q p then k else fs q.

(** [create_temp_dir]: the directory is [session_dir / (prefix + uuid)];
    [mkdir(parents=True, exist_ok=True)] either creates it or raises the
    error given in [mkdir_error]. *)
Definition create_temp_dir (session_dir prefix uuid : string)
    (mkdir_error : option string) (fs : FS) : (string + string) * FS :=
  let temp_dir := session_dir ++ "/" ++ prefix ++ uuid in
  match mkdir_error with
  | Some e => (inr e, fs)
  | None => (inl temp_dir, write fs temp_dir (Some Dir))
  end.

(** [cleanup_file].  [unlink] and [shutil.rmtree] may raise; [removal_ok]
    tells whether they go through.  The [except Exception: pass] clause
    swallows the failure. *)
Definition cleanup_file (removal_ok : bool) (file_path : string) (fs : FS)
    : FS :=
  match fs file_path with
  | None => fs
  | Some _ => if removal_ok then write fs file_path None else fs
  end.

End TempFileManager.

(** ** [src/core/conversion_engine.py]: job execution *)

Module JobExecutor.

Import PrimFloat ConversionWorker.

(** The signals of [ConversionWorker]. *)
Inductive Signal :=
| progress (value : Q) (message : string)
| finished (success : bool) (message : string)
| error (message : string).

(** What a run does that is visible from outside, in order. *)
Inductive Effect :=
| Emit (s : Signal)
| Cleanup (path : string).

(** What happens while [_execute_conversion] iterates over the output of
    the child: a line arrives, another thread calls [stop()], or reading
    the next line raises an exception (output that cannot be decoded,
    say), which ends the loop.  The position of [StopRequest] among the
    lines is the position of the write to [should_stop] relative to the
    reads of the loop. *)
Inductive OutputEvent :=
| Line (text : string)
| StopRequest
| ReadError (exc : string).

(** Everything a run takes from outside the worker: the name of its
    temporary directory and whether it can be created; the two paths of
    the job (absent when the key is missing from [job_config]); what
    [_get_input_info] returns; the exception raised while the command is
    built, or by [Popen], if any; whether [stop()] was called before the
    output is read; what happens while it is read; the exit code of the
    child; and whether removing the temporary directory goes through. *)
Record World := mkWorld {
  session_dir : string;
  uuid : string;
  mkdir_error : option string;
  input_file : option string;
  output_file : option string;
  probe : option InputInfo;
  build_error : option string;
  popen_error : option string;
  stop_before_start : bool;
  output : list OutputEvent;
  returncode : Z;
  removal_ok : bool
}.

(** The line separator. *)
Definition nl : string := String (ascii_of_nat 10) EmptyString.

(** Two decimal digits at the start of [s], and what follows them. *)
Definition two_digits (s : string) : option (Z * string) :=
  match s with
  | String a (String b r) =>
      match PyStr.digit_of a, PyStr.digit_of b with
      | Some x, Some y => Some (10 * x + y, r)
      | _, _ => None
      end
  | _ => None
  end.

(** The character [c] at the start of [s], and what follows it. *)
Definition expect (c : ascii) (s : string) : option string :=
  match s with
  | String a r => if Ascii.eqb a c then Some r else None
  | EmptyString => None
  end.

(** A match of [time=(\d{2}):(\d{2}):(\d{2}\.\d{2})] at the start of [s]:
    hours, minutes and seconds. *)
Definition time_here (s : string) : option (Z * Z * Q) :=
  if PyStr.startswith "time=" s then
    match two_digits (substring 5 (String.length s - 5) s) with
    | Some (h, s1) =>
      match expect ":" s1 with
      | Some s2 =>
        match two_digits s2 with
        | Some (m, s3) =>
          match expect ":" s3 with
          | Some s4 =>
            match two_digits s4 with
            | Some (sec, s5) =>
              match expect "." s5 with
              | Some s6 =>
                match two_digits s6 with
                | Some (cs, _) =>
                    Some (h, m, (inject_Z (100 * sec + cs) / 100)%Q)
                | None => None
                end
              | None => None
              end
            | None => None
            end
          | None => None
          end
        | None => None
        end
      | None => None
      end
    | None => None
    end
  else None.

(** [time_pattern.search(line)] *)
Fixpoint time_search (s : string) : option (Z * Z * Q) :=
  match time_here s with
  | Some r => Some r
  | None =>
      match s with
      | EmptyString => None
      | String _ r => time_search r
      end
  end.

(** [f"{x:.1f}"] for a float that is not negative. *)
Definition format_1f (x : Q) : string :=
  let t := PyNum.round (x * 10)%Q in
  PyStr.of_Z (t / 10) ++ "." ++ PyStr.of_Z (t mod 10).

(** The progress signal of one output line, if it carries a time marker
    and the duration is above zero.  The fraction is given by its exact
    value; an infinite duration makes the quotient zero. *)
Definition line_progress (line : string) (duration : float)
    : list Effect :=
  match time_search line with
  | Some (hours, minutes, seconds) =>
      if PrimFloat.ltb 0%float duration then
        let current_time :=
          (inject_Z hours * 3600 + inject_Z minutes * 60 + seconds)%Q in
        let ratio := match Binary64.exact duration with
                     | Some d => (current_time / d)%Q
                     | None => 0%Q
                     end in
        let p := PyNum.Qmin (ratio * 90 + 10)%Q 99%Q in
        [Emit (progress p ("Converting... " ++ format_1f p ++ "%"))]
      else []
  | None => []
  end.

(** [output_lines.append(stripped)], keeping the last 200 lines. *)
Definition remember (output_lines : list string) (stripped : string)
    : list string :=
  let l := (output_lines ++ [stripped])%list in
  if Nat.ltb 200 (List.length l) then tl l else l.

(** The state the reading loop of [_execute_conversion] ends in:
    [raised] is the exception that ended it, if one did. *)
Record LoopResult := mkLoopResult {
  cancelled : bool;
  raised : option string;
  output_lines : list string;
  emitted : list Effect
}.

(** The loop [for line in self.process.stdout] of [_execute_conversion],
    with the calls of [stop()] that happen while it runs. *)
Fixpoint read_output (events : list OutputEvent) (should_stop : bool)
    (lines : list string) (duration : float) : LoopResult :=
  match events with
  | [] => mkLoopResult false None lines []
  | StopRequest :: rest => read_output rest true lines duration
  | ReadError exc :: _ => mkLoopResult false (Some exc) lines []
  | Line line :: rest =>
      let stripped := PyStr.rstrip line in
      let lines' := if String.eqb stripped "" then lines
                    else remember lines stripped in
      if should_stop then mkLoopResult true None lines' []
      else
        let r := read_output rest should_stop lines' duration in
        mkLoopResult (cancelled r) (raised r) (output_lines r)
                     (line_progress line duration ++ emitted r)%list
  end.

(** [output_lines[-20:]] *)
Definition last20 (l : list string) : list string :=
  skipn (List.length l - 20) l.

(** [_execute_conversion]: the returned pair and the progress emitted.
    An exception raised by [Popen] or inside the loop is caught by the
    [except Exception] clause of the function, which returns its text. *)
Definition _execute_conversion (w : World) (duration : float)
    : (bool * string) * list Effect :=
  match popen_error w with
  | Some exc => ((false, exc), [])
  | None =>
      let r := read_output (output w) (stop_before_start w) [] duration in
      match raised r with
      | Some exc => ((false, exc), emitted r)
      | None =>
          if cancelled r then ((false, "Conversion cancelled"), emitted r)
          else if Z.eqb (returncode w) 0 then ((true, ""), emitted r)
          else
            let tail := PyStr.join nl (last20 (output_lines r)) in
            let message :=
              PyStr.strip ("ffmpeg exited with code " ++
                           PyStr.of_Z (returncode w)) in
            let message := if String.eqb tail "" then message
                           else message ++ nl ++ tail in
            ((false, message), emitted r)
      end
  end.

(** The [except Exception as e] clause of [run]. *)
Definition on_exception (e : string) : list Effect :=
  [Emit (error ("Conversion error: " ++ e)); Emit (finished false e)].

(** The body of the [try] block of [run], after the temporary directory
    has been created. *)
Definition run_body (w : World) : list Effect :=
  match input_file w, output_file w with
  | None, _ => on_exception "'input_file'"
  | Some _, None => on_exception "'output_file'"
  | Some _, Some out =>
      Emit (progress 0%Q "Analyzing input file...") ::
      match probe w with
      | None =>
          [Emit (error "Failed to analyze input file");
           Emit (finished false "Analysis failed")]
      | Some input_info =>
          Emit (progress 5%Q "Building conversion command...") ::
          match build_error w with
          | Some e => on_exception e
          | None =>
              Emit (progress 10%Q "Starting conversion...") ::
              let '((success, result_message), emitted) :=
                _execute_conversion w (duration input_info) in
              (emitted ++
               if success then
                 [Emit (progress 100%Q "Conversion complete!");
                  Emit (finished true out)]
               else
                 (if andb (negb (String.eqb result_message ""))
                          (negb (String.eqb result_message
                                            "Conversion cancelled"))
                  then [Emit (error result_message)] else []) ++
                 [Emit (finished false
                          (if String.eqb result_message ""
                           then "Conversion failed" else result_message))]
              )%list
          end
      end
  end.

(** [run]: the effects of the job, and the file system it leaves. *)
Definition run (w : World) (fs : TempFileManager.FS)
    : list Effect * TempFileManager.FS :=
  match TempFileManager.create_temp_dir (session_dir w) "job_" (uuid w)
          (mkdir_error w) fs with
  | (inr e, fs1) => (on_exception e, fs1)
  | (inl temp_dir, fs1) =>
      ((run_body w ++ [Cleanup temp_dir])%list,
       TempFileManager.cleanup_file (removal_ok w) temp_dir fs1)
  end.

(** The signals among the effects of a run. *)
Definition signals (l : list Effect) : list Signal :=
  flat_map (fun e => match e with Emit s => [s] | Cleanup _ => [] end) l.

Definition is_error (s : Signal) : bool :=
  match s with error _ => true | _ => false end.

(** The terminal outcome a run reports through [finished]. *)
Inductive Outcome := Succeeded | Failed | Cancelled.

Definition outcome_of (s : Signal) : option Outcome :=
  match s with
  | finished true _ => Some Succeeded
  | finished false m =>
      if String.eqb m "Conversion cancelled" then Some Cancelled
      else Some Failed
  | _ => None
  end.

Definition outcomes (l : list Effect) : list Outcome :=
  flat_map (fun s => match outcome_of s with Some o => [o] | None => [] end)
           (signals l).

(** A stop request was issued before the child exited. *)
Definition stop_requested (w : World) : bool :=
  orb (stop_before_start w)
      (existsb (fun e => match e with StopRequest => true | _ => false end)
               (output w)).

(** The messages of the [error] signals among the effects of a run. *)
Definition error_messages (l : list Effect) : list string :=
  flat_map (fun s => match s with error m => [m] | _ => [] end) (signals l).

(** Whether the reading loop gets a line after a stop request, which is
    when it looks at [should_stop] again. *)
Fixpoint line_after_stop (events : list OutputEvent) (should_stop : bool)
    : bool :=
  match events with
  | [] => false
  | StopRequest :: rest => line_after_stop rest true
  | ReadError _ :: _ => false
  | Line _ :: rest => if should_stop then true else line_after_stop rest false
  end.

(** The exception that ends the reading loop, if one does: the first
    [ReadError] that comes before the loop notices a stop request. *)
Fixpoint read_error (events : list OutputEvent) (should_stop : bool)
    : option string :=
  match events with
  | [] => None
  | StopRequest :: rest => read_error rest true
  | ReadError exc :: _ => Some exc
  | Line _ :: rest => if should_stop then None else read_error rest false
  end.

(** A world in which the job gets as far as starting the child process. *)
Definition child_started (w : World) : Prop :=
  mkdir_error w = None /\ input_file w <> None /\ output_file w <> None /\
  probe w <> None /\ build_error w = None /\ popen_error w = None.

End JobExecutor.

(** ** [src/ui/main_window.py]: the scheduler *)

Module MainWindow.

Import PrimFloat.

(** What the window shows or starts, in order. *)
Inductive UiEffect :=
| MessageBox (kind title text : string)
| ProgressBarSetValue (v : Z)
| QueueListAddItem (file : string)
| QueueListTakeItem
| QueueListClear
| SetButtons (start_enabled stop_enabled : bool)
| ThreadStart (thread worker : nat) (input_file : string)
| ThreadQuit (thread : nat)
| WorkerStop (worker : nat).

(** The fields of [MainWindow] and of its [ConversionEngine] that the
    scheduler reads and writes.  [next_object] numbers the threads and
    workers created so far. *)
Record State := mkState {
  conversion_queue : list string;
  active_conversions : PyDict.t (nat * nat);
  progress_values : PyDict.t float;
  hw_detector : option HardwareDetector.t;
  next_object : nat;
  ui : list UiEffect
}.

(** [MainWindow.__init__] *)
Definition init : State := mkState [] [] [] None 0 [].

Definition show (s : State) (l : list UiEffect) : State :=
  mkState (conversion_queue s) (active_conversions s) (progress_values s)
          (hw_detector s) (next_object s) (ui s ++ l).

Section Scheduler.

(** [config.max_parallel_conversions] and [config.ffmpeg_path], the
    machine hardware detection runs on, and whether [sum] compensates the
    rounding errors of a sum of floats (CPython from 3.12 on does). *)
Variable max_parallel_conversions : Z.
Variable ffmpeg_path : string.
Variable machine : HardwareDetector.Machine.
Variable compensated_sum : bool.

(** [ConversionEngine.initialize_hardware] *)
Definition initialize_hardware (s : State) : State * bool :=
  if String.eqb ffmpeg_path "" then (s, false)
  else
    let '(hw, ok) :=
      HardwareDetector.detect machine (HardwareDetector.init ffmpeg_path) in
    (mkState (conversion_queue s) (active_conversions s) (progress_values s)
             (Some hw) (next_object s) (ui s), ok).

(** [ConversionEngine.create_conversion_job]: the worker, if one is
    created. *)
Definition create_conversion_job (s : State) : State * option nat :=
  let '(s1, ready) :=
    match hw_detector s with
    | Some _ => (s, true)
    | None => initialize_hardware s
    end in
  if ready then
    (mkState (conversion_queue s1) (active_conversions s1)
             (progress_values s1) (hw_detector s1) (S (next_object s1))
             (ui s1),
     Some (next_object s1))
  else (s1, None).

(** [process_next_in_queue] *)
Definition process_next_in_queue (s : State) : State :=
  match conversion_queue s with
  | [] =>
      match active_conversions s with
      | [] =>
          show s [SetButtons true false; ProgressBarSetValue 0;
                  MessageBox "information" "Complete"
                             "All conversions completed!"]
      | _ :: _ => s
      end
  | input_file :: rest =>
      let s1 := mkState rest (active_conversions s) (progress_values s)
                        (hw_detector s) (next_object s)
                        (ui s ++ [QueueListTakeItem]) in
      match create_conversion_job s1 with
      | (s2, None) =>
          show s2 [MessageBox "critical" "Error"
                              "Failed to create conversion job"]
      | (s2, Some worker) =>
          let thread := next_object s2 in
          mkState (conversion_queue s2)
                  (PyDict.set (active_conversions s2) input_file
                              (thread, worker))
                  (progress_values s2) (hw_detector s2) (S thread)
                  (ui s2 ++ [ThreadStart thread worker input_file])
      end
  end.

(** [max(1, int(config.max_parallel_conversions))] *)
Definition max_parallel : Z := Z.max 1 max_parallel_conversions.

(** The condition of the loop of [fill_conversion_slots]. *)
Definition slot_free (s : State) : bool :=
  andb (match conversion_queue s with [] => false | _ :: _ => true end)
       (Z.of_nat (List.length (active_conversions s)) <? max_parallel).

(** The loop of [fill_conversion_slots], at most [fuel] iterations. *)
Fixpoint fill_loop (fuel : nat) (s : State) : State :=
  match fuel with
  | O => s
  | S fuel' =>
      if slot_free s then fill_loop fuel' (process_next_in_queue s) else s
  end.

(** [fill_conversion_slots].  Every iteration takes one file from the
    queue, so the length of the queue bounds the number of iterations. *)
Definition fill_conversion_slots (s : State) : State :=
  fill_loop (List.length (conversion_queue s)) s.

(** The first entry of [active_conversions] whose worker is [worker]. *)
Fixpoint find_worker (d : PyDict.t (nat * nat)) (worker : nat)
    : option (string * nat) :=
  match d with
  | [] => None
  | (key, (thr, w)) :: r =>
      if Nat.eqb w worker then Some (key, thr) else find_worker r worker
  end.

(** The integers [QProgressBar.setValue] accepts: those of a C [int]. *)
Definition c_int (n : Z) : bool :=
  andb (Z.leb (-2147483648) n) (Z.leb n 2147483647).

(** [on_conversion_progress]; [sender] is [self.sender()].  When
    [int(avg)] raises (the mean is a NaN or an infinity) or [setValue]
    refuses the integer, the slot ends with that exception: the dictionary
    keeps the new value and the bar is not changed. *)
Definition on_conversion_progress (sender : nat) (progress : float)
    (s : State) : State :=
  let values :=
    match find_worker (active_conversions s) sender with
    | Some (key, _) => PyDict.set (progress_values s) key progress
    | None => progress_values s
    end in
  let shown :=
    match values with
    | [] => []
    | _ :: _ =>
        match Binary64.mean compensated_sum (PyDict.values values) with
        | Some avg =>
            match Binary64.int_of_float avg with
            | Some n => if c_int n then [ProgressBarSetValue n] else []
            | None => []
            end
        | None => []
        end
    end in
  mkState (conversion_queue s) (active_conversions s) values
          (hw_detector s) (next_object s) (ui s ++ shown).

(** [message[:500] + "..."] when the message is longer than 500. *)
Definition display_msg (m : string) : string :=
  if Nat.ltb 500 (String.length m) then substring 0 500 m ++ "..." else m.

(** The first half of [on_conversion_finished]: the entry of the sender
    (or, when there is none, the entry inserted last) leaves
    [active_conversions] and [progress_values], and its thread is quit.
    [sender] is [self.sender()] when it is a [ConversionWorker]. *)
Definition release_worker (sender : option nat) (s : State) : State :=
  let found :=
    match sender with
    | Some worker => find_worker (active_conversions s) worker
    | None => None
    end in
  let '(thread, active, values) :=
    match found with
    | Some (key, thr) =>
        (Some thr, PyDict.remove (active_conversions s) key,
         PyDict.remove (progress_values s) key)
    | None =>
        match PyDict.popitem (active_conversions s) with
        | Some ((key, (thr, _)), rest) =>
            (Some thr, rest, PyDict.remove (progress_values s) key)
        | None => (None, active_conversions s, progress_values s)
        end
    end in
  let quit := match thread with Some t => [ThreadQuit t] | None => [] end in
  mkState (conversion_queue s) active values (hw_detector s)
          (next_object s) (ui s ++ quit).

(** [on_conversion_finished] *)
Definition on_conversion_finished (sender : option nat) (success : bool)
    (message : string) (s : State) : State :=
  let s1 := release_worker sender s in
  if success then fill_conversion_slots s1
  else
    let failure_msg := if String.eqb message "" then "Conversion failed"
                       else message in
    if String.eqb failure_msg "Conversion cancelled" then s1
    else show s1 [MessageBox "warning" "Conversion Failed"
                             ("Failed:" ++ JobExecutor.nl ++
                              display_msg failure_msg)].

(** [stop_conversion] *)
Definition stop_conversion (s : State) : State :=
  let stops :=
    flat_map (fun kv => [WorkerStop (snd (snd kv)); ThreadQuit (fst (snd kv))])
             (active_conversions s) in
  mkState (conversion_queue s) [] [] (hw_detector s) (next_object s)
          (ui s ++ stops ++ [SetButtons true false]).

(** [add_files], for the files picked in the dialog. *)
Definition add_files (files : list string) (s : State) : State :=
  mkState (conversion_queue s ++ files) (active_conversions s)
          (progress_values s) (hw_detector s) (next_object s)
          (ui s ++ map QueueListAddItem files).

(** [clear_queue] *)
Definition clear_queue (s : State) : State :=
  mkState [] (active_conversions s) (progress_values s) (hw_detector s)
          (next_object s) (ui s ++ [QueueListClear]).

(** [start_conversion]; [output_dir_ok] tells whether the output
    directory is set and exists. *)
Definition start_conversion (output_dir_ok : bool) (s : State) : State :=
  match conversion_queue s with
  | [] => show s [MessageBox "warning" "No Files"
                             "Please add files to the queue first."]
  | _ :: _ =>
      if output_dir_ok then
        fill_conversion_slots (show s [SetButtons false true])
      else show s [MessageBox "warning" "Invalid Output"
                              "Please select a valid output directory."]
  end.

(** What can happen to the window: the user acts, the start-up timer
    fires, a worker's signal is delivered. *)
Inductive Event :=
| AddFiles (files : list string)
| ClearQueue
| StartConversion (output_dir_ok : bool)
| StopConversion
| DetectHardware
| WorkerProgress (sender : nat) (progress : float)
| WorkerFinished (sender : option nat) (success : bool) (message : string).

Definition handle (e : Event) (s : State) : State :=
  match e with
  | AddFiles files => add_files files s
  | ClearQueue => clear_queue s
  | StartConversion ok => start_conversion ok s
  | StopConversion => stop_conversion s
  | DetectHardware => fst (initialize_hardware s)
  | WorkerProgress w p => on_conversion_progress w p s
  | WorkerFinished w ok m => on_conversion_finished w ok m s
  end.

(** The window after a sequence of events. *)
Definition run_events (es : list Event) (s : State) : State :=
  fold_left (fun s e => handle e s) es s.

(** The states the scheduler passes through: between two events, inside
    a handler before it fills the slots, and between two iterations of the
    loop of [fill_conversion_slots]. *)
Inductive reachable : State -> Prop :=
| reach_init : reachable init
| reach_event e s : reachable s -> reachable (handle e s)
| reach_show l s : reachable s -> reachable (show s l)
| reach_release sender s : reachable s -> reachable (release_worker sender s)
| reach_slot s :
    reachable s -> slot_free s = true ->
    reachable (process_next_in_queue s).

(** The active set holds at most [max(1, N)] entries. *)
Definition bounded (s : State) : Prop :=
  Z.of_nat (List.length (active_conversions s)) <= max_parallel.

(** Both dictionaries have one entry per key, and progress is only
    recorded for keys of the active set. *)
Definition consistent (s : State) : Prop :=
  NoDup (PyDict.keys (active_conversions s)) /\
  NoDup (PyDict.keys (progress_values s)) /\
  incl (PyDict.keys (progress_values s)) (PyDict.keys (active_conversions s)).

(** Two states with the same scheduling data. *)
Definition same_jobs (s s' : State) : Prop :=
  active_conversions s' = active_conversions s /\
  progress_values s' = progress_values s.

End Scheduler.

End MainWindow.

(** ** Concrete jobs, machines and runs *)

Module Scenario.

Import PrimFloat ConversionWorker JobExecutor MainWindow.

(** Scenario B: 50 MB, 120 s, audio bitrate [128k]. *)
Definition scenario_B_config : JobConfig :=
  mkJobConfig None None None None (Some "target_size") None None None
              (Some 50%float) (PyStr "128k") None None None None.

Definition scenario_B_input : InputInfo := mkInputInfo 120%float [].

(** A source at 30 frames per second. *)
Definition fps30_input : InputInfo :=
  mkInputInfo 60%float [mkVideoStream "h264" 1920 1080 (30 # 1)%Q].

(** Scenario C: GOP mode [half_fps]. *)
Definition half_fps_config : JobConfig :=
  mkJobConfig None None None None None None None None None PyNone
              None (Some "half_fps") None None.

(** A preset with GOP mode [custom] and a negative [gop_size]. *)
Definition custom_negative_config : JobConfig :=
  mkJobConfig None None None None None None None None None PyNone
              None (Some "custom") (Some (-5)) None.

(** A Windows machine with an Intel GPU on which ffmpeg offers QSV. *)
Definition intel_machine : HardwareDetector.Machine :=
  HardwareDetector.mkMachine "Windows" ["qsv"; "d3d11va"]
    [("h264", ["qsv"]); ("hevc", ["qsv"]); ("vp9", []); ("av1", [])]
    (Some "Intel(R) UHD Graphics").

(** The detector that hardware detection builds on that machine: its best
    acceleration is QSV and it knows the encoder [h264_qsv]. *)
Definition qsv_detector : HardwareDetector.t :=
  fst (HardwareDetector.detect intel_machine (HardwareDetector.init "ffmpeg")).

(** An H.264 job with hardware acceleration on and the tune [film]. *)
Definition film_config : JobConfig :=
  mkJobConfig (Some "h264") (Some "aac") None (Some true) None None None None
              None PyNone (Some "film") None None None.

(** A machine on which ffmpeg offers no hardware acceleration. *)
Definition cpu_only_machine : HardwareDetector.Machine :=
  HardwareDetector.mkMachine "Linux" []
    [("h264", []); ("hevc", []); ("vp9", []); ("av1", [])] None.

(** An empty temporary area. *)
Definition no_files : TempFileManager.FS := fun _ => None.

(** A two-minute source. *)
Definition sample_input : InputInfo :=
  mkInputInfo 120%float [mkVideoStream "h264" 1920 1080 (30 # 1)%Q].

(** A child that is stopped after its first progress line and, being
    terminated, writes nothing more and exits with code 1. *)
Definition stopped_silently : World :=
  mkWorld "/tmp/chunmediaconv/session" "0001" None
          (Some "in.mkv") (Some "out.mp4") (Some sample_input) None None
          false
          [Line "frame=  360 fps=0.0 time=00:00:12.00 bitrate=3205.0kbits/s";
           StopRequest]
          1 true.

(** A conversion that succeeds while the removal of its directory fails
    (a file in it is still open, say). *)
Definition removal_fails : World :=
  mkWorld "/tmp/chunmediaconv/session" "0002" None
          (Some "in.mkv") (Some "out.mp4") (Some sample_input) None None
          false [Line "frame=  360 fps=0.0 time=00:00:12.00"] 0 false.

(** A child whose output cannot be decoded: reading its second line
    raises, and the child exits with code 0. *)
Definition undecodable_output : World :=
  mkWorld "/tmp/chunmediaconv/session" "0003" None
          (Some "in.mkv") (Some "out.mp4") (Some sample_input) None None
          false
          [Line "frame=  360 fps=0.0 time=00:00:12.00";
           ReadError ("'utf-8' codec can't decode byte 0xff in position 0: "
                      ++ "invalid start byte")]
          0 true.


(** Scenario D: three files are added and the conversion is started. *)
Definition three_queued : list Event :=
  [AddFiles ["a.mkv"; "b.mkv"; "c.mkv"]; StartConversion true].

(** One file is added and its conversion is running (limit 2). *)
Definition one_running : State :=
  run_events 2 "ffmpeg" intel_machine true
             [AddFiles ["a.mkv"]; StartConversion true] init.

(** A window whose engine has no detector yet, on a machine without
    hardware acceleration. *)
Definition before_detection : State :=
  run_events 2 "ffmpeg" cpu_only_machine true
             [AddFiles ["a.mkv"; "b.mkv"]] init.

End Scenario.

(** ** [src/core/format_compatibility.py]: the queries *)

Module FormatQueries.

Import FormatCompatibility.

Record AudioCodecInfo := mkAudioCodecInfo {
  codec_name : string;
  quality : string;
  lossy : bool;
  bitrates : list string
}.

(** [_initialize_audio_codecs] *)
Definition audio_codecs : PyDict.t AudioCodecInfo :=
  [ ("aac", mkAudioCodecInfo "AAC" "good" true
              ["96k"; "128k"; "192k"; "256k"; "320k"]);
    ("mp3", mkAudioCodecInfo "MP3" "good" true
              ["96k"; "128k"; "192k"; "256k"; "320k"]);
    ("opus", mkAudioCodecInfo "Opus" "excellent" true
               ["96k"; "128k"; "192k"; "256k"]);
    ("vorbis", mkAudioCodecInfo "Vorbis" "good" true
                 ["96k"; "128k"; "192k"; "256k"]);
    ("flac", mkAudioCodecInfo "FLAC" "lossless" false []);
    ("alac", mkAudioCodecInfo "Apple Lossless" "lossless" false []);
    ("pcm", mkAudioCodecInfo "PCM (Uncompressed)" "lossless" false []) ].

(** [get_compatible_video_codecs] *)
Definition get_compatible_video_codecs (format_name : string) : list string :=
  match PyDict.get formats format_name with
  | None => []
  | Some fmt => supported_video_codecs fmt
  end.

(** [get_compatible_audio_codecs] *)
Definition get_compatible_audio_codecs (format_name : string) : list string :=
  match PyDict.get formats format_name with
  | None => []
  | Some fmt => supported_audio_codecs fmt
  end.

(** [is_format_compatible]; an absent or empty codec is not checked. *)
Definition is_format_compatible (format_name : string)
    (video_codec audio_codec : option string) : bool :=
  match PyDict.get formats format_name with
  | None => false
  | Some fmt =>
      let video_ok :=
        match video_codec with
        | Some (String c r) =>
            if String.eqb (type fmt) "video"
            then PyStr.in_list (String c r) (supported_video_codecs fmt)
            else true
        | _ => true
        end in
      let audio_ok :=
        match audio_codec with
        | Some (String c r) =>
            PyStr.in_list (String c r) (supported_audio_codecs fmt)
        | _ => true
        end in
      andb video_ok audio_ok
  end.

(** [get_video_formats] *)
Definition get_video_formats : list string :=
  map fst (filter (fun kv => String.eqb (type (snd kv)) "video") formats).

(** [get_audio_formats] *)
Definition get_audio_formats : list string :=
  map fst (filter (fun kv => String.eqb (type (snd kv)) "audio") formats).

(** [get_all_formats] *)
Definition get_all_formats : list string := PyDict.keys formats.

(** [supports_lossless]; the format name is not looked at. *)
Definition supports_lossless (format_name audio_codec : string) : bool :=
  match PyDict.get audio_codecs audio_codec with
  | Some codec_info => negb (lossy codec_info)
  | None => false
  end.

(** What the table of containers has in common: a container of type
    [video] allows some video codec, any other allows none, and every
    container allows some audio codec. *)
Definition well_formed (fmt : FormatInfo) : bool :=
  andb (if String.eqb (type fmt) "video"
        then truthy (supported_video_codecs fmt)
        else negb (truthy (supported_video_codecs fmt)))
       (truthy (supported_audio_codecs fmt)).

End FormatQueries.

(** ** [src/core/hardware_detector.py]: probing and acceleration flags *)

Module HardwareProbe.

Import HardwareDetector.

(** [s.split('\n')] *)
Fixpoint split_lines (s : string) : list string :=
  match s with
  | EmptyString => [EmptyString]
  | String c r =>
      if Ascii.eqb c (ascii_of_nat 10) then EmptyString :: split_lines r
      else
        match split_lines r with
        | l :: ls => String c l :: ls
        | [] => [String c EmptyString]
        end
  end.

Definition hwaccels_header : string := "Hardware acceleration methods:".

(** The loop of [_detect_hwaccels] over the lines of the output. *)
Fixpoint collect_hwaccels (lines : list string) (in_list : bool)
    : list string :=
  match lines with
  | [] => []
  | line :: rest =>
      let line := PyStr.strip line in
      if String.eqb line hwaccels_header then collect_hwaccels rest true
      else if andb in_list (negb (String.eqb line ""))
      then line :: collect_hwaccels rest in_list
      else collect_hwaccels rest in_list
  end.

(** What [_detect_hwaccels] appends to [available_hwaccels] for the
    standard output of [ffmpeg -hwaccels]. *)
Definition _detect_hwaccels (stdout : string) : list string :=
  collect_hwaccels (split_lines stdout) false.

(** A character matched by [\w] (ASCII). *)
Definition is_word (c : ascii) : bool :=
  let n := nat_of_ascii c in
  orb (orb (andb (Nat.leb 48 n) (Nat.leb n 57))
           (andb (Nat.leb 65 n) (Nat.leb n 90)))
      (orb (andb (Nat.leb 97 n) (Nat.leb n 122)) (Nat.eqb n 95)).

(** The longest run of word characters at the start of [s]. *)
Fixpoint take_word (s : string) : string :=
  match s with
  | String c r => if is_word c then String c (take_word r) else EmptyString
  | EmptyString => EmptyString
  end.

(** A match of [prefix(\w+)] at the start of [s]: its group. *)
Definition match_here (prefix s : string) : option string :=
  if PyStr.startswith prefix s then
    match take_word (substring (String.length prefix)
                               (String.length s - String.length prefix) s) with
    | EmptyString => None
    | g => Some g
    end
  else None.

(** The groups of [re.finditer(prefix(\w+), s)]: the matches from left to
    right, none overlapping the one before; [skip] counts the characters
    still covered by the last match. *)
Fixpoint finditer (prefix s : string) (skip : nat) : list string :=
  match s with
  | EmptyString => []
  | String _ r =>
      match skip with
      | S k => finditer prefix r k
      | O =>
          match match_here prefix s with
          | Some g =>
              g :: finditer prefix r
                     (String.length prefix + String.length g - 1)
          | None => finditer prefix r 0
          end
      end
  end.

(** The codec families of [hw_patterns]. *)
Definition hw_families : list string := ["h264"; "hevc"; "vp9"; "av1"].

(** What [_detect_encoders] stores in [available_encoders] for the
    standard output of [ffmpeg -encoders]. *)
Definition _detect_encoders (stdout : string) : PyDict.t (list string) :=
  map (fun codec => (codec, finditer (codec ++ "_") stdout 0)) hw_families.

(** [_detect_gpu]: on Windows, the first line of the [wmic] output after
    the heading that is not blank. *)
Definition _detect_gpu (system wmic_stdout : string) : option string :=
  if String.eqb system "Windows" then
    hd_error (filter (fun l => negb (String.eqb l ""))
                     (map PyStr.strip (tl (split_lines wmic_stdout))))
  else None.

(** The machine as the three probes of [detect] see it. *)
Definition probe_machine (system hwaccels_stdout encoders_stdout
                          wmic_stdout : string) : Machine :=
  mkMachine system (_detect_hwaccels hwaccels_stdout)
            (_detect_encoders encoders_stdout)
            (_detect_gpu system wmic_stdout).

(** [get_acceleration_args] *)
Definition get_acceleration_args (hw : t) (codec : string) : list string :=
  match best_acceleration hw with
  | NONE => []
  | CUDA =>
      let args := ["-hwaccel"; "cuda"] in
      if match PyDict.get (available_encoders hw) codec with
         | Some hw_encoders => PyStr.in_list "nvenc" hw_encoders
         | None => false
         end
      then args else args
  | VULKAN => ["-hwaccel"; "vulkan"]
  | OPENCL => ["-hwaccel"; "opencl"]
  | QSV => ["-hwaccel"; "qsv"; "-hwaccel_output_format"; "qsv"]
  | D3D11VA => ["-hwaccel"; value D3D11VA]
  | DXVA2 => ["-hwaccel"; value DXVA2]
  | VIDEOTOOLBOX => ["-hwaccel"; "videotoolbox"]
  end.

End HardwareProbe.

(** ** [src/core/conversion_engine.py]: the whole command *)

Module CommandSynthesis.

Import ConversionWorker.

(** A configuration entry that is a list of strings or one string. *)
Inductive ListOrStr :=
| Absent
| AList (l : list string)
| AStr (s : string).

(** The entries of [job_config] read by [_build_ffmpeg_command],
    [_apply_video_settings] and [_apply_audio_settings] beside those of
    [JobConfig], typed the way the window and the presets supply them:
    flags as booleans, texts as strings, numbers as integers, and values
    that are only printed as [pyval]. *)
Record Options := mkOptions {
  conversion_type : option string;
  start_time : option string;
  duration : option string;
  threads : option Z;
  video_copy : bool;
  video_preset : option string;
  video_profile : pyval;
  video_level : pyval;
  pixel_format : pyval;
  maxrate : pyval;
  bufsize : pyval;
  force_cfr : bool;
  b_frames : option Z;
  scale_width : option Z;
  scale_height : option Z;
  video_filters : ListOrStr;
  framerate : pyval;
  movflags : ListOrStr;
  extra_video_options : list string;
  color_primaries : pyval;
  color_trc : pyval;
  colorspace : pyval;
  audio_copy : bool;
  audio_encoder : option string;
  audio_sample_rate : pyval;
  audio_channels : pyval;
  extra_audio_options : list string
}.

(** Truthiness of a configuration value. *)
Definition truthy (v : pyval) : bool :=
  match v with
  | PyNone => false
  | PyStr s => negb (String.eqb s "")
  | PyInt z => negb (Z.eqb z 0)
  end.

(** [str(v)] *)
Definition str (v : pyval) : string :=
  match v with
  | PyNone => "None"
  | PyStr s => s
  | PyInt z => PyStr.of_Z z
  end.

(** [if config.get(key): command.extend([flag, str(config[key])])] *)
Definition flag_if (flag : string) (v : pyval) : list string :=
  if truthy v then [flag; str v] else [].

(** [config["video_codec"] = v; config["audio_codec"] = a] *)
Definition set_codecs (config : JobConfig) (v a : string) : JobConfig :=
  mkJobConfig (Some v) (Some a) (video_encoder config)
              (use_hardware_acceleration config) (encoding_mode config)
              (crf config) (cq config) (video_bitrate config)
              (target_size_mb config) (audio_bitrate config)
              (video_tune config) (gop_mode config) (gop_size config)
              (gop_seconds config).

Definition nvenc_presets : list string :=
  [ "default"; "slow"; "medium"; "fast"; "hp"; "hq"; "bd";
    "ll"; "llhq"; "llhp"; "lossless"; "losslesshp";
    "p1"; "p2"; "p3"; "p4"; "p5"; "p6"; "p7" ].

Definition nvenc_preset_mapping : PyDict.t string :=
  [ ("ultrafast", "p1"); ("superfast", "p2"); ("veryfast", "p3");
    ("faster", "p4"); ("fast", "p5"); ("medium", "p6"); ("slow", "p7");
    ("slower", "slow"); ("veryslow", "slow") ].

(** [_map_encoder_preset] *)
Definition _map_encoder_preset (encoder : string) (preset : option string)
    : option string :=
  match preset with
  | None | Some EmptyString => None
  | Some p =>
      let preset_str := PyStr.lower (PyStr.strip p) in
      if String.eqb preset_str "" then None
      else if PyStr.contains "nvenc" (PyStr.lower encoder) then
        let mapped := get_or (PyDict.get nvenc_preset_mapping preset_str)
                             preset_str in
        if PyStr.in_list mapped nvenc_presets then Some mapped else None
      else Some p
  end.

Definition skip_nvenc_only : list string :=
  ["-rc"; "-spatial_aq"; "-temporal_aq"; "-aq-strength"].

(** [_iter_video_options]: the loop reads a flag, takes the next item as
    its value unless that starts with a dash, and drops the flag (with its
    value) when it is one of the NVENC flags and the encoder is not
    NVENC. *)
Fixpoint _iter_video_options (options : list string) (encoder : string)
    : list (string * option string) :=
  match options with
  | [] => []
  | flag :: rest =>
      let drop := andb (PyStr.in_list flag skip_nvenc_only)
                       (negb (PyStr.contains "nvenc" (PyStr.lower encoder)))
      in
      match rest with
      | next_item :: rest' =>
          if negb (PyStr.startswith "-" next_item) then
            if drop then _iter_video_options rest' encoder
            else (flag, Some next_item) :: _iter_video_options rest' encoder
          else
            if drop then _iter_video_options rest encoder
            else (flag, None) :: _iter_video_options rest encoder
      | [] => if drop then [] else [(flag, None)]
      end
  end.

(** The loop of [_apply_video_settings] over the filtered options. *)
Definition option_args (l : list (string * option string)) : list string :=
  flat_map (fun fv => match snd fv with
                      | Some v => [fst fv; v]
                      | None => [fst fv]
                      end) l.

(** [_is_lossy_audio] *)
Definition _is_lossy_audio (codec : string) : bool :=
  match PyDict.get FormatQueries.audio_codecs codec with
  | Some codec_info => FormatQueries.lossy codec_info
  | None => true
  end.

Definition _DEFAULT_AUDIO_ENCODERS : PyDict.t string :=
  [ ("aac", "aac"); ("alac", "alac"); ("mp3", "libmp3lame");
    ("opus", "libopus"); ("vorbis", "libvorbis"); ("flac", "flac");
    ("pcm", "pcm_s16le"); ("ac3", "ac3"); ("dts", "dca") ].

(** Whether [_apply_video_settings] replaces the codec pair: the container
    is known and does not allow the normalised video codec. *)
Definition video_fallback_needed (config : JobConfig)
    (fmt_info : option FormatCompatibility.FormatInfo) : bool :=
  match fmt_info with
  | Some fmt =>
      negb (PyStr.in_list
              (_normalize_video_codec
                 (Some (get_or (video_codec config) "h264")))
              (FormatCompatibility.supported_video_codecs fmt))
  | None => false
  end.

(** The scale filter and the configured filters of
    [_apply_video_settings]. *)
Definition video_filter_list (o : Options) : list string :=
  ((if orb (int_truthy (scale_width o)) (int_truthy (scale_height o))
    then [("scale=" ++ PyStr.of_Z (get_or (scale_width o) (-2)) ++ ":" ++
           PyStr.of_Z (get_or (scale_height o) (-2)))%string]
    else []) ++
   match video_filters o with
   | AList l => filter (fun v => negb (String.eqb v "")) l
   | AStr EmptyString | Absent => []
   | AStr v => [v]
   end)%list.

(** Truthiness of a list-or-string entry. *)
Definition los_truthy (v : ListOrStr) : bool :=
  match v with
  | Absent | AList [] | AStr EmptyString => false
  | _ => true
  end.

(** The [-movflags] part of [_apply_video_settings]. *)
Definition movflags_args (o : Options) (output_ext : string) : list string :=
  if andb (los_truthy (movflags o)) (PyStr.in_list output_ext ["mp4"; "mov"])
  then
    match movflags o with
    | AList l => ["-movflags"; PyStr.join " " l]
    | AStr v => ["-movflags"; v]
    | Absent => []
    end
  else if String.eqb output_ext "mp4" then ["-movflags"; "+faststart"]
  else [].

(** [_apply_video_settings]: what it appends to the command, and the
    configuration it leaves; [None] stands for the exception of the
    [target_size] branch. *)
Definition _apply_video_settings (hw : HardwareDetector.t)
    (config : JobConfig) (o : Options)
    (fmt_info : option FormatCompatibility.FormatInfo) (output_ext : string)
    (input_info : InputInfo) : option (list string * JobConfig) :=
  if video_copy o then Some (["-c:v"; "copy"], config)
  else
    let '(video_codec, audio_codec) :=
      corrected_codecs config fmt_info output_ext in
    let config' := if video_fallback_needed config fmt_info
                   then set_codecs config video_codec audio_codec
                   else config in
    let encoder := select_video_encoder hw config' video_codec in
    let mapped_preset := _map_encoder_preset encoder (video_preset o) in
    let filters := video_filter_list o in
    match encoding_mode_args config' input_info with
    | None => None
    | Some mode_args =>
        Some
        ((["-c:v"; encoder] ++
          mode_args ++
          (if str_truthy mapped_preset
           then ["-preset"; get_or mapped_preset ""] else []) ++
          tune_args encoder config' ++
          flag_if "-profile:v" (video_profile o) ++
          flag_if "-level" (video_level o) ++
          flag_if "-pix_fmt" (pixel_format o) ++
          flag_if "-maxrate" (maxrate o) ++
          flag_if "-bufsize" (bufsize o) ++
          (if force_cfr o then ["-vsync"; "cfr"] else []) ++
          gop_args config' input_info ++
          match b_frames o with
          | Some n => ["-bf"; PyStr.of_Z n]
          | None => []
          end ++
          match filters with
          | [] => []
          | _ :: _ => ["-vf"; PyStr.join "," filters]
          end ++
          flag_if "-r" (framerate o) ++
          movflags_args o output_ext ++
          option_args (_iter_video_options (extra_video_options o) encoder) ++
          flag_if "-color_primaries" (color_primaries o) ++
          flag_if "-color_trc" (color_trc o) ++
          flag_if "-colorspace" (colorspace o))%list,
         config')
    end.

(** Whether [_apply_audio_settings] replaces the codec pair. *)
Definition audio_fallback_needed (config : JobConfig)
    (fmt_info : option FormatCompatibility.FormatInfo) : bool :=
  match fmt_info with
  | Some fmt =>
      negb (PyStr.in_list
              (_normalize_audio_codec
                 (Some (get_or (audio_codec config) "aac")))
              (FormatCompatibility.supported_audio_codecs fmt))
  | None => false
  end.

(** The codec pair [_apply_audio_settings] continues with. *)
Definition corrected_audio (config : JobConfig)
    (fmt_info : option FormatCompatibility.FormatInfo) (output_ext : string)
    : string * string :=
  let audio := _normalize_audio_codec
                 (Some (get_or (audio_codec config) "aac")) in
  let video := _normalize_video_codec
                 (Some (get_or (video_codec config) "h264")) in
  if audio_fallback_needed config fmt_info
  then FormatCompatibility.get_fallback_codec output_ext video audio
  else (video, audio).

(** [_apply_audio_settings]: what it appends to the command, and the
    configuration it leaves. *)
Definition _apply_audio_settings (config : JobConfig) (o : Options)
    (fmt_info : option FormatCompatibility.FormatInfo) (output_ext : string)
    : list string * JobConfig :=
  if audio_copy o then (["-c:a"; "copy"], config)
  else if String.eqb (PyStr.lower (str_or (audio_codec config) "")) "copy"
  then (["-c:a"; "copy"], config)
  else
    let '(video_codec, audio_codec) :=
      corrected_audio config fmt_info output_ext in
    let config' := if audio_fallback_needed config fmt_info
                   then set_codecs config video_codec audio_codec
                   else config in
    let encoder :=
      if str_truthy (audio_encoder o) then get_or (audio_encoder o) ""
      else get_or (PyDict.get _DEFAULT_AUDIO_ENCODERS audio_codec)
                  audio_codec in
    ((["-c:a"; encoder] ++
      (if andb (truthy (audio_bitrate config')) (_is_lossy_audio audio_codec)
       then ["-b:a"; str (audio_bitrate config')] else []) ++
      flag_if "-ar" (audio_sample_rate o) ++
      flag_if "-ac" (audio_channels o) ++
      extra_audio_options o)%list,
     config').

(** [s.split(sep)] for a separator of one character. *)
Fixpoint split_on (sep : ascii) (s : string) : list string :=
  match s with
  | EmptyString => [EmptyString]
  | String c r =>
      if Ascii.eqb c sep then EmptyString :: split_on sep r
      else
        match split_on sep r with
        | l :: ls => String c l :: ls
        | [] => [String c EmptyString]
        end
  end.

(** [Path(p).name] for a POSIX path: its last component, empty components
    and [.] left aside. *)
Definition basename (p : string) : string :=
  last (filter (fun c => negb (orb (String.eqb c "") (String.eqb c ".")))
               (split_on "/" p))
       EmptyString.

(** The part of [name] from its last dot on, when that dot is neither its
    first nor its last character. *)
Fixpoint last_dot_suffix (name : string) : option string :=
  match name with
  | EmptyString => None
  | String c r =>
      match last_dot_suffix r with
      | Some sfx => Some sfx
      | None => if Ascii.eqb c "." then Some name else None
      end
  end.

(** [Path(p).suffix] *)
Definition suffix (p : string) : string :=
  match basename p with
  | EmptyString => EmptyString
  | String c r =>
      match last_dot_suffix r with
      | Some (String _ EmptyString) | None => EmptyString
      | Some sfx => sfx
      end
  end.

(** [s.lstrip('.')] *)
Fixpoint lstrip_dots (s : string) : string :=
  match s with
  | String c r => if Ascii.eqb c "." then lstrip_dots r else s
  | EmptyString => EmptyString
  end.

(** [Path(output_file).suffix.lower().lstrip('.')] *)
Definition output_ext_of (output_file : string) : string :=
  lstrip_dots (PyStr.lower (suffix output_file)).

(** The flags [_build_ffmpeg_command] appends after the stream settings. *)
Definition trailing_args (cpu_count : Z) (o : Options) (output_file : string)
    : list string :=
  ((if str_truthy (start_time o) then ["-ss"; get_or (start_time o) ""]
    else []) ++
   (if str_truthy (duration o) then ["-t"; get_or (duration o) ""]
    else []) ++
   ["-threads"; PyStr.of_Z (get_or (threads o) (Z.min cpu_count 8))] ++
   ["-hide_banner"; "-loglevel"; "info"; "-stats"] ++
   [output_file])%list.

(** [_build_ffmpeg_command]; [cpu_count] is
    [multiprocessing.cpu_count()].  [None] stands for the exception
    [_apply_video_settings] raises. *)
Definition _build_ffmpeg_command (ffmpeg_path : string)
    (hw : HardwareDetector.t) (cpu_count : Z) (job_config : JobConfig)
    (o : Options) (input_file output_file : string) (input_info : InputInfo)
    : option (list string) :=
  let output_ext := output_ext_of output_file in
  let fmt_info := FormatCompatibility.get_format_info output_ext in
  let is_audio_container :=
    match fmt_info with
    | Some fmt => String.eqb (FormatCompatibility.type fmt) "audio"
    | None => false
    end in
  let hw_args :=
    if andb (get_or (use_hardware_acceleration job_config) true)
            (negb is_audio_container)
    then HardwareProbe.get_acceleration_args hw
           (get_or (video_codec job_config) "h264")
    else [] in
  match
    if orb (match conversion_type o with
            | Some t => String.eqb t "video_to_audio"
            | None => false
            end) is_audio_container
    then Some (["-vn"], job_config)
    else _apply_video_settings hw job_config o fmt_info output_ext
                               input_info
  with
  | None => None
  | Some (video_args, config1) =>
      let audio_args :=
        if match conversion_type o with
           | Some t => String.eqb t "audio_to_video"
           | None => false
           end
        then []
        else fst (_apply_audio_settings config1 o fmt_info output_ext) in
      Some ([ffmpeg_path; "-y"] ++ hw_args ++ ["-i"; input_file] ++
            video_args ++ audio_args ++
            trailing_args cpu_count o output_file)%list
  end.

End CommandSynthesis.

(** ** What is observed of a run *)

Module Observations.

Import ConversionWorker JobExecutor MainWindow.

(** The last [n] elements of a list. *)
Definition lastn {A} (n : nat) (l : list A) : list A :=
  skipn (List.length l - n) l.

(** The lines the reading loop of [_execute_conversion] keeps, had it no
    bound: every line read, stripped on the right, the blank ones left
    out, up to the line at which a stop request is noticed or to the
    exception that ends the loop. *)
Fixpoint lines_read (events : list OutputEvent) (should_stop : bool)
    : list string :=
  match events with
  | [] => []
  | StopRequest :: rest => lines_read rest true
  | ReadError _ :: _ => []
  | Line line :: rest =>
      let kept := if String.eqb (PyStr.rstrip line) "" then []
                  else [PyStr.rstrip line] in
      if should_stop then kept else (kept ++ lines_read rest false)%list
  end.

(** The values of the [progress] signals among the effects of a run. *)
Definition progress_values_of (l : list Effect) : list Q :=
  flat_map (fun s => match s with progress p _ => [p] | _ => [] end)
           (signals l).

(** The input files of the threads started, in order. *)
Definition thread_starts (ui : list UiEffect) : list string :=
  flat_map (fun e => match e with ThreadStart _ _ f => [f] | _ => [] end) ui.


(** Whether the window has told that all conversions are completed. *)
Definition completion_shown (ui : list UiEffect) : bool :=
  existsb (fun e => match e with
                    | MessageBox kind _ _ => String.eqb kind "information"
                    | _ => false
                    end) ui.

(** [config["audio_bitrate"] = b] *)
Definition with_audio_bitrate (config : JobConfig) (b : pyval) : JobConfig :=
  mkJobConfig (video_codec config) (audio_codec config) (video_encoder config)
              (use_hardware_acceleration config) (encoding_mode config)
              (crf config) (cq config) (video_bitrate config)
              (target_size_mb config) b
              (video_tune config) (gop_mode config) (gop_size config)
              (gop_seconds config).

(** The default encoder of the audio codec [a]. *)
Definition default_audio_encoder (a : string) : string :=
  get_or (PyDict.get CommandSynthesis._DEFAULT_AUDIO_ENCODERS a) a.

(** The audio encoder of a job for the codec [a]: the configured
    [audio_encoder], or else the default encoder of [a]. *)
Definition chosen_audio_encoder (o : CommandSynthesis.Options) (a : string)
    : string :=
  if str_truthy (CommandSynthesis.audio_encoder o)
  then get_or (CommandSynthesis.audio_encoder o) ""
  else default_audio_encoder a.

(** The default encoder of the video codec [v]. *)
Definition default_video_encoder (v : string) : string :=
  get_or (PyDict.get _DEFAULT_VIDEO_ENCODERS v) ("lib" ++ v).

(** The encoder of the video codec [v] for a job that names no encoder:
    the one the detector gives for [v] when hardware acceleration is on,
    the default encoder of [v] when it is off. *)
Definition offered_video_encoder (hw : HardwareDetector.t)
    (config : JobConfig) (v : string) : string :=
  if get_or (use_hardware_acceleration config) true
  then HardwareDetector.get_encoder hw v (default_video_encoder v)
  else default_video_encoder v.

(** The acceleration flags of a command whose container is not an audio
    container. *)
Definition acceleration_args (hw : HardwareDetector.t) (config : JobConfig)
    : list string :=
  if get_or (use_hardware_acceleration config) true
  then HardwareProbe.get_acceleration_args hw
         (get_or (video_codec config) "h264")
  else [].

(** [config.get("conversion_type") == t] *)
Definition conversion_type_is (o : CommandSynthesis.Options) (t : string)
    : bool :=
  match CommandSynthesis.conversion_type o with
  | Some t' => String.eqb t' t
  | None => false
  end.

(** Whether the configured audio codec asks for a stream copy. *)
Definition asks_audio_copy (config : JobConfig) : bool :=
  String.eqb (PyStr.lower (str_or (audio_codec config) "")) "copy".

(** An audio codec as the container tables write it: it is its own
    normal form, it is not [copy], and neither is its default encoder. *)
Definition plain_audio_codec (a : string) : bool :=
  andb (String.eqb (_normalize_audio_codec (Some a)) a)
       (andb (negb (String.eqb (PyStr.lower a) "copy"))
             (negb (String.eqb
                      (get_or (PyDict.get
                                 CommandSynthesis._DEFAULT_AUDIO_ENCODERS a) a)
                      "copy"))).

(** The files the user has put in the queue, in order. *)
Definition files_added (es : list Event) : list string :=
  flat_map (fun e => match e with AddFiles files => files | _ => [] end) es.

(** The events whose handlers call [fill_conversion_slots]. *)
Definition fills_slots (e : Event) : bool :=
  match e with
  | StartConversion _ | WorkerFinished _ true _ => true
  | _ => false
  end.

Definition is_clear (e : Event) : bool :=
  match e with ClearQueue => true | _ => false end.

(** How often the window has told that a job could not be created. *)
Definition creation_failures (ui : list UiEffect) : nat :=
  List.length
    (filter (fun e => match e with
                      | MessageBox kind _ _ => String.eqb kind "critical"
                      | _ => false
                      end) ui).

(** An effect that neither starts a thread nor opens the box of a
    completed queue or of a job that could not be created. *)
Definition quiet (e : UiEffect) : bool :=
  match e with
  | ThreadStart _ _ _ => false
  | MessageBox kind _ _ =>
      negb (orb (String.eqb kind "information") (String.eqb kind "critical"))
  | _ => true
  end.

End Observations.

(** ** Sample outputs of the probed programs *)

Module Samples.

Import HardwareDetector.

(** Lines of [ffmpeg -encoders] on a machine with NVENC and QSV. *)
Definition encoders_stdout : string :=
  " V....D h264_nvenc           NVIDIA NVENC H.264 encoder (codec h264)" ++
  JobExecutor.nl ++
  " V....D hevc_nvenc           NVIDIA NVENC hevc encoder (codec hevc)" ++
  JobExecutor.nl ++
  " V..... h264_qsv             H.264 (Intel Quick Sync Video)" ++
  JobExecutor.nl.

(** The detector of a machine whose best method is CUDA. *)
Definition cuda_detector : t :=
  mk "ffmpeg" ["cuda"; "d3d11va"]
     (HardwareProbe._detect_encoders encoders_stdout)
     (Some "NVIDIA GeForce RTX 3060") CUDA.

(** A job that sets none of the further options. *)
Definition no_options : CommandSynthesis.Options :=
  CommandSynthesis.mkOptions None None None None false None
    ConversionWorker.PyNone ConversionWorker.PyNone ConversionWorker.PyNone
    ConversionWorker.PyNone ConversionWorker.PyNone false None None None
    CommandSynthesis.Absent ConversionWorker.PyNone CommandSynthesis.Absent []
    ConversionWorker.PyNone ConversionWorker.PyNone ConversionWorker.PyNone
    false None ConversionWorker.PyNone ConversionWorker.PyNone [].

(** A job that asks for VP9 video and copied audio. *)
Definition vp9_copy_config : ConversionWorker.JobConfig :=
  CommandSynthesis.set_codecs Scenario.film_config "vp9" "copy".

(** A job that asks for VP9 video and Opus audio. *)
Definition vp9_opus_config : ConversionWorker.JobConfig :=
  CommandSynthesis.set_codecs Scenario.film_config "vp9" "opus".

End Samples.

(** * Properties *)

(** ** Codec fallback *)

Section Fallback.

Import FormatCompatibility.

Lemma in_list_In (x : string) (l : list string) :
  PyStr.in_list x l = true <-> In x l.
Proof.
  unfold PyStr.in_list. rewrite existsb_exists. split.
  - intros [y [Hy Heq]]. apply String.eqb_eq in Heq. now subst.
  - intros H. exists x. split; [assumption | apply String.eqb_refl].
Qed.

Lemma truthy_hd {A} (d : A) (l : list A) : truthy l = true -> In (hd d l) l.
Proof. destruct l; simpl; [discriminate | auto]. Qed.

Lemma truthy_false {A} (l : list A) : truthy l = false -> l = [].
Proof. destruct l; simpl; [reflexivity | discriminate]. Qed.

(** One component of the fallback: the request if the container allows
    it, the first allowed codec if it does not, the request again when the
    container allows nothing at all. *)
Lemma fallback_component (req : string) (allowed : list string) :
  let chosen := if andb (negb (PyStr.in_list req allowed)) (truthy allowed)
                then hd req allowed else req in
  In chosen allowed \/ (allowed = [] /\ chosen = req).
Proof.
  simpl. destruct (PyStr.in_list req allowed) eqn:Hin; simpl.
  - left. now apply in_list_In.
  - destruct (truthy allowed) eqn:Ht.
    + left. now apply truthy_hd.
    + right. split; [now apply truthy_false | reflexivity].
Qed.

(** For an unknown container the function returns the literal pair
    [("libx264", "aac")], whatever was requested. *)
Lemma get_fallback_codec_unknown (C v a : string) :
  get_format_info C = None ->
  get_fallback_codec C v a = ("libx264", "aac").
Proof.
  unfold get_format_info, get_fallback_codec. now intros ->.
Qed.

(** C1, as amended.  For a known container each codec of the returned pair
    is a member of the container's allowed list, unless that list is empty
    (the audio-only containers allow no video codec), in which case the
    requested codec comes back unchanged.  For an unknown container the
    returned pair is a fixed default: its audio codec is [aac] and its
    video entry is a name of H.264, one that [_normalize_video_codec] maps
    to [h264]. *)
Theorem get_fallback_codec_member (C v a : string) :
  match get_format_info C with
  | Some fmt =>
      (In (fst (get_fallback_codec C v a)) (supported_video_codecs fmt) \/
       (supported_video_codecs fmt = [] /\
        fst (get_fallback_codec C v a) = v)) /\
      (In (snd (get_fallback_codec C v a)) (supported_audio_codecs fmt) \/
       (supported_audio_codecs fmt = [] /\
        snd (get_fallback_codec C v a) = a))
  | None =>
      ConversionWorker._normalize_video_codec
        (Some (fst (get_fallback_codec C v a))) = "h264" /\
      snd (get_fallback_codec C v a) = "aac"
  end.
Proof.
  destruct (get_format_info C) as [fmt|] eqn:E.
  - unfold get_format_info in E. unfold get_fallback_codec. rewrite E.
    split; cbn [fst snd]; apply fallback_component.
  - rewrite (get_fallback_codec_unknown C v a E). split; reflexivity.
Qed.

(** C1 as stated fails twice: an unknown container yields the encoder name
    [libx264], not the codec [h264]; and for the audio-only container
    [mp3] the returned video codec is the request, which the container
    does not allow. *)
Lemma get_fallback_codec_not_member :
  get_format_info "ts" = None /\
  get_fallback_codec "ts" "vp9" "opus" <> ("h264", "aac") /\
  exists fmt,
    get_format_info "mp3" = Some fmt /\
    get_fallback_codec "mp3" "vp9" "opus" = ("vp9", "mp3") /\
    ~ In (fst (get_fallback_codec "mp3" "vp9" "opus"))
         (supported_video_codecs fmt).
Proof.
  split; [reflexivity|]. split; [discriminate|].
  eexists. split; [reflexivity|]. split; [reflexivity|].
  simpl. tauto.
Qed.

(** Scenario A: [mp4] with the request [vp9]/[opus] resolves to the first
    allowed pair. *)
Example fallback_mp4_vp9_opus :
  get_fallback_codec "mp4" "vp9" "opus" = ("h264", "aac").
Proof. reflexivity. Qed.

(** Every container of the table that carries video allows at least one
    video codec, and every container allows at least one audio codec. *)
Lemma formats_nonempty_lists :
  forallb (fun kv =>
             andb (orb (String.eqb (type (snd kv)) "audio")
                       (truthy (supported_video_codecs (snd kv))))
                  (truthy (supported_audio_codecs (snd kv))))
          formats = true.
Proof. reflexivity. Qed.

End Fallback.


(** ** Rounding to binary64

    The operations of [SpecFloat] return the exact result rounded half to
    even, an infinity standing for what lies beyond the largest float;
    hence they are monotone. *)

Section Rounding.

Import Floats.SpecFloat Floats.FloatOps Floats.FloatAxioms.
Import Binary64.

Lemma bpow_pos e : (0 < bpow e)%Q.
Proof. apply Qpower_0_lt. reflexivity. Qed.

Lemma bpow_plus a b : (bpow (a + b) == bpow a * bpow b)%Q.
Proof. apply Qpower_plus. discriminate. Qed.

Lemma bpow_1 : (bpow 1 == 2)%Q.
Proof. reflexivity. Qed.

Lemma bpow_succ e : (bpow (e + 1) == 2 * bpow e)%Q.
Proof. rewrite bpow_plus, bpow_1. ring. Qed.

Lemma bpow_le a b : a <= b -> (bpow a <= bpow b)%Q.
Proof.
  intros H. replace b with (a + (b - a)) by lia. rewrite bpow_plus.
  assert (H1 : (1 <= bpow (b - a))%Q).
  { unfold bpow. apply Qpower_1_le; [discriminate | lia]. }
  pose proof (bpow_pos a). nra.
Qed.

Lemma bpow_Z n : 0 <= n -> (bpow n == inject_Z (2 ^ n))%Q.
Proof. intros H. unfold bpow. now rewrite Zpower_Qpower. Qed.

(** The number of binary digits of a positive integer. *)
Lemma digits2_size p : digits2_pos p = Pos.size p.
Proof. induction p; cbn; congruence. Qed.

Lemma digits_bounds p :
  2 ^ (Z.pos (digits2_pos p) - 1) <= Z.pos p < 2 ^ Z.pos (digits2_pos p).
Proof.
  rewrite digits2_size. split.
  - pose proof (Pos.size_le p) as H.
    assert (H2 : 2 ^ Z.pos (Pos.size p) <= 2 * Z.pos p).
    { rewrite <- Pos2Z.inj_pow. change (2 * Z.pos p) with (Z.pos p~0). lia. }
    replace (Z.pos (Pos.size p)) with (Z.pos (Pos.size p) - 1 + 1) in H2 by lia.
    rewrite Z.pow_add_r in H2 by lia. lia.
  - pose proof (Pos.size_gt p) as H. rewrite <- Pos2Z.inj_pow. lia.
Qed.

(** Locations. *)
Lemma located_ext y y' m l : (y == y')%Q -> located y m l -> located y' m l.
Proof. intros E. destruct l as [|[]]; cbn; rewrite E; auto. Qed.

Lemma located_bounds y m l :
  located y m l -> (inject_Z m <= y /\ y < inject_Z m + 1)%Q.
Proof. destruct l as [|[]]; cbn; intros; lra. Qed.

Lemma loc_of_record m l :
  loc_of_shr_record (shr_record_of_loc m l) = l /\
  shr_m (shr_record_of_loc m l) = m.
Proof. destruct l as [|[]]; split; reflexivity. Qed.

Lemma inject_xO p : (inject_Z (Z.pos p~0) == 2 * inject_Z (Z.pos p))%Q.
Proof. rewrite Pos2Z.inj_xO, inject_Z_mult. reflexivity. Qed.

Lemma inject_xI p : (inject_Z (Z.pos p~1) == 2 * inject_Z (Z.pos p) + 1)%Q.
Proof. rewrite Pos2Z.inj_xI, inject_Z_plus, inject_Z_mult. reflexivity. Qed.

(** Shifting a mantissa right by one digit halves the number it locates. *)
Lemma shr_1_located r y :
  0 <= shr_m r ->
  located y (shr_m r) (loc_of_shr_record r) ->
  located (y * (1 # 2)) (shr_m (shr_1 r)) (loc_of_shr_record (shr_1 r)) /\
  0 <= shr_m (shr_1 r).
Proof.
  destruct r as [m rb sb]. cbn [shr_m]. intros Hm.
  destruct m as [|[p|p|]|p]; try lia;
    destruct rb, sb; cbn [located shr_1 shr_m shr_r shr_s loc_of_shr_record orb];
    rewrite ?inject_xO, ?inject_xI; intros H; (split; [|lia]);
    change (inject_Z 0) with 0%Q in *; change (inject_Z 1) with 1%Q in *; lra.
Qed.

Lemma iter_shr_located n :
  forall r y,
    0 <= shr_m r ->
    located y (shr_m r) (loc_of_shr_record r) ->
    located (y / bpow (Z.pos n)) (shr_m (iter_pos shr_1 n r))
            (loc_of_shr_record (iter_pos shr_1 n r)) /\
    0 <= shr_m (iter_pos shr_1 n r).
Proof.
  induction n as [n IH|n IH|]; intros r y Hm H; cbn [iter_pos].
  - destruct (shr_1_located r y Hm H) as [H1 Hm1].
    destruct (IH _ _ Hm1 H1) as [H2 Hm2].
    destruct (IH _ _ Hm2 H2) as [H3 Hm3].
    split; [|assumption]. eapply located_ext; [|exact H3].
    rewrite Pos2Z.inj_xI. rewrite bpow_plus, bpow_1.
    replace (2 * Z.pos n) with (Z.pos n + Z.pos n) by lia.
    rewrite bpow_plus. pose proof (bpow_pos (Z.pos n)). field. lra.
  - destruct (IH _ _ Hm H) as [H2 Hm2].
    destruct (IH _ _ Hm2 H2) as [H3 Hm3].
    split; [|assumption]. eapply located_ext; [|exact H3].
    rewrite Pos2Z.inj_xO.
    replace (2 * Z.pos n) with (Z.pos n + Z.pos n) by lia.
    rewrite bpow_plus. pose proof (bpow_pos (Z.pos n)). field. lra.
  - destruct (shr_1_located r y Hm H) as [H1 Hm1].
    split; [|assumption]. eapply located_ext; [|exact H1].
    rewrite bpow_1. field.
Qed.

Lemma fexp_eq e : fexp prec emax e = Z.max (e - 53) (-1074).
Proof. reflexivity. Qed.

Lemma Zdigits2_nonneg m : 0 <= Zdigits2 m.
Proof. destruct m; cbn; lia. Qed.

Lemma Zdigits2_bounds m :
  0 < m -> 2 ^ (Zdigits2 m - 1) <= m < 2 ^ Zdigits2 m.
Proof. destruct m as [|p|p]; try lia. intros _. apply digits_bounds. Qed.

Lemma Zdigits2_pos m : 0 < m -> 0 < Zdigits2 m.
Proof. destruct m; cbn; lia. Qed.

Lemma inject_pow n : 0 <= n -> (inject_Z (2 ^ n) == bpow n)%Q.
Proof. intros. symmetry. now apply bpow_Z. Qed.

Lemma bpow_minus a b : (bpow a / bpow b == bpow (a - b))%Q.
Proof.
  replace a with ((a - b) + b) at 1 by lia. rewrite bpow_plus.
  pose proof (bpow_pos b). field. lra.
Qed.

(** [shr_fexp] brings a located number to the exponent of the format: the
    mantissa fits 53 bits and, above the least exponent, fills them. *)
Lemma shr_fexp_spec (m e : Z) (l : location) (x : Q) r' e' :
  0 <= m -> located (x / bpow e) m l ->
  e <= fexp prec emax (Zdigits2 m + e) ->
  shr_fexp prec emax m e l = (r', e') ->
  0 <= shr_m r' /\
  located (x / bpow e') (shr_m r') (loc_of_shr_record r') /\
  -1074 <= e' /\ shr_m r' < 2 ^ 53 /\ (-1074 < e' -> 2 ^ 52 <= shr_m r').
Proof.
  intros Hm Hloc Hpre. unfold shr_fexp, shr. rewrite fexp_eq in *.
  pose proof (Zdigits2_nonneg m) as Hd0.
  destruct (loc_of_record m l) as [Hl Hmm].
  destruct (Z.max (Zdigits2 m + e - 53) (-1074) - e) as [|p|p] eqn:En;
    intros E; injection E as <- <-; [| |lia].
  - rewrite Hl, Hmm. split; [assumption|]. split; [assumption|].
    destruct (Z.eq_dec m 0) as [->|Hne].
    + cbn in *. lia.
    + pose proof (Zdigits2_bounds m ltac:(lia)) as [Hlo Hhi].
      assert (Hd : Zdigits2 m <= 53) by lia.
      split; [lia|]. split.
      * pose proof (Z.pow_le_mono_r 2 (Zdigits2 m) 53 ltac:(lia) Hd). lia.
      * intros He. assert (Zdigits2 m = 53) by lia.
        replace (Zdigits2 m - 1) with 52 in Hlo by lia. exact Hlo.
  - set (r0 := shr_record_of_loc m l) in *.
    assert (Hr0 : 0 <= shr_m r0) by (rewrite Hmm; assumption).
    assert (Hloc0 : located (x / bpow e) (shr_m r0) (loc_of_shr_record r0))
      by (rewrite Hl, Hmm; assumption).
    destruct (iter_shr_located p r0 _ Hr0 Hloc0) as [H1 Hm1].
    set (m' := shr_m (iter_pos shr_1 p r0)) in *.
    assert (Hloc' : located (x / bpow (e + Z.pos p)) m'
                      (loc_of_shr_record (iter_pos shr_1 p r0))).
    { eapply located_ext; [|exact H1]. rewrite bpow_plus.
      pose proof (bpow_pos e). pose proof (bpow_pos (Z.pos p)).
      field. lra. }
    split; [assumption|]. split; [assumption|].
    split; [lia|].
    apply located_bounds in Hloc as [Hy1 Hy2].
    apply located_bounds in H1 as [Hy1' Hy2'].
    set (y := (x / bpow e)%Q) in *.
    pose proof (bpow_pos (Z.pos p)) as Hbp.
    destruct (Z.eq_dec m 0) as [->|Hne].
    + cbn in En. change (inject_Z 0) with 0%Q in *.
      assert (Hy' : (y / bpow (Z.pos p) < 1)%Q).
      { assert (1 <= bpow (Z.pos p))%Q.
        { change 1%Q with (bpow 0). apply bpow_le. lia. }
        apply Qlt_shift_div_r; [assumption|]. lra. }
      assert (Hm'1 : m' < 1).
      { rewrite Zlt_Qlt. change (inject_Z 1) with 1%Q. lra. }
      split; [lia|]. intros He. lia.
    + pose proof (Zdigits2_bounds m ltac:(lia)) as [Hlo Hhi].
      set (d := Zdigits2 m) in *.
      pose proof (Zdigits2_pos m ltac:(lia)) as Hdpos. fold d in Hdpos.
      pose proof (inject_pow d ltac:(lia)) as Ed.
      pose proof (inject_pow (d - 1) ltac:(lia)) as Ed1.
      pose proof (inject_pow 53 ltac:(lia)) as E53.
      pose proof (inject_pow 52 ltac:(lia)) as E52.
      assert (Hyd : (y < bpow d)%Q).
      { assert (inject_Z m + 1 <= inject_Z (2 ^ d))%Q.
        { change 1%Q with (inject_Z 1). rewrite <- inject_Z_plus.
          rewrite <- Zle_Qle. lia. }
        lra. }
      assert (Hyd' : (bpow (d - 1) <= y)%Q).
      { assert (inject_Z (2 ^ (d - 1)) <= inject_Z m)%Q
          by (rewrite <- Zle_Qle; lia).
        lra. }
      split.
      * assert (Hlt : (y / bpow (Z.pos p) < bpow 53)%Q).
        { apply Qlt_shift_div_r; [assumption|].
          pose proof (bpow_plus 53 (Z.pos p)) as Epl.
          pose proof (bpow_le d (53 + Z.pos p) ltac:(lia)). lra. }
        rewrite Zlt_Qlt. lra.
      * intros He.
        assert (Hp : Z.pos p = d - 53) by lia.
        assert (Hge : (bpow 52 <= y / bpow (Z.pos p))%Q).
        { apply Qle_shift_div_l; [assumption|].
          pose proof (bpow_plus 52 (Z.pos p)) as Epl.
          replace (52 + Z.pos p) with (d - 1) in Epl by lia. lra. }
        assert (Hlt : (inject_Z (2 ^ 52) < inject_Z (m' + 1))%Q).
        { rewrite inject_Z_plus.
          change (inject_Z 1) with 1%Q. lra. }
        rewrite <- Zlt_Qlt in Hlt. lia.
Qed.

(** Rounding half to even. *)
Lemma rne_bounds m l : m <= round_nearest_even m l <= m + 1.
Proof. destruct l as [|[]]; cbn; try destruct (Z.even m); lia. Qed.

Lemma rne_mono y1 y2 m l1 l2 :
  located y1 m l1 -> located y2 m l2 -> (y1 <= y2)%Q ->
  round_nearest_even m l1 <= round_nearest_even m l2.
Proof.
  destruct l1 as [|[]], l2 as [|[]]; cbn; intros H1 H2 H;
    try destruct (Z.even m); try lia; exfalso; lra.
Qed.

Lemma Qdiv_mul x b : (0 < b)%Q -> (x == x / b * b)%Q.
Proof. intros. field. lra. Qed.

(** Rounding is monotone. *)
Lemma roundedpos_mono x1 x2 v1 v2 :
  (x1 <= x2)%Q -> roundedpos x1 v1 -> roundedpos x2 v2 -> (v1 <= v2)%Q.
Proof.
  intros Hx (m1 & l1 & e1 & Hm1 & Hl1 & He1 & Hb1 & Hn1 & Hv1)
            (m2 & l2 & e2 & Hm2 & Hl2 & He2 & Hb2 & Hn2 & Hv2).
  pose proof (bpow_pos e1) as HB1. pose proof (bpow_pos e2) as HB2.
  pose proof (located_bounds _ _ _ Hl1) as [Hy1 Hy1'].
  pose proof (located_bounds _ _ _ Hl2) as [Hy2 Hy2'].
  pose proof (Qdiv_mul x1 _ HB1) as Ex1.
  pose proof (Qdiv_mul x2 _ HB2) as Ex2.
  pose proof (rne_bounds m1 l1) as [Hr1 Hr1'].
  pose proof (rne_bounds m2 l2) as [Hr2 Hr2'].
  set (y1 := (x1 / bpow e1)%Q) in *. set (y2 := (x2 / bpow e2)%Q) in *.
  set (r1 := round_nearest_even m1 l1) in *.
  set (r2 := round_nearest_even m2 l2) in *.
  rewrite Hv1, Hv2.
  pose proof (inject_pow 53 ltac:(lia)) as E53.
  pose proof (inject_pow 52 ltac:(lia)) as E52.
  assert (E5253 : (bpow 53 == 2 * bpow 52)%Q) by (apply (bpow_succ 52)).
  assert (Ir1 : (inject_Z r1 <= inject_Z m1 + 1)%Q).
  { change 1%Q with (inject_Z 1). rewrite <- inject_Z_plus, <- Zle_Qle. lia. }
  assert (Ir2 : (inject_Z m2 <= inject_Z r2)%Q) by (rewrite <- Zle_Qle; lia).
  assert (Ib1 : (inject_Z m1 + 1 <= bpow 53)%Q).
  { rewrite <- E53. change 1%Q with (inject_Z 1).
    rewrite <- inject_Z_plus, <- Zle_Qle. lia. }
  assert (Ib2 : (inject_Z m2 + 1 <= bpow 53)%Q).
  { rewrite <- E53. change 1%Q with (inject_Z 1).
    rewrite <- inject_Z_plus, <- Zle_Qle. lia. }
  assert (I0 : (0 <= inject_Z m1)%Q).
  { change 0%Q with (inject_Z 0). rewrite <- Zle_Qle. lia. }
  assert (I0' : (0 <= inject_Z m2)%Q).
  { change 0%Q with (inject_Z 0). rewrite <- Zle_Qle. lia. }
  pose proof (bpow_pos 52) as HB52.
  destruct (Z.lt_trichotomy e1 e2) as [Hlt|[Heq|Hgt]].
  - (* e1 < e2 *)
    pose proof (bpow_le (e1 + 1) e2 ltac:(lia)) as HBB.
    rewrite bpow_succ in HBB.
    assert (In2 : (bpow 52 <= inject_Z m2)%Q).
    { rewrite <- E52, <- Zle_Qle. apply Hn2. lia. }
    apply Qle_trans with (y := (bpow 53 * bpow e1)%Q).
    + apply Qmult_le_compat_r; lra.
    + apply Qle_trans with (y := (bpow 52 * bpow e2)%Q).
      * rewrite E5253. nra.
      * apply Qmult_le_compat_r; lra.
  - (* e1 = e2 *)
    subst e2. assert (Hy : (y1 <= y2)%Q).
    { unfold y1, y2. apply Qmult_le_compat_r with (z := (/ bpow e1)%Q) in Hx.
      - exact Hx.
      - apply Qinv_le_0_compat. lra. }
    apply Qmult_le_compat_r; [|lra]. rewrite <- Zle_Qle.
    destruct (Z.lt_trichotomy m1 m2) as [Hm|[Hm|Hm]].
    + lia.
    + subst m2. eapply rne_mono; eauto.
    + exfalso.
      assert (inject_Z m2 + 1 <= inject_Z m1)%Q.
      { change 1%Q with (inject_Z 1).
        rewrite <- inject_Z_plus, <- Zle_Qle. lia. }
      lra.
  - (* e2 < e1 *)
    exfalso.
    pose proof (bpow_le (e2 + 1) e1 ltac:(lia)) as HBB.
    rewrite bpow_succ in HBB.
    assert (In1 : (bpow 52 <= inject_Z m1)%Q).
    { rewrite <- E52, <- Zle_Qle. apply Hn1. lia. }
    assert (H1 : (bpow 52 * bpow e1 <= x1)%Q).
    { rewrite Ex1. apply Qmult_le_compat_r; lra. }
    assert (H2 : (x2 < bpow 53 * bpow e2)%Q).
    { rewrite Ex2. apply Qlt_le_trans with (y := ((inject_Z m2 + 1) * bpow e2)%Q).
      - apply Qmult_lt_compat_r; lra.
      - apply Qmult_le_compat_r; lra. }
    rewrite E5253 in H2. nra.
Qed.

Lemma Qmin_l_eq x y : (x <= y)%Q -> (Qmin x y == x)%Q.
Proof. intros. apply Q.min_l. assumption. Qed.

Lemma Qmin_r_eq x y : (y <= x)%Q -> (Qmin x y == y)%Q.
Proof. intros. apply Q.min_r. assumption. Qed.

Lemma signed_ext s a b : (a == b)%Q -> (signed s a == signed s b)%Q.
Proof. intros E. destruct s; cbn; rewrite E; reflexivity. Qed.

Lemma signed_Qmin_l s v : (v <= top)%Q -> (signed s v == signed s (Qmin v top))%Q.
Proof. intros H. apply signed_ext. symmetry. now apply Qmin_l_eq. Qed.

Lemma signed_Qmin_r s v : (top <= v)%Q -> (signed s top == signed s (Qmin v top))%Q.
Proof. intros H. apply signed_ext. symmetry. now apply Qmin_r_eq. Qed.

Lemma SF2Q_finite s p e :
  (SF2Q (S754_finite s p e) == signed s (inject_Z (Z.pos p) * bpow e))%Q.
Proof. destruct s; reflexivity. Qed.

(** [binary_round_aux] rounds, and overflows to an infinity. *)
Lemma bra_spec s m e l x :
  0 <= m -> located (x / bpow e) m l ->
  e <= fexp prec emax (Zdigits2 m + e) ->
  exists v,
    roundedpos x v /\
    binary_round_aux prec emax s m e l <> S754_nan /\
    (SF2Q (binary_round_aux prec emax s m e l) == signed s (Qmin v top))%Q.
Proof.
  intros Hm Hloc Hpre. unfold binary_round_aux.
  destruct (shr_fexp prec emax m e l) as [r' e'] eqn:E1.
  destruct (shr_fexp_spec m e l x r' e' Hm Hloc Hpre E1)
    as (Hm' & Hloc' & He' & Hb' & Hn').
  set (m' := shr_m r') in *. set (l' := loc_of_shr_record r') in *.
  set (mr := round_nearest_even m' l').
  exists (inject_Z mr * bpow e')%Q.
  split.
  { exists m', l', e'. repeat split; assumption. }
  pose proof (rne_bounds m' l') as [Hr Hr']. fold mr in Hr, Hr'.
  pose proof (bpow_pos e') as HB.
  pose proof (inject_pow 53 ltac:(lia)) as E53.
  pose proof (inject_pow 52 ltac:(lia)) as E52.
  assert (Hcase : mr = 2 ^ 53 \/ mr < 2 ^ 53) by lia.
  unfold shr_fexp, shr. rewrite fexp_eq.
  destruct Hcase as [Hmr|Hmr].
  - rewrite Hmr. change (Zdigits2 (2 ^ 53)) with 54.
    replace (Z.max (54 + e' - 53) (-1074) - e') with 1 by lia.
    change (2 ^ 53) with 9007199254740992.
    cbn [shr_record_of_loc iter_pos shr_1 shr_m orb].
    pose proof (bpow_plus 52 (e' + 1)) as Ea.
    pose proof (bpow_plus 53 e') as Eb.
    replace (52 + (e' + 1)) with (53 + e') in Ea by lia.
    change 9007199254740992 with (2 ^ 53).
    assert (Ev : (inject_Z (Z.pos 4503599627370496) * bpow (e' + 1)
                  == inject_Z (2 ^ 53) * bpow e')%Q).
    { change (Z.pos 4503599627370496) with (2 ^ 52).
      rewrite E52, E53, <- Ea, <- Eb. reflexivity. }
    assert (Ev' : (inject_Z (2 ^ 53) * bpow e' == bpow (53 + e'))%Q)
      by (rewrite E53, <- Eb; reflexivity).
    destruct (Z.leb_spec (e' + 1) (emax - prec)) as [Hle|Hgt];
      change (emax - prec) with 971 in *.
    + split; [discriminate|].
      pose proof (bpow_le (53 + e') 1024 ltac:(lia)) as Ht.
      eapply Qeq_trans; [apply SF2Q_finite|]. apply signed_ext.
      rewrite Ev. symmetry. apply Qmin_l_eq. rewrite Ev'. exact Ht.
    + split; [discriminate|].
      pose proof (bpow_le 1024 (53 + e') ltac:(lia)) as Ht.
      apply (signed_ext s top). symmetry. apply Qmin_r_eq.
      rewrite Ev'. exact Ht.
  - assert (Hsh : Z.max (Zdigits2 mr + e' - 53) (-1074) - e' <= 0).
    { destruct (Z.eq_dec mr 0) as [->|Hne]; [cbn; lia|].
      pose proof (Zdigits2_bounds mr ltac:(lia)) as [Hlo Hhi].
      assert (Zdigits2 mr - 1 < 53).
      { apply (Z.pow_lt_mono_r_iff 2); lia. }
      lia. }
    assert (Hres : (let '(mrs'', e'') :=
              match Z.max (Zdigits2 mr + e' - 53) (-1074) - e' with
              | Z.pos p =>
                  (iter_pos shr_1 p (shr_record_of_loc mr loc_Exact),
                   e' + (Z.max (Zdigits2 mr + e' - 53) (-1074) - e'))
              | _ => (shr_record_of_loc mr loc_Exact, e')
              end in (shr_m mrs'', e'')) = (mr, e')).
    { destruct (Z.max (Zdigits2 mr + e' - 53) (-1074) - e'); try lia;
        reflexivity. }
    destruct (match Z.max (Zdigits2 mr + e' - 53) (-1074) - e' with
              | Z.pos p => _ | _ => _ end) as [mrs'' e''].
    injection Hres as Hm'' ->. rewrite Hm''.
    destruct mr as [|p|p] eqn:Emr; [| |lia].
    + split; [discriminate|].
      apply Qeq_trans with (y := signed s 0%Q); [destruct s; reflexivity|].
      apply signed_ext. symmetry.
      change (inject_Z 0) with 0%Q.
      assert (E0 : (0 * bpow e' == 0)%Q) by ring.
      rewrite E0. apply Qmin_l_eq. pose proof (bpow_pos 1024).
      unfold top. lra.
    + assert (Ip : (inject_Z (Z.pos p) < bpow 53)%Q).
      { rewrite <- E53, <- Zlt_Qlt. lia. }
      assert (Ip0 : (0 < inject_Z (Z.pos p))%Q).
      { change 0%Q with (inject_Z 0). rewrite <- Zlt_Qlt. lia. }
      destruct (Z.leb_spec e' (emax - prec)) as [Hle|Hgt];
        change (emax - prec) with 971 in *.
      * split; [discriminate|].
        pose proof (bpow_le e' 971 Hle) as Ht.
        pose proof (bpow_plus 53 971) as Et.
        change (53 + 971) with 1024 in Et.
        pose proof (bpow_pos 53).
        eapply Qeq_trans; [apply SF2Q_finite|]. apply signed_ext.
        symmetry. apply Qmin_l_eq.
        unfold top. rewrite Et.
        apply Qle_trans with (y := (bpow 53 * bpow e')%Q).
        -- apply Qmult_le_compat_r; lra.
        -- nra.
      * split; [discriminate|].
        pose proof (bpow_le 972 e' ltac:(lia)) as Ht.
        pose proof (bpow_plus 52 972) as Et.
        change (52 + 972) with 1024 in Et.
        pose proof (bpow_pos 52). pose proof (bpow_pos 972).
        assert (In : (bpow 52 <= inject_Z (Z.pos p))%Q).
        { rewrite <- E52, <- Zle_Qle. lia. }
        apply (signed_ext s top). symmetry. apply Qmin_r_eq.
        unfold top. rewrite Et.
        apply Qle_trans with (y := (bpow 52 * bpow e')%Q).
        -- nra.
        -- apply Qmult_le_compat_r; lra.
Qed.

Lemma top_pos : (0 < top)%Q.
Proof. apply bpow_pos. Qed.

Lemma roundedpos_ext x x' v v' :
  (x == x')%Q -> (v == v')%Q -> roundedpos x v -> roundedpos x' v'.
Proof.
  intros Ex Ev (m & l & e & H1 & H2 & H3 & H4 & H5 & H6).
  exists m, l, e. repeat split; try assumption.
  - eapply located_ext; [|exact H2]. rewrite Ex. reflexivity.
  - rewrite <- Ev. exact H6.
Qed.

Lemma roundedpos_nonneg x v : roundedpos x v -> (0 <= v)%Q.
Proof.
  intros (m & l & e & H1 & H2 & H3 & H4 & H5 & H6).
  pose proof (rne_bounds m l) as [Hr _]. pose proof (bpow_pos e).
  rewrite H6. apply Qmult_le_0_compat; [|lra].
  change 0%Q with (inject_Z 0). rewrite <- Zle_Qle. lia.
Qed.

Lemma roundedpos_zero : roundedpos 0 0.
Proof.
  exists 0, loc_Exact, (-1074). repeat split; lia.
Qed.

Lemma roundedpos_zero_inv v : roundedpos 0 v -> (v == 0)%Q.
Proof.
  intros H. pose proof (roundedpos_nonneg _ _ H).
  pose proof (roundedpos_mono 0 0 v 0 ltac:(lra) H roundedpos_zero). lra.
Qed.

Lemma rounded_mono z1 z2 v1 v2 :
  (z1 <= z2)%Q -> rounded z1 v1 -> rounded z2 v2 -> (v1 <= v2)%Q.
Proof.
  intros Hz [[H1 R1]|[H1 R1]] [[H2 R2]|[H2 R2]].
  - exact (roundedpos_mono _ _ _ _ Hz R1 R2).
  - assert (E1 : (z1 == 0)%Q) by lra. assert (E2 : (- z2 == 0)%Q) by lra.
    pose proof (roundedpos_zero_inv _ (roundedpos_ext _ _ _ _ E1 (Qeq_refl _) R1)).
    pose proof (roundedpos_zero_inv _ (roundedpos_ext _ _ _ _ E2 (Qeq_refl _) R2)).
    lra.
  - pose proof (roundedpos_nonneg _ _ R1).
    pose proof (roundedpos_nonneg _ _ R2). lra.
  - assert (Hz' : (- z2 <= - z1)%Q) by lra.
    pose proof (roundedpos_mono _ _ _ _ Hz' R2 R1). lra.
Qed.

Lemma rounded_ext z z' v v' :
  (z == z')%Q -> (v == v')%Q -> rounded z v -> rounded z' v'.
Proof.
  intros Ez Ev [[H R]|[H R]]; [left|right]; (split; [lra|]).
  - eapply roundedpos_ext; eauto.
  - eapply roundedpos_ext; [| |exact R]; lra.
Qed.

Lemma rounded_zero : rounded 0 0.
Proof. left. split; [lra | apply roundedpos_zero]. Qed.

Lemma clamp_mono v1 v2 : (v1 <= v2)%Q -> (clamp v1 <= clamp v2)%Q.
Proof.
  intros H. unfold clamp.
  apply Q.max_le_compat_l. apply Q.min_le_compat_r. exact H.
Qed.

Lemma clamp_bounds v : (- top <= clamp v /\ clamp v <= top)%Q.
Proof.
  unfold clamp. pose proof top_pos. split.
  - apply Q.le_max_l.
  - apply Q.max_lub; [lra | apply Q.le_min_r].
Qed.

Lemma clamp_id v : (- top <= v)%Q -> (v <= top)%Q -> (clamp v == v)%Q.
Proof.
  intros H1 H2. unfold clamp.
  rewrite (Q.min_l v top H2). apply Q.max_r. exact H1.
Qed.

Lemma signed_clamp s v :
  (0 <= v)%Q -> (signed s (Qmin v top) == clamp (signed s v))%Q.
Proof.
  intros Hv. pose proof top_pos. unfold clamp.
  destruct s; cbn [signed].
  - destruct (Q.min_spec v top) as [[Hlt E]|[Hle E]]; rewrite E.
    + rewrite (Q.min_l (- v) top) by lra.
      rewrite (Q.max_r (- top) (- v)) by lra. reflexivity.
    + rewrite (Q.min_l (- v) top) by lra.
      rewrite (Q.max_l (- top) (- v)) by lra. reflexivity.
  - rewrite (Q.max_r (- top) (Qmin v top)); [reflexivity|].
    destruct (Q.min_spec v top) as [[Hlt E]|[Hle E]]; rewrite E; lra.
Qed.

Lemma signed_rounded s x v :
  (0 <= x)%Q -> roundedpos x v -> rounded (signed s x) (signed s v).
Proof.
  intros Hx R. destruct s; cbn [signed].
  - right. split; [lra|]. eapply roundedpos_ext; [| |exact R]; ring.
  - left. split; assumption.
Qed.

(** The result of [binary_round_aux] as a rounding of the signed value. *)
Lemma bra_rounded s m e l x :
  0 <= m -> located (x / bpow e) m l ->
  e <= fexp prec emax (Zdigits2 m + e) ->
  exists v,
    rounded (signed s x) v /\
    binary_round_aux prec emax s m e l <> S754_nan /\
    (SF2Q (binary_round_aux prec emax s m e l) == clamp v)%Q.
Proof.
  intros Hm Hloc Hpre.
  destruct (bra_spec s m e l x Hm Hloc Hpre) as (v & R & Hn & E).
  exists (signed s v). split; [|split; [assumption|]].
  - apply signed_rounded; [|assumption].
    apply located_bounds in Hloc as [Hy _]. pose proof (bpow_pos e).
    rewrite (Qdiv_mul x (bpow e)) by assumption.
    apply Qmult_le_0_compat; [|lra].
    assert (0 <= inject_Z m)%Q.
    { change 0%Q with (inject_Z 0). rewrite <- Zle_Qle. lia. }
    lra.
  - rewrite E. apply signed_clamp. eapply roundedpos_nonneg; eauto.
Qed.

(** Valid finite numbers. *)
(** The finite floats. *)
Lemma valid_finite s m e :
  valid_binary (S754_finite s m e) = true ->
  -1074 <= e <= 971 /\ Z.pos m < 2 ^ 53 /\
  (-1074 < e -> 2 ^ 52 <= Z.pos m) /\
  e = Z.max (Z.pos (digits2_pos m) + e - 53) (-1074).
Proof.
  unfold valid_binary, bounded, canonical_mantissa. rewrite fexp_eq.
  intros H. apply andb_prop in H as [H1 H2].
  apply Z.eqb_eq in H1. apply Z.leb_le in H2.
  change (emax - prec) with 971 in H2.
  pose proof (digits_bounds m) as [Hlo Hhi].
  assert (Hd : Z.pos (digits2_pos m) <= 53) by lia.
  split; [lia|]. split; [|split; [|lia]].
  - pose proof (Z.pow_le_mono_r 2 _ 53 ltac:(lia) Hd). lia.
  - intros He. assert (Ed : Z.pos (digits2_pos m) = 53) by lia.
    rewrite Ed in Hlo. exact Hlo.
Qed.

Lemma finite_pos_bounds m e :
  valid_binary (S754_finite false m e) = true ->
  (0 < inject_Z (Z.pos m) * bpow e /\ inject_Z (Z.pos m) * bpow e < top)%Q.
Proof.
  intros Hv. destruct (valid_finite _ _ _ Hv) as (He & Hm & _ & _).
  pose proof (bpow_pos e) as HB.
  assert (I0 : (0 < inject_Z (Z.pos m))%Q).
  { change 0%Q with (inject_Z 0). rewrite <- Zlt_Qlt. lia. }
  assert (I1 : (inject_Z (Z.pos m) < bpow 53)%Q).
  { rewrite <- (inject_pow 53) by lia. rewrite <- Zlt_Qlt. lia. }
  split; [nra|].
  pose proof (bpow_le e 971 ltac:(lia)) as Ht.
  pose proof (bpow_plus 53 971) as Et. change (53 + 971) with 1024 in Et.
  unfold top. rewrite Et. pose proof (bpow_pos 53).
  apply Qlt_le_trans with (y := (bpow 53 * bpow e)%Q).
  - apply Qmult_lt_compat_r; lra.
  - nra.
Qed.

Lemma fz_bounds x :
  valid_binary x = true -> fz x -> (- top < SF2Q x /\ SF2Q x < top)%Q.
Proof.
  pose proof top_pos.
  destruct x as [s|s| |s m e]; cbn [fz SF2Q]; intros Hv Hfz;
    try contradiction.
  - lra.
  - pose proof (finite_pos_bounds m e Hv) as [H1 H2].
    destruct s; lra.
Qed.

Lemma valid_bounds x :
  valid_binary x = true -> (- top <= SF2Q x /\ SF2Q x <= top)%Q.
Proof.
  pose proof top_pos. intros Hv.
  destruct x as [s|s| |s m e]; cbn [SF2Q]; try lra.
  - destruct s; lra.
  - pose proof (finite_pos_bounds m e Hv) as [H1 H2]. destruct s; lra.
Qed.

(** A valid finite number is its own rounding. *)
Lemma representable s m e :
  valid_binary (S754_finite s m e) = true ->
  rounded (SF2Q (S754_finite s m e)) (SF2Q (S754_finite s m e)) /\
  (clamp (SF2Q (S754_finite s m e)) == SF2Q (S754_finite s m e))%Q.
Proof.
  intros Hv. destruct (valid_finite _ _ _ Hv) as (He & Hm & Hn & _).
  pose proof (finite_pos_bounds m e Hv) as [H1 H2].
  pose proof (bpow_pos e) as HB. pose proof top_pos.
  split.
  - eapply rounded_ext; [symmetry; apply SF2Q_finite
                        | symmetry; apply SF2Q_finite|].
    apply signed_rounded; [lra|].
    exists (Z.pos m), loc_Exact, e. repeat split; try lia; try assumption.
    cbn [located]. field. lra.
  - apply clamp_id; cbn [SF2Q]; destruct s; lra.
Qed.

Lemma op_spec_ext z z' r : (z == z')%Q -> op_spec z r -> op_spec z' r.
Proof.
  intros E (v & R & Hn & Ev). exists v. split; [|split; assumption].
  eapply rounded_ext; [exact E | reflexivity | exact R].
Qed.

Lemma op_spec_zero z s : (z == 0)%Q -> op_spec z (S754_zero s).
Proof.
  intros E. exists 0%Q. split; [|split; [discriminate|]].
  - eapply rounded_ext; [symmetry; exact E | reflexivity | apply rounded_zero].
  - cbn [SF2Q]. symmetry. apply clamp_id; pose proof top_pos; lra.
Qed.

Lemma op_spec_representable z s m e :
  valid_binary (S754_finite s m e) = true ->
  (z == SF2Q (S754_finite s m e))%Q -> op_spec z (S754_finite s m e).
Proof.
  intros Hv E. destruct (representable s m e Hv) as [R C].
  exists (SF2Q (S754_finite s m e)). split; [|split; [discriminate|]].
  - eapply rounded_ext; [symmetry; exact E | reflexivity | exact R].
  - symmetry. exact C.
Qed.

Lemma bra_op_spec s m e l x :
  0 <= m -> located (x / bpow e) m l ->
  e <= fexp prec emax (Zdigits2 m + e) ->
  op_spec (signed s x) (binary_round_aux prec emax s m e l).
Proof. apply bra_rounded. Qed.

(** *** Multiplication *)

Lemma digits_mul (a b : positive) :
  Z.pos (digits2_pos a) + Z.pos (digits2_pos b) - 1
  <= Z.pos (digits2_pos (a * b)).
Proof.
  pose proof (digits_bounds a) as [Ha _].
  pose proof (digits_bounds b) as [Hb _].
  pose proof (digits_bounds (a * b)) as [_ Hab].
  set (da := Z.pos (digits2_pos a)) in *.
  set (db := Z.pos (digits2_pos b)) in *.
  set (dab := Z.pos (digits2_pos (a * b))) in *.
  assert (H : 2 ^ (da - 1 + (db - 1)) < 2 ^ dab).
  { rewrite Z.pow_add_r by lia. rewrite Pos2Z.inj_mul in Hab.
    assert (0 < 2 ^ (da - 1)) by (apply Z.pow_pos_nonneg; lia).
    assert (0 < 2 ^ (db - 1)) by (apply Z.pow_pos_nonneg; lia).
    nia. }
  apply Z.pow_lt_mono_r_iff in H; lia.
Qed.

Lemma signed_mul sx sy a b :
  (signed (xorb sx sy) (a * b) == signed sx a * signed sy b)%Q.
Proof. destruct sx, sy; cbn; ring. Qed.

(** The product of two finite floats is the rounded exact product. *)
Lemma SFmul_spec x y :
  valid_binary x = true -> valid_binary y = true -> fz x -> fz y ->
  op_spec (SF2Q x * SF2Q y) (SFmul prec emax x y).
Proof.
  intros Hx Hy Fx Fy.
  destruct x as [sx|sx| |sx mx ex]; try contradiction;
    destruct y as [sy|sy| |sy my ey]; try contradiction;
    cbn [SFmul]; try (apply op_spec_zero; cbn [SF2Q]; ring).
  destruct (valid_finite _ _ _ Hx) as (_ & _ & _ & Cx).
  destruct (valid_finite _ _ _ Hy) as (_ & _ & _ & Cy).
  pose proof (digits_mul mx my) as Hd.
  pose proof (bpow_pos (ex + ey)) as HB.
  eapply op_spec_ext;
    [|apply (bra_op_spec (xorb sx sy) (Z.pos (mx * my)) (ex + ey) loc_Exact
               (inject_Z (Z.pos (mx * my)) * bpow (ex + ey)))].
  - rewrite !SF2Q_finite. rewrite <- signed_mul. apply signed_ext.
    rewrite Pos2Z.inj_mul, inject_Z_mult, bpow_plus. ring.
  - lia.
  - cbn [located]. field. lra.
  - rewrite fexp_eq. cbn [Zdigits2].
    assert (0 < Z.pos (digits2_pos mx)) by lia.
    assert (0 < Z.pos (digits2_pos my)) by lia.
    lia.
Qed.

(** *** Alignment *)

Lemma iter_xO p d :
  Z.pos (Pos.iter xO p d) = Z.pos p * 2 ^ Z.pos d /\
  Z.pos (digits2_pos (Pos.iter xO p d)) = Z.pos (digits2_pos p) + Z.pos d.
Proof.
  induction d as [|d [IH1 IH2]] using Pos.peano_ind.
  - cbn. split; lia.
  - rewrite Pos.iter_succ. cbn [digits2_pos].
    rewrite Pos2Z.inj_xO, IH1, Pos2Z.inj_succ, Z.pow_succ_r by lia.
    split; lia.
Qed.

Lemma shl_align_spec mx ex e' mz ez :
  shl_align mx ex e' = (mz, ez) ->
  (inject_Z (Z.pos mz) * bpow ez == inject_Z (Z.pos mx) * bpow ex)%Q /\
  Z.pos (digits2_pos mz) + ez = Z.pos (digits2_pos mx) + ex /\
  ez = Z.min ex e'.
Proof.
  unfold shl_align. destruct (e' - ex) as [|d|d] eqn:E;
    intros H; injection H as <- <-.
  - split; [reflexivity|]. split; lia.
  - split; [reflexivity|]. split; lia.
  - destruct (iter_xO mx d) as [H1 H2]. rewrite H1, H2.
    split; [|split; lia].
    pose proof (bpow_plus (Z.pos d) e') as Ep.
    replace (Z.pos d + e') with ex in Ep by lia.
    pose proof (inject_pow (Z.pos d) ltac:(lia)) as Ed.
    rewrite inject_Z_mult, Ed, Ep. ring.
Qed.

Lemma binary_round_spec s p e :
  op_spec (signed s (inject_Z (Z.pos p) * bpow e))
          (binary_round prec emax s p e).
Proof.
  unfold binary_round.
  destruct (shl_align p e (fexp prec emax (Z.pos (digits2_pos p) + e)))
    as [mz ez] eqn:E.
  destruct (shl_align_spec _ _ _ _ _ E) as (Hv & Hd & He).
  pose proof (bpow_pos ez) as HB.
  apply bra_op_spec.
  - lia.
  - cbn [located]. rewrite <- Hv. field. lra.
  - cbn [Zdigits2]. rewrite Hd. lia.
Qed.

(** [binary_normalize] rounds [N * 2^e]. *)
Lemma binary_normalize_spec N e :
  op_spec (inject_Z N * bpow e) (binary_normalize prec emax N e false).
Proof.
  destruct N as [|p|p]; cbn [binary_normalize].
  - apply op_spec_zero. change (inject_Z 0) with 0%Q. ring.
  - apply (binary_round_spec false).
  - eapply op_spec_ext; [|apply (binary_round_spec true)].
    cbn [signed]. change (Z.neg p) with (- Z.pos p).
    rewrite inject_Z_opp. ring.
Qed.

Lemma cond_Zopp_signed s m B :
  (inject_Z (cond_Zopp s m) * B == signed s (inject_Z m * B))%Q.
Proof. destruct s; cbn; [rewrite inject_Z_opp; ring | reflexivity]. Qed.

(** The difference of two finite floats is the rounded exact difference. *)
Lemma SFsub_spec x y :
  valid_binary x = true -> valid_binary y = true -> fz x -> fz y ->
  op_spec (SF2Q x - SF2Q y) (SFsub prec emax x y).
Proof.
  intros Hx Hy Fx Fy.
  destruct x as [sx|sx| |sx mx ex]; try contradiction;
    destruct y as [sy|sy| |sy my ey]; try contradiction; cbn [SFsub].
  - destruct sx, sy; apply op_spec_zero; cbn [SF2Q]; ring.
  - apply op_spec_representable; [exact Hy|].
    cbn [SF2Q]. destruct sy; cbn [negb]; ring.
  - apply op_spec_representable; [exact Hx|]. cbn [SF2Q]. ring.
  - set (ez := Z.min ex ey).
    destruct (shl_align mx ex ez) as [ax ex'] eqn:Ex.
    destruct (shl_align my ey ez) as [ay ey'] eqn:Ey.
    destruct (shl_align_spec _ _ _ _ _ Ex) as (Hvx & _ & Hex).
    destruct (shl_align_spec _ _ _ _ _ Ey) as (Hvy & _ & Hey).
    assert (Eex : ex' = ez) by (unfold ez; lia).
    assert (Eey : ey' = ez) by (unfold ez; lia).
    rewrite Eex in Hvx. rewrite Eey in Hvy. cbn [fst].
    assert (Ax : (inject_Z (cond_Zopp sx (Z.pos ax)) * bpow ez
                  == SF2Q (S754_finite sx mx ex))%Q).
    { rewrite cond_Zopp_signed, SF2Q_finite. now apply signed_ext. }
    assert (Ay : (inject_Z (cond_Zopp sy (Z.pos ay)) * bpow ez
                  == SF2Q (S754_finite sy my ey))%Q).
    { rewrite cond_Zopp_signed, SF2Q_finite. now apply signed_ext. }
    eapply op_spec_ext; [|apply binary_normalize_spec].
    unfold Z.sub at 1. rewrite inject_Z_plus, inject_Z_opp.
    rewrite <- Ax, <- Ay. ring.
Qed.

Lemma new_location_located (M r q : Z) (Y : Q) :
  0 < M -> 0 <= r < M ->
  (Y == inject_Z q + inject_Z r / inject_Z M)%Q ->
  located Y q (new_location M r).
Proof.
  intros HM Hr EY.
  assert (IM : (0 < inject_Z M)%Q).
  { change 0%Q with (inject_Z 0). rewrite <- Zlt_Qlt. lia. }
  assert (IR : (0 <= inject_Z r)%Q).
  { change 0%Q with (inject_Z 0). rewrite <- Zle_Qle. lia. }
  assert (IRM : (inject_Z r < inject_Z M)%Q) by (rewrite <- Zlt_Qlt; lia).
  set (f := (inject_Z r / inject_Z M)%Q) in *.
  assert (Ef : (inject_Z r == f * inject_Z M)%Q).
  { unfold f. field. lra. }
  assert (Hf1 : (f < 1)%Q).
  { unfold f. apply Qlt_shift_div_r; lra. }
  assert (Hf0 : (0 <= f)%Q).
  { unfold f. apply Qle_shift_div_l; lra. }
  assert (Hcmp : forall c, (2 * r ?= M) = c ->
            match c with
            | Lt => (f < 1 # 2)%Q
            | Eq => (f == 1 # 2)%Q
            | Gt => (1 # 2 < f)%Q
            end).
  { intros c Hc. destruct c.
    - apply Z.compare_eq in Hc.
      assert (E : (2 * inject_Z r == inject_Z M)%Q).
      { rewrite <- Hc, inject_Z_mult. reflexivity. }
      unfold f.
      apply Qeq_trans with (y := ((1 # 2) * inject_Z M / inject_Z M)%Q);
        [|field; lra].
      apply Qmult_comp; [lra|reflexivity].
    - rewrite Z.compare_lt_iff in Hc.
      assert (E : (2 * inject_Z r < inject_Z M)%Q).
      { change 2%Q with (inject_Z 2).
        rewrite <- inject_Z_mult, <- Zlt_Qlt. lia. }
      unfold f. apply Qlt_shift_div_r; lra.
    - rewrite Z.compare_gt_iff in Hc.
      assert (E : (inject_Z M < 2 * inject_Z r)%Q).
      { change 2%Q with (inject_Z 2).
        rewrite <- inject_Z_mult, <- Zlt_Qlt. lia. }
      unfold f. apply Qlt_shift_div_l; lra. }
  assert (Hzero : r = 0 -> located Y q loc_Exact).
  { intros Er0.
    assert (f == 0)%Q.
    { unfold f. rewrite Er0. change (inject_Z 0) with 0%Q. field. lra. }
    cbn [located]. lra. }
  assert (Hfpos : r <> 0 -> (0 < f)%Q).
  { intros Hr0. unfold f. apply Qlt_shift_div_l; [lra|].
    assert (0 < inject_Z r)%Q.
    { change 0%Q with (inject_Z 0). rewrite <- Zlt_Qlt. lia. }
    lra. }
  unfold new_location.
  destruct (IntDef.Z.even M) eqn:Ev;
    unfold new_location_even, new_location_odd;
    (destruct (Z.eqb r 0) eqn:Er0;
     [apply Z.eqb_eq in Er0; now apply Hzero
     |apply Z.eqb_neq in Er0; specialize (Hfpos Er0)]).
  - pose proof (Hcmp _ eq_refl) as H.
    destruct (2 * r ?= M); cbn [located]; lra.
  - pose proof (Hcmp _ eq_refl) as H.
    assert (Hodd : 2 * r <> M).
    { intros E. change (IntDef.Z.even M) with (Z.even M) in Ev.
      rewrite <- E, Z.even_mul in Ev. discriminate. }
    destruct (2 * r + 1 ?= M) eqn:Ec.
    + apply Z.compare_eq in Ec.
      assert (Hl : (2 * r ?= M) = Lt) by (apply Z.compare_lt_iff; lia).
      rewrite Hl in H. cbn [located]. lra.
    + rewrite Z.compare_lt_iff in Ec.
      assert (Hl : (2 * r ?= M) = Lt) by (apply Z.compare_lt_iff; lia).
      rewrite Hl in H. cbn [located]. lra.
    + rewrite Z.compare_gt_iff in Ec.
      assert (Hl : (2 * r ?= M) = Gt) by (apply Z.compare_gt_iff; lia).
      rewrite Hl in H. cbn [located]. lra.
Qed.

Lemma div_core_spec mx ex my ey q e' l :
  SFdiv_core_binary prec emax (Z.pos mx) ex (Z.pos my) ey = (q, e', l) ->
  0 <= q /\
  located ((inject_Z (Z.pos mx) * bpow ex) / (inject_Z (Z.pos my) * bpow ey)
           / bpow e') q l /\
  e' <= fexp prec emax (Zdigits2 q + e').
Proof.
  unfold SFdiv_core_binary. cbn [Zdigits2]. rewrite !fexp_eq.
  set (d1 := Z.pos (digits2_pos mx)). set (d2 := Z.pos (digits2_pos my)).
  set (e0 := Z.min (Z.max (d1 + ex - (d2 + ey) - 53) (-1074)) (ex - ey)).
  set (s := ex - ey - e0).
  assert (Hs : 0 <= s) by (unfold s, e0; lia).
  set (m' := match s with
             | 0 => Z.pos mx
             | Z.pos _ => Z.shiftl (Z.pos mx) s
             | Z.neg _ => 0
             end).
  assert (Em' : m' = Z.pos mx * 2 ^ s).
  { unfold m'. destruct s; [lia | apply Z.shiftl_mul_pow2; lia | lia]. }
  clearbody m'.
  pose proof (Z_div_mod m' (Z.pos my) ltac:(lia)) as Hdiv.
  destruct (Z.div_eucl m' (Z.pos my)) as [q0 r0].
  destruct Hdiv as [Hdiv Hr].
  intros E. injection E as <- <- <-.
  pose proof (digits_bounds mx) as [Hx1 Hx2]. fold d1 in Hx1, Hx2.
  pose proof (digits_bounds my) as [Hy1 Hy2]. fold d2 in Hy1, Hy2.
  assert (Hp2 : 0 < 2 ^ s) by (apply Z.pow_pos_nonneg; lia).
  assert (Hq0 : 0 <= q0) by nia.
  split; [assumption|]. split.
  - apply new_location_located; [lia | assumption |].
    pose proof (bpow_pos ex). pose proof (bpow_pos ey). pose proof (bpow_pos e0).
    assert (IM : (0 < inject_Z (Z.pos my))%Q).
    { change 0%Q with (inject_Z 0). rewrite <- Zlt_Qlt. lia. }
    assert (En : (inject_Z m' == inject_Z (Z.pos my) * inject_Z q0
                                 + inject_Z r0)%Q).
    { rewrite <- inject_Z_mult, <- inject_Z_plus, <- Hdiv. reflexivity. }
    assert (Es : (bpow ex == bpow s * bpow ey * bpow e0)%Q).
    { rewrite <- !bpow_plus. replace (s + ey + e0) with ex by (unfold s; lia).
      reflexivity. }
    assert (Em : (inject_Z m' == inject_Z (Z.pos mx) * bpow s)%Q).
    { rewrite Em', inject_Z_mult, (inject_pow s) by lia. reflexivity. }
    rewrite Es.
    assert (Eq1 : (inject_Z (Z.pos mx) * (bpow s * bpow ey * bpow e0) /
                   (inject_Z (Z.pos my) * bpow ey) / bpow e0
                   == inject_Z m' / inject_Z (Z.pos my))%Q).
    { rewrite Em. field. lra. }
    rewrite Eq1, En. field. lra.
  - assert (Hd : d1 - d2 + s <= Zdigits2 q0).
    { pose proof (Zdigits2_nonneg q0).
      destruct (Z_le_gt_dec (d1 - d2 + s) 0) as [|Hk]; [lia|].
      assert (Hq : 2 ^ (d1 - d2 + s - 1) <= q0).
      { assert (H2 : 2 ^ (d1 - 1 + s) = 2 ^ (d1 - d2 + s - 1) * 2 ^ d2).
        { rewrite <- Z.pow_add_r by lia. f_equal. lia. }
        assert (H3 : 2 ^ (d1 - 1 + s) <= m').
        { rewrite Em', Z.pow_add_r by lia. nia. }
        assert (H4 : 0 < 2 ^ (d1 - d2 + s - 1))
          by (apply Z.pow_pos_nonneg; lia).
        nia. }
      assert (Hqpos : 0 < q0).
      { assert (0 < 2 ^ (d1 - d2 + s - 1)) by (apply Z.pow_pos_nonneg; lia).
        lia. }
      pose proof (Zdigits2_bounds q0 Hqpos) as [_ Hhi].
      assert (Hlt : 2 ^ (d1 - d2 + s - 1) < 2 ^ Zdigits2 q0) by lia.
      apply Z.pow_lt_mono_r_iff in Hlt; lia. }
    unfold e0 in *. unfold s in *. lia.
Qed.

Lemma signed_div sx sy a b :
  (0 < b)%Q ->
  (signed (xorb sx sy) (a / b) == signed sx a / signed sy b)%Q.
Proof. intros Hb. destruct sx, sy; cbn; field; lra. Qed.

(** The quotient of a finite float by a finite float other than zero is
    the rounded exact quotient. *)
Lemma SFdiv_spec x y :
  fz x ->
  match y with S754_finite _ _ _ => True | _ => False end ->
  op_spec (SF2Q x / SF2Q y) (SFdiv prec emax x y).
Proof.
  intros Fx Fy.
  destruct y as [sy|sy| |sy my ey]; try contradiction.
  destruct x as [sx|sx| |sx mx ex]; try contradiction; cbn [SFdiv].
  - apply op_spec_zero. cbn [SF2Q]. unfold Qdiv. ring.
  - destruct (SFdiv_core_binary prec emax (Z.pos mx) ex (Z.pos my) ey)
      as [[mz ez] lz] eqn:E.
    destruct (div_core_spec _ _ _ _ _ _ _ E) as (Hq & Hloc & Hpre).
    pose proof (bpow_pos ey).
    assert (0 < inject_Z (Z.pos my))%Q.
    { change 0%Q with (inject_Z 0). rewrite <- Zlt_Qlt. lia. }
    eapply op_spec_ext; [|apply (bra_op_spec _ _ _ _ _ Hq Hloc Hpre)].
    rewrite !SF2Q_finite. apply signed_div. nra.
Qed.

Lemma op_spec_mono z1 z2 r1 r2 :
  (z1 <= z2)%Q -> op_spec z1 r1 -> op_spec z2 r2 -> (SF2Q r1 <= SF2Q r2)%Q.
Proof.
  intros Hz (v1 & R1 & _ & E1) (v2 & R2 & _ & E2). rewrite E1, E2.
  apply clamp_mono. exact (rounded_mono _ _ _ _ Hz R1 R2).
Qed.

Lemma op_spec_bounds z r :
  op_spec z r -> (- top <= SF2Q r /\ SF2Q r <= top)%Q.
Proof. intros (v & _ & _ & E). rewrite E. apply clamp_bounds. Qed.

Lemma not_fz_cases x :
  x <> S754_nan -> fz x \/ exists s, x = S754_infinity s.
Proof. destruct x; intros H; try (left; exact I); [right; eauto | congruence]. Qed.

(** An operation that rounds a monotone function of its argument and
    maps each infinity to itself is monotone. *)
(** An operation that rounds a monotone function and keeps the infinities
    is monotone on the floats. *)
Lemma mono_generic (f : spec_float -> spec_float) (g : Q -> Q) :
  (forall a b, (a <= b)%Q -> (g a <= g b)%Q) ->
  (forall x, valid_binary x = true -> fz x -> op_spec (g (SF2Q x)) (f x)) ->
  (forall s, f (S754_infinity s) = S754_infinity s) ->
  forall x1 x2,
    valid_binary x1 = true -> valid_binary x2 = true ->
    x1 <> S754_nan -> x2 <> S754_nan ->
    (SF2Q x1 <= SF2Q x2)%Q -> (SF2Q (f x1) <= SF2Q (f x2))%Q.
Proof.
  intros Hg Hfz Hinf x1 x2 V1 V2 N1 N2 Hx. pose proof top_pos.
  destruct (not_fz_cases x1 N1) as [F1|[s1 ->]];
    destruct (not_fz_cases x2 N2) as [F2|[s2 ->]].
  - eapply op_spec_mono; [apply Hg; exact Hx | apply Hfz | apply Hfz]; auto.
  - rewrite Hinf. pose proof (fz_bounds x1 V1 F1) as [B1 B2].
    pose proof (op_spec_bounds _ _ (Hfz x1 V1 F1)) as [C1 C2].
    cbn [SF2Q] in *. destruct s2; lra.
  - rewrite Hinf. pose proof (fz_bounds x2 V2 F2) as [B1 B2].
    pose proof (op_spec_bounds _ _ (Hfz x2 V2 F2)) as [C1 C2].
    cbn [SF2Q] in *. destruct s1; lra.
  - rewrite !Hinf. exact Hx.
Qed.

Lemma SFmul_mono c x1 x2 mc ec :
  c = S754_finite false mc ec -> valid_binary c = true ->
  valid_binary x1 = true -> valid_binary x2 = true ->
  x1 <> S754_nan -> x2 <> S754_nan ->
  (SF2Q x1 <= SF2Q x2)%Q ->
  (SF2Q (SFmul prec emax x1 c) <= SF2Q (SFmul prec emax x2 c))%Q.
Proof.
  intros -> Vc.
  apply (mono_generic (fun x => SFmul prec emax x (S754_finite false mc ec))
                      (fun a => (a * SF2Q (S754_finite false mc ec))%Q)).
  - intros a b Hab. pose proof (finite_pos_bounds mc ec Vc) as [Hc _].
    cbn [SF2Q]. nra.
  - intros x Vx Fx. apply SFmul_spec; auto; exact I.
  - intros s. cbn [SFmul]. now rewrite xorb_false_r.
Qed.

Lemma SFsub_mono y x1 x2 :
  valid_binary y = true ->
  valid_binary x1 = true -> valid_binary x2 = true ->
  x1 <> S754_nan -> x2 <> S754_nan ->
  SFsub prec emax x1 y <> S754_nan -> SFsub prec emax x2 y <> S754_nan ->
  (SF2Q x1 <= SF2Q x2)%Q ->
  (SF2Q (SFsub prec emax x1 y) <= SF2Q (SFsub prec emax x2 y))%Q.
Proof.
  intros Vy V1 V2 N1 N2 R1 R2 Hx.
  destruct y as [sy|sy| |sy my ey].
  - revert x1 x2 V1 V2 N1 N2 Hx R1 R2.
    intros x1 x2 V1 V2 N1 N2 Hx _ _. revert x1 x2 V1 V2 N1 N2 Hx.
    apply (mono_generic (fun x => SFsub prec emax x (S754_zero sy))
                        (fun a => (a - SF2Q (S754_zero sy))%Q)).
    + intros a b Hab. lra.
    + intros x Vx Fx. apply SFsub_spec; auto; exact I.
    + intros s. reflexivity.
  - destruct x1 as [s1|s1| |s1 m1 e1]; try congruence;
      destruct x2 as [s2|s2| |s2 m2 e2]; try congruence;
      cbn [SFsub] in *; try apply Qle_refl;
      destruct s1, sy; try congruence; try apply Qle_refl;
      destruct s2; try congruence; apply Qle_refl.
  - destruct x1; cbn in R1; congruence.
  - revert x1 x2 V1 V2 N1 N2 Hx R1 R2.
    intros x1 x2 V1 V2 N1 N2 Hx _ _. revert x1 x2 V1 V2 N1 N2 Hx.
    apply (mono_generic (fun x => SFsub prec emax x (S754_finite sy my ey))
                        (fun a => (a - SF2Q (S754_finite sy my ey))%Q)).
    + intros a b Hab. lra.
    + intros x Vx Fx. apply SFsub_spec; auto; exact I.
    + intros s. reflexivity.
Qed.

Lemma SFdiv_mono d x1 x2 :
  positive_float d -> valid_binary d = true ->
  valid_binary x1 = true -> valid_binary x2 = true ->
  x1 <> S754_nan -> x2 <> S754_nan ->
  SFdiv prec emax x1 d <> S754_nan -> SFdiv prec emax x2 d <> S754_nan ->
  (SF2Q x1 <= SF2Q x2)%Q ->
  (SF2Q (SFdiv prec emax x1 d) <= SF2Q (SFdiv prec emax x2 d))%Q.
Proof.
  intros Pd Vd V1 V2 N1 N2 R1 R2 Hx.
  destruct d as [sd|[|]| |[|] md ed]; try contradiction.
  - destruct x1 as [s1|s1| |s1 m1 e1]; try congruence;
      destruct x2 as [s2|s2| |s2 m2 e2]; try congruence;
      cbn [SFdiv SF2Q] in *; try congruence; apply Qle_refl.
  - revert x1 x2 V1 V2 N1 N2 Hx R1 R2.
    intros x1 x2 V1 V2 N1 N2 Hx _ _. revert x1 x2 V1 V2 N1 N2 Hx.
    apply (mono_generic (fun x => SFdiv prec emax x (S754_finite false md ed))
                        (fun a => (a / SF2Q (S754_finite false md ed))%Q)).
    + intros a b Hab. pose proof (finite_pos_bounds md ed Vd) as [Hc _].
      cbn [SF2Q]. unfold Qdiv. apply Qmult_le_compat_r; [exact Hab|].
      apply Qinv_le_0_compat. lra.
    + intros x Vx Fx. apply SFdiv_spec; auto; exact I.
    + intros s. cbn [SFdiv]. now rewrite xorb_false_r.
Qed.

Lemma finite_lt_exp m1 e1 m2 e2 :
  valid_binary (S754_finite false m1 e1) = true ->
  valid_binary (S754_finite false m2 e2) = true ->
  e1 < e2 ->
  (inject_Z (Z.pos m1) * bpow e1 <= inject_Z (Z.pos m2) * bpow e2)%Q.
Proof.
  intros V1 V2 He.
  destruct (valid_finite _ _ _ V1) as (He1 & Hm1 & _ & _).
  destruct (valid_finite _ _ _ V2) as (He2 & _ & Hn2 & _).
  pose proof (bpow_le (e1 + 1) e2 ltac:(lia)) as HB.
  rewrite bpow_succ in HB.
  pose proof (bpow_pos e1). pose proof (bpow_pos e2). pose proof (bpow_pos 52).
  pose proof (inject_pow 53 ltac:(lia)) as E53.
  pose proof (inject_pow 52 ltac:(lia)) as E52.
  assert (E5253 : (bpow 53 == 2 * bpow 52)%Q) by (apply (bpow_succ 52)).
  assert (I1 : (inject_Z (Z.pos m1) <= bpow 53)%Q).
  { rewrite <- E53, <- Zle_Qle. lia. }
  assert (I2 : (bpow 52 <= inject_Z (Z.pos m2))%Q).
  { rewrite <- E52, <- Zle_Qle. apply Hn2. lia. }
  apply Qle_trans with (y := (bpow 53 * bpow e1)%Q).
  - apply Qmult_le_compat_r; lra.
  - apply Qle_trans with (y := (bpow 52 * bpow e2)%Q).
    + rewrite E5253. nra.
    + apply Qmult_le_compat_r; lra.
Qed.

(** [<=] on floats is the order of their places. *)
Lemma SFleb_SF2Q x y :
  valid_binary x = true -> valid_binary y = true ->
  SFleb x y = true ->
  x <> S754_nan /\ y <> S754_nan /\ (SF2Q x <= SF2Q y)%Q.
Proof.
  intros Vx Vy. unfold SFleb. pose proof top_pos.
  pose proof (valid_bounds x Vx) as [Bx1 Bx2].
  pose proof (valid_bounds y Vy) as [By1 By2].
  destruct x as [sx|sx| |sx mx ex]; destruct y as [sy|sy| |sy my ey];
    cbn [SFcompare]; try discriminate; intros Hc;
    (split; [discriminate|split; [discriminate|]]); cbn [SF2Q] in *.
  - lra.
  - destruct sy; [discriminate | lra].
  - pose proof (finite_pos_bounds my ey Vy) as [H1 _].
    destruct sy; [discriminate | lra].
  - destruct sx; [lra | discriminate].
  - destruct sx, sy; try discriminate; lra.
  - destruct sx; [lra | discriminate].
  - pose proof (finite_pos_bounds mx ex Vx) as [H1 _].
    destruct sx; [lra | discriminate].
  - destruct sy; [discriminate | lra].
  - pose proof (finite_pos_bounds mx ex Vx) as [Hx1 _].
    pose proof (finite_pos_bounds my ey Vy) as [Hy1 _].
    pose proof (bpow_pos ex).
    destruct sx, sy; try discriminate; try lra.
    + destruct (Z.compare_spec ex ey) as [->|Hlt|Hgt]; try discriminate.
      * assert (Hm : (my <= mx)%positive).
        { rewrite Pos.compare_cont_spec in Hc. cbn in Hc.
          destruct (Pos.compare_spec mx my); cbn in Hc;
            try discriminate; lia. }
        assert (inject_Z (Z.pos my) <= inject_Z (Z.pos mx))%Q
          by (rewrite <- Zle_Qle; lia).
        nra.
      * pose proof (finite_lt_exp my ey mx ex Vy Vx ltac:(lia)). lra.
    + destruct (Z.compare_spec ex ey) as [->|Hlt|Hgt]; try discriminate.
      * assert (Hm : (mx <= my)%positive).
        { rewrite Pos.compare_cont_spec in Hc. cbn in Hc.
          destruct (Pos.compare_spec mx my); cbn in Hc;
            try discriminate; lia. }
        assert (inject_Z (Z.pos mx) <= inject_Z (Z.pos my))%Q
          by (rewrite <- Zle_Qle; lia).
        nra.
      * exact (finite_lt_exp mx ex my ey Vx Vy Hlt).
Qed.

(** [int(x)]: the value truncated toward zero. *)
Lemma trunc_pos m e :
  let v := if Z.leb 0 e then Z.pos m * 2 ^ e
           else Z.quot (Z.pos m) (2 ^ (- e)) in
  0 <= v /\
  (inject_Z v <= inject_Z (Z.pos m) * bpow e /\
   inject_Z (Z.pos m) * bpow e < inject_Z v + 1)%Q.
Proof.
  cbv zeta. destruct (Z.leb_spec 0 e) as [He|He].
  - split; [apply Z.mul_nonneg_nonneg; [lia | apply Z.pow_nonneg; lia]|].
    rewrite inject_Z_mult, (inject_pow e) by lia. lra.
  - set (k := 2 ^ (- e)).
    assert (Hk : 0 < k) by (apply Z.pow_pos_nonneg; lia).
    rewrite Z.quot_div_nonneg by lia.
    pose proof (Z.mul_div_le (Z.pos m) k Hk) as H1.
    pose proof (Z.mul_succ_div_gt (Z.pos m) k Hk) as H2.
    split; [apply Z.div_pos; lia|].
    assert (Ek : (bpow e * inject_Z k == 1)%Q).
    { unfold k. rewrite (inject_pow (- e)) by lia. rewrite <- bpow_plus.
      replace (e + - e) with 0 by lia. reflexivity. }
    assert (IK : (0 < inject_Z k)%Q).
    { change 0%Q with (inject_Z 0). rewrite <- Zlt_Qlt. lia. }
    pose proof (bpow_pos e) as HB.
    set (q := Z.pos m / k) in *.
    assert (I1 : (inject_Z k * inject_Z q <= inject_Z (Z.pos m))%Q).
    { rewrite <- inject_Z_mult, <- Zle_Qle. lia. }
    assert (I2 : (inject_Z (Z.pos m) < inject_Z k * (inject_Z q + 1))%Q).
    { change 1%Q with (inject_Z 1).
      rewrite <- inject_Z_plus, <- inject_Z_mult, <- Zlt_Qlt.
      unfold Z.succ in H2. lia. }
    split.
    + apply Qle_trans with (y := (inject_Z k * inject_Z q * bpow e)%Q).
      * assert (E : (inject_Z k * inject_Z q * bpow e
                     == inject_Z q * (bpow e * inject_Z k))%Q) by ring.
        rewrite E, Ek. lra.
      * apply Qmult_le_compat_r; lra.
    + apply Qlt_le_trans
        with (y := (inject_Z k * (inject_Z q + 1) * bpow e)%Q).
      * apply Qmult_lt_compat_r; lra.
      * assert (E : (inject_Z k * (inject_Z q + 1) * bpow e
                     == (inject_Z q + 1) * (bpow e * inject_Z k))%Q) by ring.
        rewrite E, Ek. lra.
Qed.

Lemma SFtrunc_finite s m e n :
  SFtrunc (S754_finite s m e) = Some n ->
  exists v, 0 <= v /\ n = (if s then - v else v) /\
            (inject_Z v <= inject_Z (Z.pos m) * bpow e /\
             inject_Z (Z.pos m) * bpow e < inject_Z v + 1)%Q.
Proof.
  unfold SFtrunc. intros H. pose proof (trunc_pos m e) as Hv. cbv zeta in Hv.
  set (v := if 0 <=? e then Z.pos m * 2 ^ e else Z.pos m ÷ 2 ^ (- e)) in *.
  exists v. split; [apply Hv|]. split; [congruence | apply Hv].
Qed.

Lemma finite_value_pos m e : (0 < inject_Z (Z.pos m) * bpow e)%Q.
Proof.
  pose proof (bpow_pos e).
  assert (0 < inject_Z (Z.pos m))%Q
    by (change 0%Q with (inject_Z 0); rewrite <- Zlt_Qlt; lia).
  nra.
Qed.

(** [int] is monotone. *)
Lemma SFtrunc_mono x1 x2 n1 n2 :
  SFtrunc x1 = Some n1 -> SFtrunc x2 = Some n2 ->
  (SF2Q x1 <= SF2Q x2)%Q -> n1 <= n2.
Proof.
  assert (Hcmp : forall a b : Z, (inject_Z a < inject_Z b + 1)%Q -> a <= b).
  { intros a b Hab. change 1%Q with (inject_Z 1) in Hab.
    rewrite <- inject_Z_plus, <- Zlt_Qlt in Hab. lia. }
  destruct x1 as [s1|s1| |s1 m1 e1]; try discriminate;
    destruct x2 as [s2|s2| |s2 m2 e2]; try discriminate;
    intros E1 E2 Hx.
  - cbn in E1, E2. injection E1 as <-. injection E2 as <-. lia.
  - destruct (SFtrunc_finite _ _ _ _ E2) as (v2 & H0 & -> & Ha & Hb).
    cbn in E1. injection E1 as <-. cbn [SF2Q] in Hx.
    pose proof (finite_value_pos m2 e2). destruct s2; [lra | lia].
  - destruct (SFtrunc_finite _ _ _ _ E1) as (v1 & H0 & -> & Ha & Hb).
    cbn in E2. injection E2 as <-. cbn [SF2Q] in Hx.
    pose proof (finite_value_pos m1 e1). destruct s1; [lia | lra].
  - destruct (SFtrunc_finite _ _ _ _ E1) as (v1 & H1 & -> & Ha1 & Hb1).
    destruct (SFtrunc_finite _ _ _ _ E2) as (v2 & H2 & -> & Ha2 & Hb2).
    cbn [SF2Q] in Hx.
    pose proof (finite_value_pos m1 e1). pose proof (finite_value_pos m2 e2).
    destruct s1, s2.
    + assert (v2 <= v1) by (apply Hcmp; lra). lia.
    + lia.
    + exfalso. lra.
    + apply Hcmp. lra.
Qed.

(** Exchanging the two floats of a comparison reverses its result. *)
Lemma SFcompare_antisym x y :
  SFcompare y x = option_map CompOpp (SFcompare x y).
Proof.
  destruct x as [sx|sx| |sx mx ex]; destruct y as [sy|sy| |sy my ey];
    cbn [SFcompare option_map]; try reflexivity;
    try (destruct sx; reflexivity); try (destruct sy; reflexivity);
    try (destruct sx, sy; reflexivity).
  destruct sx, sy; cbn [CompOpp]; try reflexivity.
  - rewrite (Z.compare_antisym ex ey).
    destruct (ex ?= ey); cbn [CompOpp]; try reflexivity.
    pose proof (Pos.compare_cont_antisym mx my Eq) as A.
    cbn [CompOpp] in A. change PosDef.Pos.compare_cont with Pos.compare_cont.
    now rewrite <- A.
  - rewrite (Z.compare_antisym ex ey).
    destruct (ex ?= ey); cbn [CompOpp]; try reflexivity.
    pose proof (Pos.compare_cont_antisym mx my Eq) as A.
    cbn [CompOpp] in A. change PosDef.Pos.compare_cont with Pos.compare_cont.
    now rewrite <- A.
Qed.

(** A float that is not below another one is at or above it. *)
Lemma SFltb_false_SF2Q x y :
  valid_binary x = true -> valid_binary y = true ->
  x <> S754_nan -> y <> S754_nan ->
  SFltb x y = false -> (SF2Q y <= SF2Q x)%Q.
Proof.
  intros Vx Vy Nx Ny H.
  apply (SFleb_SF2Q y x Vy Vx). unfold SFleb. unfold SFltb in H.
  rewrite SFcompare_antisym.
  destruct (SFcompare x y) as [[]|] eqn:E; cbn; try reflexivity;
    try discriminate.
  destruct x, y; cbn in E; congruence.
Qed.

(** An operation whose exact result lies between two opposite finite
    floats returns a finite float between them. *)
Lemma op_spec_within z r m e :
  valid_binary (S754_finite false m e) = true ->
  op_spec z r ->
  (- (inject_Z (Z.pos m) * bpow e) <= z)%Q ->
  (z <= inject_Z (Z.pos m) * bpow e)%Q ->
  fz r /\
  (- (inject_Z (Z.pos m) * bpow e) <= SF2Q r)%Q /\
  (SF2Q r <= inject_Z (Z.pos m) * bpow e)%Q.
Proof.
  intros V Hop Hlo Hhi.
  assert (Vn : valid_binary (S754_finite true m e) = true) by exact V.
  pose proof (op_spec_representable _ false m e V (Qeq_refl _)) as Hp.
  pose proof (op_spec_representable _ true m e Vn (Qeq_refl _)) as Hn.
  pose proof (op_spec_mono _ _ _ _ Hhi Hop Hp) as H1.
  pose proof (op_spec_mono _ _ _ _ Hlo Hn Hop) as H2.
  cbn [SF2Q] in H1, H2.
  pose proof (finite_pos_bounds m e V) as [_ Htop].
  split; [|split; assumption].
  destruct Hop as (v & _ & Hnan & _).
  destruct (not_fz_cases r Hnan) as [F|[s ->]]; [exact F|].
  exfalso. cbn [SF2Q] in H1, H2. destruct s; lra.
Qed.

(** A float between two opposite finite floats is finite. *)
Lemma between_is_finite (x : spec_float) (B : Q) :
  x <> S754_nan -> (B < top)%Q -> (- B <= SF2Q x)%Q -> (SF2Q x <= B)%Q ->
  fz x.
Proof.
  intros N HB H1 H2. destruct (not_fz_cases x N) as [F|[s ->]]; [exact F|].
  exfalso. cbn [SF2Q] in H1, H2. destruct s; lra.
Qed.

End Rounding.

(** ** Target-size bitrate *)

Section TargetSize.

Import ConversionWorker Scenario.
Import PrimFloat.
Import Floats.SpecFloat Floats.FloatOps Floats.FloatAxioms.
Import Binary64.

(** Under a floor of 300, truncating toward zero and rounding down give
    the same bitrate: they differ only on negative quotients. *)
Lemma binary64_truncation_is_floor (x : float) :
  option_map (fun v => Z.max v 300) (int_of_float x) =
  option_map (Z.max 300) (floor_of_float x).
Proof.
  unfold int_of_float, floor_of_float, SFtrunc.
  destruct (Prim2SF x) as [s|s| |s m e]; try reflexivity.
  cbn [option_map]. f_equal.
  destruct (Z.leb_spec 0 e) as [He|He].
  - destruct s; [|lia].
    rewrite <- Pos2Z.opp_pos, Z.mul_opp_l. lia.
  - assert (Hk : 0 < 2 ^ (- e)) by (apply Z.pow_pos_nonneg; lia).
    destruct s.
    + assert (Hq : 0 <= Z.quot (Z.pos m) (2 ^ (- e)))
        by (apply Z.quot_pos; lia).
      assert (Hd : Z.neg m / 2 ^ (- e) < 0)
        by (apply Z.div_lt_upper_bound; lia).
      lia.
    + rewrite Z.quot_div_nonneg by lia. lia.
Qed.

(** C2, as amended.  In mode [target_size] the emitted video bitrate is
    [max(300, floor(q))] kbps, where [q] is [(S*8000 - a*d')/d'] with
    [d' = max(d, 1)] and every operation rounded to binary64, [S] is the
    target size (50 when not configured), [d] the probed duration and [a]
    the audio bitrate read from the configuration; when [q] is a NaN or an
    infinity, or [a] is too large for a float, the synthesis raises and
    emits nothing.  For S=50, d=120 and [128k] the bitrate is 3205 kbps. *)
Theorem target_size_bitrate_emitted :
  (forall (config : JobConfig) (input_info : InputInfo),
      PyStr.lower (str_or (encoding_mode config) "crf") = "target_size" ->
      encoding_mode_args config input_info =
      match target_quotient
              (get_or (target_size_mb config) 50%float) (duration input_info)
              (_extract_audio_bitrate_kbps (audio_bitrate config)) with
      | Some q =>
          option_map (fun n => ["-b:v"; PyStr.of_Z (Z.max 300 n) ++ "k"])
                     (floor_of_float q)
      | None => None
      end) /\
  _extract_audio_bitrate_kbps (PyStr "128k") = 128 /\
  encoding_mode_args scenario_B_config scenario_B_input
  = Some ["-b:v"; "3205k"].
Proof.
  split; [|split; vm_compute; reflexivity].
  intros config input_info Hmode. unfold encoding_mode_args.
  rewrite Hmode. cbn [String.eqb Ascii.eqb Bool.eqb].
  unfold target_size_video_kbps.
  destruct (target_quotient _ _ _) as [q|]; [|reflexivity].
  pose proof (binary64_truncation_is_floor q) as H.
  destruct (int_of_float q) as [v|], (floor_of_float q) as [n|];
    cbn [option_map] in *; try discriminate; [|reflexivity].
  injection H as ->. reflexivity.
Qed.

Lemma target_size_bitrate_emitted_witness :
  PyStr.lower (str_or (encoding_mode scenario_B_config) "crf")
  = "target_size" /\
  encoding_mode_args scenario_B_config scenario_B_input =
  match target_quotient
          (get_or (target_size_mb scenario_B_config) 50%float)
          (duration scenario_B_input)
          (_extract_audio_bitrate_kbps (audio_bitrate scenario_B_config)) with
  | Some q =>
      option_map (fun n => ["-b:v"; PyStr.of_Z (Z.max 300 n) ++ "k"])
                 (floor_of_float q)
  | None => None
  end.
Proof.
  split; [reflexivity|].
  apply (proj1 target_size_bitrate_emitted). reflexivity.
Defined.

(** C2 as stated gives 3204 kbps for scenario B; the code, and the formula
    of the claim itself, give (50*8000 - 128*120)/120 = 3205.33, so
    3205. *)
Lemma scenario_B_is_not_3204 :
  spec_video_kbps (50 # 1) (120 # 1)
    (_extract_audio_bitrate_kbps (PyStr "128k")) = 3205 /\
  target_size_video_kbps 50%float 120%float
    (_extract_audio_bitrate_kbps (PyStr "128k")) = Some 3205 /\
  encoding_mode_args scenario_B_config scenario_B_input
  <> Some ["-b:v"; "3204k"].
Proof.
  split; [reflexivity|]. split; [vm_compute; reflexivity|].
  vm_compute. discriminate.
Qed.

(** Where the formula on exact numbers and the code part: a duration just
    above 400/3 s makes the exact quotient fall short of 3000 by less than
    half a unit in the last place; rounded to binary64 it is 3000. *)
Example binary64_rounds_onto_integer :
  let d := 0x1.0aaaaaaaaaaabp+7%float in
  exact d = Some (inject_Z 4691249611844267 * bpow (-45))%Q /\
  target_size_video_kbps 50%float d 0 = Some 3000 /\
  spec_video_kbps (50 # 1) (inject_Z 4691249611844267 * bpow (-45)) 0
  = 2999.
Proof. cbv zeta. repeat split; vm_compute; reflexivity. Qed.

(** A job whose bitrate cannot be computed: a duration that is not a
    number. *)
Example target_size_raises :
  encoding_mode_args scenario_B_config (mkInputInfo nan []) = None.
Proof. vm_compute. reflexivity. Qed.

Lemma SFtrunc_some x n : SFtrunc x = Some n -> fz x.
Proof. destruct x; cbn; try discriminate; intros; exact I. Qed.

Lemma max_duration_positive (d : float) :
  let d' := if PrimFloat.ltb d 1%float then 1%float else d in
  Prim2SF d' = S754_nan \/ positive_float (Prim2SF d').
Proof.
  cbv zeta. destruct (PrimFloat.ltb d 1%float) eqn:E.
  - right. vm_compute. exact I.
  - rewrite ltb_spec in E. unfold SFltb in E.
    change (Prim2SF 1%float) with (S754_finite false 4503599627370496 (-52)) in E.
    destruct (Prim2SF d) as [s|s| |s m e]; cbn [SFcompare] in E.
    + destruct s; discriminate.
    + destruct s; [discriminate | right; exact I].
    + now left.
    + destruct s; [discriminate | right; exact I].
Qed.
(** For a fixed duration and audio bitrate, a larger target size never
    gives a smaller bitrate. *)
Lemma target_size_monotone (S1 S2 d : float) (a v1 v2 : Z) :
  PrimFloat.leb S1 S2 = true ->
  target_size_video_kbps S1 d a = Some v1 ->
  target_size_video_kbps S2 d a = Some v2 ->
  v1 <= v2.
Proof.
  unfold target_size_video_kbps, target_quotient.
  destruct (float_of_int a) as [af|]; [|discriminate].
  pose proof (max_duration_positive d) as Hd. cbv zeta in Hd.
  set (d' := if PrimFloat.ltb d 1%float then 1%float else d) in *.
  set (ad := PrimFloat.mul af d').
  set (t1 := PrimFloat.mul S1 8000%float).
  set (t2 := PrimFloat.mul S2 8000%float).
  set (u1 := PrimFloat.sub t1 ad). set (u2 := PrimFloat.sub t2 ad).
  set (q1 := PrimFloat.div u1 d'). set (q2 := PrimFloat.div u2 d').
  intros Hle H1 H2.
  unfold int_of_float in H1, H2.
  destruct (SFtrunc (Prim2SF q1)) as [n1|] eqn:E1; [|discriminate].
  destruct (SFtrunc (Prim2SF q2)) as [n2|] eqn:E2; [|discriminate].
  cbn in H1, H2. injection H1 as <-. injection H2 as <-.
  apply Z.max_le_compat_r.
  apply (SFtrunc_mono _ _ _ _ E1 E2).
  pose proof (SFtrunc_some _ _ E1) as F1.
  pose proof (SFtrunc_some _ _ E2) as F2.
  (* the divisor *)
  assert (Nq1 : Prim2SF q1 <> S754_nan)
    by (destruct (Prim2SF q1); cbn in F1; congruence).
  assert (Nq2 : Prim2SF q2 <> S754_nan)
    by (destruct (Prim2SF q2); cbn in F2; congruence).
  unfold q1, q2 in *. rewrite !div_spec in *. unfold SF64div in *.
  assert (Nu1 : Prim2SF u1 <> S754_nan).
  { intros E. rewrite E in Nq1. now apply Nq1. }
  assert (Nu2 : Prim2SF u2 <> S754_nan).
  { intros E. rewrite E in Nq2. now apply Nq2. }
  assert (Pd : positive_float (Prim2SF d')).
  { destruct Hd as [Hd|Hd]; [|exact Hd]. exfalso. apply Nq1. rewrite Hd.
    destruct (Prim2SF u1); reflexivity. }
  apply SFdiv_mono; try apply Prim2SF_valid; try assumption.
  unfold u1, u2 in *. rewrite !sub_spec in *. unfold SF64sub in *.
  (* the product *)
  rewrite leb_spec in Hle.
  destruct (SFleb_SF2Q _ _ (Prim2SF_valid S1) (Prim2SF_valid S2) Hle)
    as (NS1 & NS2 & HS).
  assert (Ec : Prim2SF 8000%float
               = S754_finite false 8796093022208000 (-40))
    by (vm_compute; reflexivity).
  assert (Nt : forall S : float, Prim2SF S <> S754_nan ->
                                 Prim2SF (PrimFloat.mul S 8000%float)
                                 <> S754_nan).
  { intros S NS. rewrite mul_spec. unfold SF64mul.
    pose proof (Prim2SF_valid S) as VS.
    pose proof (Prim2SF_valid 8000%float) as Vc. rewrite Ec in *.
    destruct (not_fz_cases _ NS) as [FS|[s ES]].
    - destruct (SFmul_spec _ _ VS Vc FS I) as (v & _ & Hn & _). exact Hn.
    - rewrite ES. discriminate. }
  apply SFsub_mono; try apply Prim2SF_valid; try assumption;
    try (apply Nt; assumption).
  unfold t1, t2. rewrite !mul_spec. unfold SF64mul.
  eapply SFmul_mono; try apply Prim2SF_valid; try assumption.
  exact Ec.
Qed.

(** An integer from 0 to below [2^63] becomes a float without
    overflow. *)
Lemma float_of_small_int (a : Z) :
  0 <= a < 2 ^ 63 ->
  exists af,
    float_of_int a = Some af /\ fz (Prim2SF af) /\
    (0 <= SF2Q (Prim2SF af))%Q /\
    (SF2Q (Prim2SF af) <= 9223372036854775808)%Q.
Proof.
  intros Ha.
  pose proof (binary_normalize_spec a 0) as Hop.
  assert (Er : binary_normalize prec emax a 0 false
               = Prim2SF (of_uint63 (Uint63.of_Z a))).
  { rewrite of_uint63_spec, Uint63.of_Z_spec, Z.mod_small; [reflexivity|].
    exact Ha. }
  unfold float_of_int. rewrite Er in *.
  set (x := of_uint63 (Uint63.of_Z a)) in *.
  assert (V : valid_binary (pow2 63) = true) by reflexivity.
  assert (E63 : (inject_Z 4503599627370496 * bpow (63 - 52)
                 == 9223372036854775808)%Q) by reflexivity.
  assert (E0 : (bpow 0 == 1)%Q) by reflexivity.
  assert (Ia : (0 <= inject_Z a /\ inject_Z a <= 9223372036854775808)%Q).
  { split.
    - change 0%Q with (inject_Z 0). rewrite <- Zle_Qle. lia.
    - change 9223372036854775808%Q with (inject_Z (2 ^ 63)).
      rewrite <- Zle_Qle. lia. }
  destruct (op_spec_within _ _ _ _ V Hop) as (F & Hlo & Hhi);
    [rewrite E63, E0; lra | rewrite E63, E0; lra |].
  assert (H0 : (0 <= SF2Q (Prim2SF x))%Q).
  { pose proof (op_spec_zero 0 false (Qeq_refl 0)) as Hz.
    assert (Hle : (0 <= inject_Z a * bpow 0)%Q) by (rewrite E0; lra).
    exact (op_spec_mono _ _ _ _ Hle Hz Hop). }
  exists x. rewrite E63 in Hhi.
  split; [|split; [exact F | split; assumption]].
  destruct (Prim2SF x) eqn:Ex; cbn in F; try contradiction;
    rewrite <- Ex, SF2Prim_Prim2SF; reflexivity.
Qed.

Lemma top_large : (340282366920938463463374607431768211456 < top)%Q.
Proof.
  change 340282366920938463463374607431768211456%Q with (inject_Z (2 ^ 128)).
  rewrite <- bpow_Z by lia. unfold top.
  pose proof (bpow_le 129 1024 ltac:(lia)).
  pose proof (bpow_succ 128). pose proof (bpow_pos 128).
  change (128 + 1) with 129 in *. lra.
Qed.

(** A float from 1 to [2^64] is finite and above zero. *)
Lemma duration_is_finite (x : spec_float) :
  valid_binary x = true -> x <> S754_nan ->
  (1 <= SF2Q x)%Q -> (SF2Q x <= 18446744073709551616)%Q ->
  exists m e, x = S754_finite false m e.
Proof.
  intros V N H1 H2. pose proof top_large.
  destruct x as [s|s| |s m e]; cbn [SF2Q] in *.
  - exfalso. lra.
  - exfalso. destruct s; lra.
  - contradiction.
  - destruct s; [|eauto]. exfalso.
    pose proof (finite_value_pos m e). lra.
Qed.

(** The duration the bitrate is computed with lies between 1 and [2^64]
    when the probed one is at most [2^64]. *)
Lemma max_duration_bounds (d : float) :
  PrimFloat.leb d 0x1p64%float = true ->
  let d' := if PrimFloat.ltb d 1%float then 1%float else d in
  (exists m e, Prim2SF d' = S754_finite false m e) /\
  (1 <= SF2Q (Prim2SF d'))%Q /\
  (SF2Q (Prim2SF d') <= 18446744073709551616)%Q.
Proof.
  intros Hd. cbv zeta. rewrite leb_spec in Hd.
  destruct (PrimFloat.ltb d 1%float) eqn:E.
  - change (Prim2SF 1%float)
      with (S754_finite false 4503599627370496 (-52)).
    split; [eauto|]. cbn [SF2Q].
    assert (E1 : (inject_Z 4503599627370496 * bpow (-52) == 1)%Q)
      by reflexivity.
    rewrite E1. split; lra.
  - rewrite ltb_spec in E.
    destruct (SFleb_SF2Q _ _ (Prim2SF_valid d) (Prim2SF_valid _) Hd)
      as (Nd & _ & Hhi).
    assert (N1 : Prim2SF 1%float <> S754_nan) by (vm_compute; discriminate).
    pose proof (SFltb_false_SF2Q _ _ (Prim2SF_valid d) (Prim2SF_valid _)
                  Nd N1 E) as Hlo.
    assert (E1 : (SF2Q (Prim2SF 1%float) == 1)%Q) by reflexivity.
    assert (E64 : (SF2Q (Prim2SF 0x1p64%float) == 18446744073709551616)%Q)
      by reflexivity.
    rewrite E1 in Hlo. rewrite E64 in Hhi.
    split; [|split; assumption].
    now apply duration_is_finite; [apply Prim2SF_valid | | |].
Qed.

(** For a target size between [-2^64] and [2^64] MB, a duration of at
    most [2^64] s and an audio bitrate from 0 to below [2^63] kbps, the
    bitrate is computed: no operation overflows. *)
Lemma target_size_defined (S d : float) (a : Z) :
  PrimFloat.leb (-0x1p64)%float S = true ->
  PrimFloat.leb S 0x1p64%float = true ->
  PrimFloat.leb d 0x1p64%float = true ->
  0 <= a < 2 ^ 63 ->
  exists v, target_size_video_kbps S d a = Some v.
Proof.
  intros HS1 HS2 Hd Ha.
  unfold target_size_video_kbps, target_quotient.
  destruct (float_of_small_int a Ha) as (af & -> & Faf & Laf & Uaf).
  destruct (max_duration_bounds d Hd) as ((md & ed & Ed) & Ld & Ud).
  cbv zeta in Ed, Ld, Ud.
  set (d' := if PrimFloat.ltb d 1%float then 1%float else d) in *.
  pose proof top_large as Htop.
  (* the target size *)
  rewrite leb_spec in HS1, HS2.
  destruct (SFleb_SF2Q _ _ (Prim2SF_valid _) (Prim2SF_valid S) HS1)
    as (_ & NS & LS).
  destruct (SFleb_SF2Q _ _ (Prim2SF_valid S) (Prim2SF_valid _) HS2)
    as (_ & _ & US).
  assert (E64 : (SF2Q (Prim2SF 0x1p64%float) == 18446744073709551616)%Q)
    by reflexivity.
  assert (E64n : (SF2Q (Prim2SF (-0x1p64)%float)
                  == - 18446744073709551616)%Q) by reflexivity.
  rewrite E64 in US. rewrite E64n in LS.
  assert (FS : fz (Prim2SF S)).
  { apply (between_is_finite _ 18446744073709551616 NS); lra. }
  assert (V : forall k, 52 <= k <= 1023 -> valid_binary (pow2 k) = true).
  { intros k Hk. unfold pow2, valid_binary, bounded, canonical_mantissa.
    rewrite fexp_eq. apply andb_true_intro. split.
    - change (Z.pos (digits2_pos 4503599627370496)) with 53.
      rewrite Z.max_l by lia.
      replace (53 + (k - 52) - 53) with (k - 52) by lia.
      apply Z.eqb_eq. reflexivity.
    - apply Z.leb_le. change (emax - prec) with 971. lia. }
  assert (E77 : (inject_Z 4503599627370496 * bpow (77 - 52)
                 == 151115727451828646838272)%Q) by reflexivity.
  assert (E127 : (inject_Z 4503599627370496 * bpow (127 - 52)
                  == 170141183460469231731687303715884105728)%Q)
    by reflexivity.
  assert (E128 : (inject_Z 4503599627370496 * bpow (128 - 52)
                  == 340282366920938463463374607431768211456)%Q)
    by reflexivity.
  (* the product with 8000 *)
  assert (F8 : fz (Prim2SF 8000%float)) by (vm_compute; exact I).
  assert (E8000 : (SF2Q (Prim2SF 8000%float) == 8000)%Q) by reflexivity.
  pose proof (SFmul_spec _ _ (Prim2SF_valid S) (Prim2SF_valid 8000%float)
                FS F8) as Ht.
  destruct (op_spec_within _ _ _ _ (V 77 ltac:(lia)) Ht)
    as (Ft & Lt' & Ut);
    [rewrite E77, E8000; lra | rewrite E77, E8000; lra |].
  rewrite E77 in Lt', Ut.
  (* the product of the audio bitrate and the duration *)
  assert (Fd : fz (Prim2SF d')) by (rewrite Ed; exact I).
  pose proof (SFmul_spec _ _ (Prim2SF_valid af) (Prim2SF_valid d') Faf Fd)
    as Hp.
  destruct (op_spec_within _ _ _ _ (V 127 ltac:(lia)) Hp)
    as (Fp & Lp & Up); [rewrite E127; nra | rewrite E127; nra |].
  rewrite E127 in Lp, Up.
  (* the difference *)
  rewrite <- mul_spec in Ft, Lt', Ut, Fp, Lp, Up.
  pose proof (SFsub_spec _ _ (Prim2SF_valid _) (Prim2SF_valid _) Ft Fp)
    as Hu.
  destruct (op_spec_within _ _ _ _ (V 128 ltac:(lia)) Hu)
    as (Fu & Lu & Uu); [rewrite E128; lra | rewrite E128; lra |].
  rewrite E128 in Lu, Uu. rewrite <- sub_spec in Fu, Lu, Uu.
  (* the quotient *)
  assert (Fin : match Prim2SF d' with
                | S754_finite _ _ _ => True
                | _ => False
                end) by (rewrite Ed; exact I).
  pose proof (SFdiv_spec _ _ Fu Fin) as Hq.
  destruct (op_spec_within _ _ _ _ (V 128 ltac:(lia)) Hq)
    as (Fq & _ & _).
  { rewrite E128. apply Qle_shift_div_l; lra. }
  { rewrite E128. apply Qle_shift_div_r; lra. }
  rewrite <- div_spec in Fq. unfold int_of_float.
  destruct (Prim2SF (_ / d')%float); cbn in Fq; try contradiction;
    cbn; eauto.
Qed.

(** C8.  For every duration and audio bitrate, the bitrate computed for a
    target size is at least 300 kbps, and a larger target size never gives
    a smaller bitrate: with every operation rounded to binary64, as the
    code computes it.  And a bitrate is computed, no operation
    overflowing, for every target size from [-2^64] to [2^64] MB when the
    duration is at most [2^64] s and the audio bitrate is from 0 to below
    [2^63] kbps. *)
Theorem target_size_floor_and_monotone (d : float) (a : Z) :
  (forall (S : float) (v : Z),
      target_size_video_kbps S d a = Some v -> 300 <= v) /\
  (forall (S1 S2 : float) (v1 v2 : Z),
      PrimFloat.leb S1 S2 = true ->
      target_size_video_kbps S1 d a = Some v1 ->
      target_size_video_kbps S2 d a = Some v2 ->
      v1 <= v2) /\
  (PrimFloat.leb d 0x1p64%float = true -> 0 <= a < 2 ^ 63 ->
   forall S : float,
     PrimFloat.leb (-0x1p64)%float S = true ->
     PrimFloat.leb S 0x1p64%float = true ->
     exists v, target_size_video_kbps S d a = Some v).
Proof.
  split; [|split].
  - intros S v. unfold target_size_video_kbps.
    destruct (target_quotient S d a) as [q|]; [|discriminate].
    destruct (int_of_float q) as [n|]; cbn; [|discriminate].
    intros H. injection H as <-. apply Z.le_max_r.
  - intros S1 S2 v1 v2. apply target_size_monotone.
  - intros Hd Ha S HS1 HS2. now apply target_size_defined.
Qed.

Lemma target_size_floor_and_monotone_witness :
  PrimFloat.leb 10%float 50%float = true /\
  target_size_video_kbps 10%float 120%float 128 = Some 538 /\
  target_size_video_kbps 50%float 120%float 128 = Some 3205 /\
  300 <= 538 <= 3205.
Proof.
  split; [reflexivity|]. split; [vm_compute; reflexivity|].
  split; [vm_compute; reflexivity|]. split.
  - apply (proj1 (target_size_floor_and_monotone 120%float 128) 10%float).
    vm_compute. reflexivity.
  - apply (proj1 (proj2 (target_size_floor_and_monotone 120%float 128))
                 10%float 50%float); vm_compute; reflexivity.
Defined.

(** The floor is reached, and the bitrate is not strictly increasing: 1 MB
    and 2 MB over 1000 s both give 300 kbps. *)
Example target_size_plateau :
  target_size_video_kbps 1%float 1000%float 128 = Some 300 /\
  target_size_video_kbps 2%float 1000%float 128 = Some 300.
Proof. split; vm_compute; reflexivity. Qed.

End TargetSize.

(** ** GOP size *)

Section Gop.

Import ConversionWorker Scenario.

Lemma int_truthy_max_one (z : Z) : int_truthy (Some (Z.max 1 z)) = true.
Proof.
  unfold int_truthy. destruct (Z.eqb_spec (Z.max 1 z) 0); [lia | reflexivity].
Qed.

Lemma fps_pos_not_le (x : Q) : (0 < x)%Q -> Qle_bool x 0 = false.
Proof.
  intros H. destruct (Qle_bool x 0) eqn:E; [|reflexivity].
  apply Qle_bool_iff in E. exfalso. now apply (Qlt_not_le 0 x).
Qed.

(** A clamped interval is emitted, and it is at least 1. *)
Lemma gop_clamped_emitted (z : Z) :
  exists g, 1 <= g /\ Some (Z.max 1 z) = Some g /\
            (if int_truthy (Some (Z.max 1 z))
             then ["-g"; PyStr.of_Z (get_or (Some (Z.max 1 z)) 0)]
             else []) = ["-g"; PyStr.of_Z g].
Proof.
  exists (Z.max 1 z). rewrite int_truthy_max_one. cbn [get_or].
  repeat split. lia.
Qed.

(** C3, as amended.  For a source frame rate above 0: in the modes that
    derive the interval from the frame rate ([half_fps], [same_fps],
    [double_fps], [seconds]), and in every mode when the configured
    [gop_size] is absent or not negative, either no [-g] flag is emitted or
    the emitted interval is at least 1. *)
Theorem gop_size_at_least_one (config : JobConfig) (input_info : InputInfo) :
  (0 < _extract_source_fps input_info)%Q ->
  rate_relative (gop_mode_of config) = true \/
  (forall g0, gop_size config = Some g0 -> 0 <= g0) ->
  gop_args config input_info = [] \/
  exists g, 1 <= g /\
            _resolve_gop_size config input_info = Some g /\
            gop_args config input_info = ["-g"; PyStr.of_Z g].
Proof.
  intros Hfps Hcfg. unfold gop_args, _resolve_gop_size, gop_mode_of in *.
  rewrite (fps_pos_not_le _ Hfps). cbn [andb negb].
  set (mode := PyStr.lower (str_or (gop_mode config) "half_fps")) in *.
  unfold rate_relative, PyStr.in_list in Hcfg. cbn [existsb] in Hcfg.
  destruct (String.eqb mode "half_fps") eqn:E1;
    [right; apply gop_clamped_emitted|].
  destruct (String.eqb mode "same_fps") eqn:E2;
    [right; apply gop_clamped_emitted|].
  destruct (String.eqb mode "double_fps") eqn:E3;
    [right; apply gop_clamped_emitted|].
  destruct (String.eqb mode "seconds") eqn:E4;
    [right; apply gop_clamped_emitted|].
  cbn [andb orb] in *.
  destruct Hcfg as [Hcfg|Hnn]; [discriminate|].
  destruct (gop_size config) as [g0|];
    [|left; cbn; now destruct (String.eqb mode "custom")].
  specialize (Hnn g0 eq_refl). unfold int_truthy.
  destruct (Z.eqb_spec g0 0) as [->|Hne]; cbn [negb andb].
  - left. now destruct (String.eqb mode "custom").
  - right. exists g0.
    assert (Hres : (if andb (String.eqb mode "custom") true
                    then Some g0 else Some g0) = Some g0)
      by now destruct (String.eqb mode "custom").
    rewrite Hres. destruct (Z.eqb_spec g0 0); [contradiction|].
    cbn [negb get_or]. repeat split. lia.
Qed.

(** Scenario C: [half_fps] at 30 frames per second gives 15. *)
Lemma gop_size_at_least_one_witness :
  (0 < _extract_source_fps fps30_input)%Q /\
  _resolve_gop_size half_fps_config fps30_input = Some 15 /\
  (gop_args half_fps_config fps30_input = [] \/
   exists g, 1 <= g /\
             _resolve_gop_size half_fps_config fps30_input = Some g /\
             gop_args half_fps_config fps30_input = ["-g"; PyStr.of_Z g]).
Proof.
  split; [reflexivity|]. split; [reflexivity|].
  apply (gop_size_at_least_one half_fps_config fps30_input).
  - reflexivity.
  - left. reflexivity.
Defined.

(** C3 as stated fails for a negative configured interval: in mode
    [custom] it is returned and emitted as it is. *)
Lemma gop_size_custom_negative :
  (0 < _extract_source_fps fps30_input)%Q /\
  _resolve_gop_size custom_negative_config fps30_input = Some (-5) /\
  gop_args custom_negative_config fps30_input = ["-g"; "-5"] /\
  ~ 1 <= -5.
Proof. repeat split; lia. Qed.

End Gop.

(** ** Tune *)

Section Tune.

Import ConversionWorker Scenario.

(** An NVENC encoder never gets a tune. *)
Lemma tune_dropped_for_nvenc (encoder : string) (tune : option string) :
  PyStr.contains "nvenc" (PyStr.lower encoder) = true ->
  _map_encoder_tune encoder tune = None.
Proof.
  intros H. unfold _map_encoder_tune.
  destruct tune as [[|c r]|]; try reflexivity.
  rewrite H. now destruct (String.eqb _ "").
Qed.

(** For every other encoder a tune that is not blank is passed on. *)
Lemma tune_kept_otherwise (encoder : string) (tune : string) :
  PyStr.contains "nvenc" (PyStr.lower encoder) = false ->
  PyStr.lower (PyStr.strip tune) <> "" ->
  _map_encoder_tune encoder (Some tune) = Some tune.
Proof.
  intros H Hb. unfold _map_encoder_tune.
  destruct tune as [|c r]; [now elim Hb|].
  rewrite H. destruct (String.eqb_spec (PyStr.lower (PyStr.strip (String c r))) "");
    [contradiction | reflexivity].
Qed.

(** C7 fails on the code: with the hardware encoder [h264_qsv] selected by
    the detector, the requested tune [film] is still emitted. *)
Theorem tune_emitted_for_qsv :
  corrected_codecs film_config (FormatCompatibility.get_format_info "mp4")
                   "mp4" = ("h264", "aac") /\
  select_video_encoder qsv_detector film_config "h264" = "h264_qsv" /\
  _map_encoder_tune "h264_qsv" (video_tune film_config) = Some "film" /\
  tune_args "h264_qsv" film_config = ["-tune"; "film"].
Proof. repeat split. Qed.

(** The same for the other hardware encoders [get_encoder] can select. *)
Example tune_emitted_for_hardware_encoders :
  forallb (fun encoder =>
             match tune_args encoder film_config with
             | ["-tune"; "film"] => true
             | _ => false
             end)
          ["h264_qsv"; "h264_amf"; "h264_vaapi"; "h264_videotoolbox";
           "h264_vulkan"] = true /\
  tune_args "h264_nvenc" film_config = [].
Proof. split; reflexivity. Qed.

End Tune.

(** ** Job execution: cancellation and the temporary directory *)

Section Execution.

Import ConversionWorker JobExecutor Scenario.

Lemma signals_app (l1 l2 : list Effect) :
  signals (l1 ++ l2) = (signals l1 ++ signals l2)%list.
Proof. unfold signals. apply flat_map_app. Qed.

Lemma outcomes_app (l1 l2 : list Effect) :
  outcomes (l1 ++ l2) = (outcomes l1 ++ outcomes l2)%list.
Proof. unfold outcomes. rewrite signals_app. apply flat_map_app. Qed.

Lemma error_messages_app (l1 l2 : list Effect) :
  error_messages (l1 ++ l2) = (error_messages l1 ++ error_messages l2)%list.
Proof. unfold error_messages. rewrite signals_app. apply flat_map_app. Qed.

(** The reading loop only emits progress. *)
Lemma line_progress_quiet (line : string) (d : PrimFloat.float) :
  outcomes (line_progress line d) = [] /\
  error_messages (line_progress line d) = [].
Proof.
  unfold line_progress. destruct (time_search line) as [[[h m] sec]|].
  - destruct (PrimFloat.ltb _ d); split; reflexivity.
  - split; reflexivity.
Qed.

Lemma read_output_quiet (events : list OutputEvent) :
  forall (st : bool) (lines : list string) (d : PrimFloat.float),
    outcomes (emitted (read_output events st lines d)) = [] /\
    error_messages (emitted (read_output events st lines d)) = [].
Proof.
  induction events as [|[line| |exc] rest IH]; intros st lines d;
    cbn [read_output].
  - split; reflexivity.
  - destruct st; cbn [emitted]; [split; reflexivity|].
    rewrite outcomes_app, error_messages_app.
    destruct (line_progress_quiet line d) as [-> ->].
    apply IH.
  - apply IH.
  - split; reflexivity.
Qed.

(** The loop detects the cancellation exactly when a line arrives after
    the stop request. *)
Lemma read_output_cancelled (events : list OutputEvent) :
  forall (st : bool) (lines : list string) (d : PrimFloat.float),
    cancelled (read_output events st lines d) = line_after_stop events st.
Proof.
  induction events as [|[line| |exc] rest IH]; intros st lines d;
    cbn [read_output line_after_stop].
  - reflexivity.
  - destruct st; cbn [cancelled]; [reflexivity | apply IH].
  - apply IH.
  - reflexivity.
Qed.

(** The loop ends with the first exception raised before it notices a
    stop request. *)
Lemma read_output_raised (events : list OutputEvent) :
  forall (st : bool) (lines : list string) (d : PrimFloat.float),
    raised (read_output events st lines d) = read_error events st.
Proof.
  induction events as [|[line| |exc] rest IH]; intros st lines d;
    cbn [read_output read_error].
  - reflexivity.
  - destruct st; cbn [raised]; [reflexivity | apply IH].
  - apply IH.
  - reflexivity.
Qed.

(** A loop that notices a stop request has not been ended by an
    exception. *)
Lemma stop_seen_no_read_error (events : list OutputEvent) :
  forall st : bool,
    line_after_stop events st = true -> read_error events st = None.
Proof.
  induction events as [|[line| |exc] rest IH]; intros st;
    cbn [line_after_stop read_error].
  - reflexivity.
  - destruct st; [reflexivity | apply IH].
  - apply IH.
  - discriminate.
Qed.

(** When a line arrives after the stop request, the job is reported as
    cancelled and no [error] signal is emitted. *)
Lemma stop_seen_reports_cancelled (w : World) (fs : TempFileManager.FS) :
  child_started w ->
  line_after_stop (output w) (stop_before_start w) = true ->
  outcomes (fst (run w fs)) = [Cancelled] /\
  error_messages (fst (run w fs)) = [].
Proof.
  intros (Hmk & Hin & Hout & Hprobe & Hbuild & Hpopen) Hseen.
  unfold run, TempFileManager.create_temp_dir. rewrite Hmk. cbn [fst].
  unfold run_body.
  destruct (input_file w) as [inp|] eqn:Ei; [|congruence].
  destruct (output_file w) as [out|] eqn:Eo; [|congruence].
  destruct (probe w) as [info|] eqn:Ep; [|congruence].
  rewrite Hbuild. unfold _execute_conversion. rewrite Hpopen.
  rewrite read_output_raised, (stop_seen_no_read_error _ _ Hseen).
  rewrite read_output_cancelled, Hseen.
  set (r := read_output _ _ _ _).
  change (?a :: ?b :: ?c :: ?l)%list with ([a; b; c] ++ l)%list.
  rewrite <- !app_assoc.
  destruct (read_output_quiet (output w) (stop_before_start w) []
              (duration info)) as [Ho He].
  fold r in Ho, He.
  rewrite !outcomes_app, !error_messages_app, Ho, He.
  split; reflexivity.
Qed.

(** Stripping keeps a first character that is not white space. *)
Lemma strip_head (c : ascii) (r : string) :
  PyStr.is_space c = false -> exists r', PyStr.strip (String c r) = String c r'.
Proof.
  intros Hc. unfold PyStr.strip. cbn [PyStr.lstrip]. rewrite Hc.
  cbn [PyStr.rstrip]. rewrite Hc. destruct (PyStr.rstrip r); eauto.
Qed.

(** The message of a non-zero exit starts with [ffmpeg]; it is neither
    empty nor the cancellation message. *)
Lemma exit_message_shape (rc : Z) (tail : string) :
  exists r,
    (if String.eqb tail ""
     then PyStr.strip ("ffmpeg exited with code " ++ PyStr.of_Z rc)
     else PyStr.strip ("ffmpeg exited with code " ++ PyStr.of_Z rc)
          ++ nl ++ tail) = String "f" r.
Proof.
  change ("ffmpeg exited with code " ++ PyStr.of_Z rc)
    with (String "f" ("fmpeg exited with code " ++ PyStr.of_Z rc)).
  destruct (strip_head "f" ("fmpeg exited with code " ++ PyStr.of_Z rc)
                       eq_refl) as [r ->].
  destruct (String.eqb tail ""); cbn [append]; eauto.
Qed.


(** X18.  What a run reports once the child has been started.  When reading
    the output raises before a stop request is noticed, the run fails
    with the text of the exception, which is also the message of the
    [error] signal (a text equal to the cancellation message is reported
    as a cancellation, and an empty text gives no [error] signal).
    Otherwise the run is cancelled exactly when a line was read after the
    stop request, and else succeeds or fails by the exit code; the [error]
    signal goes with the failure. *)
Lemma started_run_outcome (w : World) (fs : TempFileManager.FS) :
  child_started w ->
  match read_error (output w) (stop_before_start w) with
  | Some exc =>
      outcomes (fst (run w fs)) =
      [if String.eqb exc "Conversion cancelled" then Cancelled else Failed] /\
      error_messages (fst (run w fs)) =
      (if orb (String.eqb exc "") (String.eqb exc "Conversion cancelled")
       then [] else [exc])
  | None =>
      outcomes (fst (run w fs)) =
      [if line_after_stop (output w) (stop_before_start w) then Cancelled
       else if Z.eqb (returncode w) 0 then Succeeded else Failed] /\
      (error_messages (fst (run w fs)) = [] <->
       line_after_stop (output w) (stop_before_start w) = true \/
       returncode w = 0)
  end.
Proof.
  intros Hstarted.
  destruct (line_after_stop (output w) (stop_before_start w)) eqn:Hseen.
  { rewrite (stop_seen_no_read_error _ _ Hseen).
    destruct (stop_seen_reports_cancelled w fs Hstarted Hseen) as [-> ->].
    split; [reflexivity | tauto]. }
  destruct Hstarted as (Hmk & Hin & Hout & Hprobe & Hbuild & Hpopen).
  unfold run, TempFileManager.create_temp_dir. rewrite Hmk. cbn [fst].
  unfold run_body.
  destruct (input_file w) as [inp|] eqn:Ei; [|congruence].
  destruct (output_file w) as [out|] eqn:Eo; [|congruence].
  destruct (probe w) as [info|] eqn:Ep; [|congruence].
  rewrite Hbuild. unfold _execute_conversion. rewrite Hpopen.
  rewrite read_output_raised, read_output_cancelled, Hseen.
  destruct (read_output_quiet (output w) (stop_before_start w) []
              (duration info)) as [Ho He].
  set (r := read_output _ _ _ _) in *.
  change (?a :: ?b :: ?c :: ?l)%list with ([a; b; c] ++ l)%list.
  destruct (read_error (output w) (stop_before_start w)) as [exc|].
  - rewrite <- !app_assoc, !outcomes_app, !error_messages_app, Ho, He.
    destruct (String.eqb_spec exc "") as [->|Hne]; [split; reflexivity|].
    cbn [negb andb orb app].
    destruct (String.eqb exc "Conversion cancelled") eqn:Hc;
      cbn [negb app outcomes error_messages signals flat_map outcome_of];
      rewrite ?Hc; split; reflexivity.
  - destruct (Z.eqb_spec (returncode w) 0) as [Hrc|Hrc].
    + rewrite <- !app_assoc, !outcomes_app, !error_messages_app, Ho, He.
      split; [reflexivity|]. cbn. tauto.
    + destruct (exit_message_shape (returncode w)
                  (PyStr.join nl (last20 (output_lines r)))) as [m ->].
      rewrite <- !app_assoc, !outcomes_app, !error_messages_app, Ho, He.
      split; [reflexivity|]. cbn. split; [discriminate|].
      intros [H|H]; [discriminate | contradiction].
Qed.

Lemma started_run_outcome_witness :
  child_started Scenario.undecodable_output /\
  outcomes (fst (run Scenario.undecodable_output Scenario.no_files))
  = [Failed] /\
  error_messages (fst (run Scenario.undecodable_output Scenario.no_files))
  = ["'utf-8' codec can't decode byte 0xff in position 0: " ++
     "invalid start byte"].
Proof.
  assert (H : child_started Scenario.undecodable_output)
    by (repeat split; discriminate).
  split; [exact H|].
  exact (started_run_outcome Scenario.undecodable_output
                             Scenario.no_files H).
Defined.

(** C5 fails on the code: a stop request that is not followed by another
    output line is not noticed by the loop; the job is reported as failed
    and the [error] signal is emitted. *)
Theorem stop_without_later_line_is_failure :
  child_started stopped_silently /\
  stop_requested stopped_silently = true /\
  outcomes (fst (run stopped_silently no_files)) = [Failed] /\
  error_messages (fst (run stopped_silently no_files)) =
  ["ffmpeg exited with code 1" ++ nl ++
   "frame=  360 fps=0.0 time=00:00:12.00 bitrate=3205.0kbits/s"].
Proof.
  split; [|repeat split; vm_compute; reflexivity].
  unfold child_started, stopped_silently; cbn.
  repeat split; congruence.
Qed.

(** The same child, when one more line is read after the stop request. *)
Example stop_with_later_line_is_cancelled :
  let w := mkWorld "/tmp/chunmediaconv/session" "0001" None
             (Some "in.mkv") (Some "out.mp4") (Some sample_input) None None
             false
             [Line "frame=  360 fps=0.0 time=00:00:12.00"; StopRequest;
              Line "Exiting normally, received signal 15."]
             255 true in
  outcomes (fst (run w no_files)) = [Cancelled] /\
  error_messages (fst (run w no_files)) = [].
Proof. split; vm_compute; reflexivity. Qed.

Lemma execute_quiet (w : World) (d : PrimFloat.float) :
  outcomes (snd (_execute_conversion w d)) = [] /\
  error_messages (snd (_execute_conversion w d)) = [].
Proof.
  unfold _execute_conversion.
  destruct (popen_error w); [split; reflexivity|].
  destruct (raised _); [apply read_output_quiet|].
  destruct (cancelled _); [apply read_output_quiet|].
  destruct (Z.eqb _ 0); apply read_output_quiet.
Qed.

Lemma outcome_of_finished (success : bool) (m : string) :
  exists o, outcomes [Emit (finished success m)] = [o].
Proof.
  destruct success; cbn; [now exists Succeeded|].
  destruct (String.eqb m "Conversion cancelled");
    [now exists Cancelled | now exists Failed].
Qed.

Lemma on_exception_reports_once (e : string) :
  exists o, outcomes (on_exception e) = [o].
Proof. apply (outcome_of_finished false e). Qed.

(** Every run ends with exactly one [finished] signal, whatever the world
    does. *)
Lemma run_reports_once (w : World) (fs : TempFileManager.FS) :
  exists o, outcomes (fst (run w fs)) = [o].
Proof.
  unfold run, TempFileManager.create_temp_dir.
  destruct (mkdir_error w) as [e|]; cbn [fst];
    [apply on_exception_reports_once|].
  rewrite outcomes_app. change (outcomes [Cleanup _]) with (@nil Outcome).
  rewrite app_nil_r. unfold run_body.
  destruct (input_file w); [|apply on_exception_reports_once].
  destruct (output_file w) as [out|]; [|apply on_exception_reports_once].
  destruct (probe w) as [info|]; [|now exists Failed].
  destruct (build_error w) as [e|]; [apply on_exception_reports_once|].
  destruct (execute_quiet w (duration info)) as [Hq _].
  destruct (_execute_conversion w (duration info)) as [[success m] em].
  cbn [snd] in Hq.
  change (?a :: ?b :: ?c :: ?l)%list with ([a; b; c] ++ l)%list.
  rewrite !outcomes_app, Hq. cbn [app].
  change (outcomes [_; _; _]) with (@nil Outcome). cbn [app].
  destruct success; [now exists Succeeded|].
  rewrite outcomes_app.
  assert (Hnone : forall c, outcomes (if c : bool then [Emit (error m)] else [])
                            = []) by (now intros []).
  rewrite Hnone. apply outcome_of_finished.
Qed.

(** C9, as amended.  On every run that created its temporary directory,
    whatever the outcome, the last thing the job does is to call
    [cleanup_file] on that directory; afterwards the directory is gone
    exactly when the removal itself went through, since a removal that
    raises is swallowed and leaves the directory in place. *)
Theorem temp_dir_cleanup_attempted (w : World) (fs : TempFileManager.FS) :
  mkdir_error w = None ->
  (exists body o,
      fst (run w fs) =
      (body ++ [Cleanup (session_dir w ++ "/" ++ "job_" ++ uuid w)])%list /\
      outcomes body = [o]) /\
  TempFileManager.exists_ (snd (run w fs))
    (session_dir w ++ "/" ++ "job_" ++ uuid w) = negb (removal_ok w).
Proof.
  intros Hmk. pose proof (run_reports_once w fs) as [o Ho]. revert Ho.
  unfold run, TempFileManager.create_temp_dir. rewrite Hmk. cbn [fst snd].
  intros Ho. split.
  - exists (run_body w), o. split; [reflexivity|].
    rewrite outcomes_app in Ho.
    change (outcomes [Cleanup _]) with (@nil Outcome) in Ho.
    now rewrite app_nil_r in Ho.
  - unfold TempFileManager.cleanup_file, TempFileManager.exists_,
      TempFileManager.write.
    rewrite String.eqb_refl. destruct (removal_ok w); cbn.
    + now rewrite String.eqb_refl.
    + now rewrite String.eqb_refl.
Qed.

Lemma temp_dir_cleanup_attempted_witness :
  mkdir_error removal_fails = None /\
  TempFileManager.exists_ (snd (run removal_fails no_files))
    (session_dir removal_fails ++ "/" ++ "job_" ++ uuid removal_fails)
  = negb (removal_ok removal_fails).
Proof.
  split; [reflexivity|].
  apply (proj2 (temp_dir_cleanup_attempted removal_fails no_files eq_refl)).
Defined.

(** C9 as stated fails when the removal raises: the job has ended, with
    success, and its directory is still there. *)
Lemma temp_dir_left_behind :
  outcomes (fst (run removal_fails no_files)) = [Succeeded] /\
  TempFileManager.exists_ (snd (run removal_fails no_files))
    "/tmp/chunmediaconv/session/job_0002" = true.
Proof. split; vm_compute; reflexivity. Qed.

End Execution.

(** ** Dictionaries *)

Section DictFacts.

Context {V : Type}.
Implicit Types (d : PyDict.t V) (k x : string) (v : V).

Lemma set_length d k v :
  (List.length (PyDict.set d k v) <= S (List.length d))%nat.
Proof.
  induction d as [|[k' v'] r IH]; cbn; [lia|].
  destruct (String.eqb k k'); cbn; lia.
Qed.

Lemma remove_length d k :
  (List.length (PyDict.remove d k) <= List.length d)%nat.
Proof.
  induction d as [|[k' v'] r IH]; cbn; [lia|].
  destruct (String.eqb k k'); cbn; lia.
Qed.

Lemma popitem_last d kv rest :
  PyDict.popitem d = Some (kv, rest) -> d = (rest ++ [kv])%list.
Proof.
  unfold PyDict.popitem. destruct (rev d) as [|kv' r] eqn:E; [discriminate|].
  intros H. injection H as <- <-.
  rewrite <- (rev_involutive d), E. reflexivity.
Qed.

Lemma popitem_none d : PyDict.popitem d = None -> d = [].
Proof.
  unfold PyDict.popitem. destruct (rev d) as [|kv' r] eqn:E; [|discriminate].
  intros _. rewrite <- (rev_involutive d), E. reflexivity.
Qed.

Lemma keys_set d k v :
  (In k (PyDict.keys d) /\ PyDict.keys (PyDict.set d k v) = PyDict.keys d) \/
  (~ In k (PyDict.keys d) /\
   PyDict.keys (PyDict.set d k v) = (PyDict.keys d ++ [k])%list).
Proof.
  induction d as [|[k' v'] r IH]; cbn.
  - right. split; [tauto | reflexivity].
  - destruct (String.eqb_spec k k') as [->|Hne]; cbn.
    + left. split; [now left | reflexivity].
    + destruct IH as [[Hin Heq]|[Hnin Heq]].
      * left. split; [now right | now f_equal].
      * right. split; [intros [H|H]; [congruence | contradiction]
                      | now f_equal].
Qed.

Lemma NoDup_keys_set d k v :
  NoDup (PyDict.keys d) -> NoDup (PyDict.keys (PyDict.set d k v)).
Proof.
  intros Hnd. destruct (keys_set d k v) as [[_ ->]|[Hnin ->]]; [assumption|].
  apply NoDup_app; [assumption | repeat constructor; cbn; tauto |].
  intros x Hx [<-|[]]. contradiction.
Qed.

Lemma In_keys_set d k v x :
  In x (PyDict.keys (PyDict.set d k v)) <-> In x (PyDict.keys d) \/ x = k.
Proof.
  destruct (keys_set d k v) as [[Hin ->]|[Hnin ->]].
  - split; [tauto | intros [H| ->]; assumption].
  - rewrite in_app_iff. cbn. split; intros [H|H]; auto.
    destruct H as [<-|[]]; auto.
Qed.

Lemma In_keys_remove d k x :
  In x (PyDict.keys (PyDict.remove d k)) -> In x (PyDict.keys d).
Proof.
  induction d as [|[k' v'] r IH]; cbn; [tauto|].
  destruct (String.eqb k k'); cbn; tauto.
Qed.

Lemma In_keys_remove_other d k x :
  In x (PyDict.keys d) -> x <> k -> In x (PyDict.keys (PyDict.remove d k)).
Proof.
  induction d as [|[k' v'] r IH]; cbn; [tauto|].
  intros [<-|Hin] Hne.
  - destruct (String.eqb_spec k k'); [congruence | now left].
  - destruct (String.eqb k k'); [assumption | right; auto].
Qed.

Lemma NoDup_keys_remove d k :
  NoDup (PyDict.keys d) -> NoDup (PyDict.keys (PyDict.remove d k)).
Proof.
  induction d as [|[k' v'] r IH]; cbn; [auto|].
  intros Hnd. inversion Hnd as [|? ? Hnin Hnd']; subst.
  destruct (String.eqb k k'); cbn; [assumption|].
  constructor; [|auto]. intros H. apply Hnin. eapply In_keys_remove; eauto.
Qed.

Lemma not_In_keys_remove d k :
  NoDup (PyDict.keys d) -> ~ In k (PyDict.keys (PyDict.remove d k)).
Proof.
  induction d as [|[k' v'] r IH]; cbn; [tauto|].
  intros Hnd. inversion Hnd as [|? ? Hnin Hnd']; subst.
  destruct (String.eqb_spec k k') as [->|Hne]; cbn; [assumption|].
  intros [H|H]; [congruence | now apply IH].
Qed.

End DictFacts.

(** ** The scheduler *)

Section SchedulerFacts.

Import MainWindow.

Variable N : Z.
Variable path : string.
Variable m : HardwareDetector.Machine.
Variable comp : bool.

Lemma same_jobs_inv (s s' : State) :
  same_jobs s s' -> bounded N s /\ consistent s -> bounded N s' /\ consistent s'.
Proof.
  unfold same_jobs, bounded, consistent. intros [-> ->]. tauto.
Qed.

Lemma initialize_hardware_same (s : State) :
  conversion_queue (fst (initialize_hardware path m s)) = conversion_queue s /\
  ui (fst (initialize_hardware path m s)) = ui s /\
  next_object (fst (initialize_hardware path m s)) = next_object s /\
  same_jobs s (fst (initialize_hardware path m s)).
Proof.
  unfold initialize_hardware, same_jobs.
  destruct (String.eqb path ""); [cbn; auto|].
  destruct (HardwareDetector.detect m (HardwareDetector.init path)); cbn; auto.
Qed.

Lemma create_conversion_job_same (s : State) :
  conversion_queue (fst (create_conversion_job path m s)) = conversion_queue s /\
  ui (fst (create_conversion_job path m s)) = ui s /\
  same_jobs s (fst (create_conversion_job path m s)).
Proof.
  unfold create_conversion_job.
  destruct (hw_detector s).
  - cbn. unfold same_jobs. auto.
  - destruct (initialize_hardware_same s) as (Hq & Hu & _ & Hj).
    destruct (initialize_hardware path m s) as [s1 ready]. cbn [fst] in *.
    destruct ready; cbn; unfold same_jobs in *; tauto.
Qed.

(** One call of [process_next_in_queue] leaves the active set as it is or
    assigns one key; it never touches the recorded progress. *)
Lemma process_next_jobs (s : State) :
  progress_values (process_next_in_queue path m s) = progress_values s /\
  (active_conversions (process_next_in_queue path m s) = active_conversions s
   \/ exists k v,
       active_conversions (process_next_in_queue path m s) =
       PyDict.set (active_conversions s) k v).
Proof.
  unfold process_next_in_queue.
  destruct (conversion_queue s) as [|input_file rest].
  - destruct (active_conversions s) eqn:E; cbn; auto.
  - set (s1 := mkState rest _ _ _ _ _).
    destruct (create_conversion_job_same s1) as (_ & _ & Ha & Hp).
    destruct (create_conversion_job path m s1) as [s2 [worker|]];
      cbn [fst] in *; cbn.
    + rewrite Ha, Hp. cbn. split; [reflexivity|]. right. eauto.
    + rewrite Ha, Hp. cbn. auto.
Qed.

Lemma process_next_consistent (s : State) :
  consistent s -> consistent (process_next_in_queue path m s).
Proof.
  unfold consistent. intros (Ha & Hp & Hincl).
  destruct (process_next_jobs s) as [-> [-> | (k & v & ->)]]; [tauto|].
  split; [now apply NoDup_keys_set|]. split; [assumption|].
  intros x Hx. apply In_keys_set. left. now apply Hincl.
Qed.

Lemma process_next_bounded (s : State) :
  slot_free N s = true -> bounded N (process_next_in_queue path m s).
Proof.
  unfold slot_free, bounded. intros H. apply andb_prop in H as [_ H].
  apply Z.ltb_lt in H.
  destruct (process_next_jobs s) as [_ [-> | (k & v & ->)]]; [lia|].
  pose proof (set_length (active_conversions s) k v). lia.
Qed.

Lemma fill_loop_inv (n : nat) :
  forall s, bounded N s /\ consistent s ->
            bounded N (fill_loop N path m n s) /\
            consistent (fill_loop N path m n s).
Proof.
  induction n as [|n IH]; intros s [Hb Hc]; cbn [fill_loop]; [tauto|].
  destruct (slot_free N s) eqn:Hfree; [|tauto].
  apply IH. split; [now apply process_next_bounded
                   | now apply process_next_consistent].
Qed.

Lemma find_worker_In (d : PyDict.t (nat * nat)) (w : nat) key thr :
  find_worker d w = Some (key, thr) -> In key (PyDict.keys d).
Proof.
  induction d as [|[k [t w']] r IH]; cbn; [discriminate|].
  destruct (Nat.eqb w' w); [|auto].
  intros H. injection H as <- <-. now left.
Qed.

Lemma release_worker_inv (sender : option nat) (s : State) :
  bounded N s /\ consistent s ->
  bounded N (release_worker sender s) /\ consistent (release_worker sender s).
Proof.
  unfold bounded, consistent, release_worker. intros (Hb & Ha & Hp & Hincl).
  destruct (match sender with
            | Some worker => find_worker (active_conversions s) worker
            | None => None
            end) as [[key thr]|].
  - cbn. pose proof (remove_length (active_conversions s) key).
    split; [lia|]. split; [now apply NoDup_keys_remove|].
    split; [now apply NoDup_keys_remove|].
    intros x Hx. apply In_keys_remove_other.
    + apply Hincl. eapply In_keys_remove; eauto.
    + intros ->. now apply (not_In_keys_remove (progress_values s) key).
  - destruct (PyDict.popitem (active_conversions s))
      as [[[key [thr w]] rest]|] eqn:Hpop; cbn; [|tauto].
    apply popitem_last in Hpop. rewrite Hpop in *.
    unfold PyDict.keys in Ha, Hincl. rewrite map_app in Ha, Hincl.
    cbn in Ha, Hincl. rewrite length_app in Hb. cbn in Hb.
    split; [lia|]. split; [now apply NoDup_app_remove_r in Ha|].
    split; [now apply NoDup_keys_remove|].
    intros x Hx. assert (Hx' := Hx). apply In_keys_remove in Hx'.
    apply Hincl in Hx'. apply in_app_iff in Hx' as [H|[<-|[]]]; [exact H|].
    exfalso. now apply (not_In_keys_remove (progress_values s) key).
Qed.

Lemma on_conversion_progress_inv (sender : nat) (p : PrimFloat.float)
    (s : State) :
  bounded N s /\ consistent s ->
  bounded N (on_conversion_progress comp sender p s) /\
  consistent (on_conversion_progress comp sender p s).
Proof.
  unfold bounded, consistent, on_conversion_progress. cbn.
  intros (Hb & Ha & Hp & Hincl). split; [assumption|]. split; [assumption|].
  destruct (find_worker (active_conversions s) sender) as [[key thr]|] eqn:Hf;
    [|tauto].
  split; [now apply NoDup_keys_set|].
  intros x Hx. apply In_keys_set in Hx as [Hx| ->]; [auto|].
  eapply find_worker_In; eauto.
Qed.

Lemma init_inv : bounded N init /\ consistent init.
Proof.
  unfold bounded, consistent, max_parallel. cbn.
  repeat split; try constructor; try lia. intros x [].
Qed.

Lemma handle_inv (e : Event) (s : State) :
  bounded N s /\ consistent s ->
  bounded N (handle N path m comp e s) /\ consistent (handle N path m comp e s).
Proof.
  intros H. destruct e as [files| |ok| | |w p|w ok msg]; cbn [handle].
  - apply (same_jobs_inv s); [split; reflexivity | assumption].
  - apply (same_jobs_inv s); [split; reflexivity | assumption].
  - unfold start_conversion. destruct (conversion_queue s);
      [apply (same_jobs_inv s); [split; reflexivity | assumption]|].
    destruct ok; [|apply (same_jobs_inv s); [split; reflexivity | assumption]].
    apply fill_loop_inv.
    apply (same_jobs_inv s); [split; reflexivity | assumption].
  - unfold bounded, consistent, stop_conversion, max_parallel. cbn.
    repeat split; try constructor; try lia. intros x [].
  - apply (same_jobs_inv s); [apply initialize_hardware_same | assumption].
  - now apply on_conversion_progress_inv.
  - unfold on_conversion_finished.
    pose proof (release_worker_inv w s H) as H1.
    destruct ok; [now apply fill_loop_inv|].
    destruct (String.eqb _ "Conversion cancelled"); [assumption|].
    eapply same_jobs_inv; [|exact H1]. split; reflexivity.
Qed.

(** Every state the scheduler passes through is bounded and consistent. *)
Lemma reachable_inv (s : State) :
  reachable N path m comp s -> bounded N s /\ consistent s.
Proof.
  induction 1 as [|e s _ IH|l s _ IH|sender s _ IH|s _ IH Hfree].
  - apply init_inv.
  - now apply handle_inv.
  - eapply same_jobs_inv; [|exact IH]. split; reflexivity.
  - now apply release_worker_inv.
  - split; [now apply process_next_bounded
           | now apply process_next_consistent].
Qed.


(** In every state the scheduler passes through, for every configured
    limit [N], every queue and every sequence of arrivals, progress and
    terminal events, the dictionary [active_conversions] holds at most
    [max(1, N)] entries. *)
Lemma active_set_within_limit (s : State) :
  reachable N path m comp s ->
  Z.of_nat (List.length (active_conversions s)) <= Z.max 1 N.
Proof. intros H. now apply reachable_inv in H as [Hb _]. Qed.








(** C10.  When the queue is not empty and no worker can be created (the
    engine has no detector yet and either no ffmpeg path is configured or
    hardware detection reports failure), [process_next_in_queue] has taken
    the job from the queue before it asks for the worker, and then returns:
    the job is not put back, the active set and the recorded progress are
    unchanged, no thread or worker exists for it, and the only things shown
    are the removal from the list widget and the error dialog. *)
Theorem failed_creation_drops_job (s : State) (job : string)
    (rest : list string) :
  conversion_queue s = job :: rest ->
  hw_detector s = None ->
  path = "" \/
  snd (HardwareDetector.detect m (HardwareDetector.init path)) = false ->
  (exists s1,
      conversion_queue s1 = rest /\
      snd (create_conversion_job path m s1) = None /\
      process_next_in_queue path m s =
      show (fst (create_conversion_job path m s1))
           [MessageBox "critical" "Error" "Failed to create conversion job"])
  /\
  conversion_queue (process_next_in_queue path m s) = rest /\
  active_conversions (process_next_in_queue path m s) = active_conversions s /\
  progress_values (process_next_in_queue path m s) = progress_values s /\
  next_object (process_next_in_queue path m s) = next_object s /\
  ui (process_next_in_queue path m s) =
  (ui s ++ [QueueListTakeItem;
            MessageBox "critical" "Error" "Failed to create conversion job"])
  %list.
Proof.
  intros Hq Hhw Hfail.
  set (s1 := mkState rest (active_conversions s) (progress_values s)
                     (hw_detector s) (next_object s)
                     (ui s ++ [QueueListTakeItem])).
  assert (Hnone : create_conversion_job path m s1 = (s1, None) \/
                  exists hw, create_conversion_job path m s1 =
                             (mkState rest (active_conversions s)
                                      (progress_values s) (Some hw)
                                      (next_object s)
                                      (ui s ++ [QueueListTakeItem]), None)).
  { unfold create_conversion_job, initialize_hardware. cbn [hw_detector s1].
    rewrite Hhw. destruct (String.eqb_spec path "") as [->|Hne].
    - now left.
    - destruct Hfail as [->|Hdet]; [contradiction|].
      destruct (HardwareDetector.detect m (HardwareDetector.init path))
        as [hw ok]. cbn in Hdet. subst ok. right. now exists hw. }
  assert (Hstep : process_next_in_queue path m s =
                  show (fst (create_conversion_job path m s1))
                       [MessageBox "critical" "Error"
                                   "Failed to create conversion job"]).
  { unfold process_next_in_queue. rewrite Hq. fold s1.
    destruct Hnone as [->|[hw ->]]; reflexivity. }
  split.
  - exists s1. split; [reflexivity|]. split; [|exact Hstep].
    destruct Hnone as [->|[hw ->]]; reflexivity.
  - rewrite Hstep.
    destruct Hnone as [->|[hw ->]]; cbn; rewrite <- app_assoc; auto.
Qed.

(** The loop of [fill_conversion_slots] has run to its end: the queue is
    empty or the active set is full. *)
Lemma process_next_queue (s : State) :
  conversion_queue (process_next_in_queue path m s) = tl (conversion_queue s).
Proof.
  unfold process_next_in_queue.
  destruct (conversion_queue s) as [|input_file rest] eqn:E.
  - destruct (active_conversions s); cbn; exact E.
  - set (s1 := mkState rest _ _ _ _ _).
    destruct (create_conversion_job_same s1) as (Hq & _).
    destruct (create_conversion_job path m s1) as [s2 [worker|]];
      cbn [fst] in *; cbn; exact Hq.
Qed.

Lemma fill_loop_done (n : nat) :
  forall s, (List.length (conversion_queue s) <= n)%nat ->
            slot_free N (fill_loop N path m n s) = false.
Proof.
  induction n as [|n IH]; intros s Hlen; cbn [fill_loop].
  - unfold slot_free. destruct (conversion_queue s); [reflexivity|].
    cbn in Hlen. lia.
  - destruct (slot_free N s) eqn:Hfree; [|assumption].
    apply IH. rewrite process_next_queue.
    destruct (conversion_queue s); cbn in *; lia.
Qed.

Lemma fill_conversion_slots_done (s : State) :
  slot_free N (fill_conversion_slots N path m s) = false.
Proof. apply fill_loop_done. apply Nat.le_refl. Qed.

End SchedulerFacts.

Section SchedulerScenarios.

Import PrimFloat MainWindow Scenario Observations.

(** Scenario D: with [N = 2] and three files queued, two jobs are active
    right after the start and the third waits; it starts when one of the
    two reports success. *)
Example two_of_three_active :
  let s := run_events 2 "ffmpeg" intel_machine true three_queued init in
  PyDict.keys (active_conversions s) = ["a.mkv"; "b.mkv"] /\
  conversion_queue s = ["c.mkv"] /\
  let s' := handle 2 "ffmpeg" intel_machine true
              (WorkerFinished (Some 0%nat) true "a.mp4") s in
  PyDict.keys (active_conversions s') = ["b.mkv"; "c.mkv"] /\
  conversion_queue s' = [].
Proof. vm_compute. repeat split. Qed.




(** A job that is active but has not reported yet is not counted. *)
Example unreported_job_not_counted :
  let s := run_events 2 "ffmpeg" intel_machine true three_queued init in
  let s' := on_conversion_progress true 0 50%float s in
  PyDict.keys (active_conversions s') = ["a.mkv"; "b.mkv"] /\
  PyDict.keys (progress_values s') = ["a.mkv"] /\
  last (ui s') QueueListClear = ProgressBarSetValue 50.
Proof. vm_compute. repeat split. Qed.

(** The mean is rounded before it is truncated: two jobs at 13 - 2^-49
    and at 13 have a mean below 13, and the bar is set to 13, whichever
    way the interpreter sums. *)
Example mean_rounds_up_to_integer :
  let s := run_events 2 "ffmpeg" intel_machine true three_queued init in
  forall comp : bool,
    let s' := on_conversion_progress comp 2 13%float
                (on_conversion_progress comp 0 0x1.9ffffffffffffp+3%float s) in
    PyDict.values (progress_values s')
    = [0x1.9ffffffffffffp+3%float; 13%float] /\
    last (ui s') QueueListClear = ProgressBarSetValue 13.
Proof. cbv zeta. intros []; vm_compute; repeat split. Qed.

(** A fraction that is not a number leaves the bar as it is. *)
Example nan_progress_sets_nothing :
  let s' := on_conversion_progress true 0 PrimFloat.nan one_running in
  PyDict.keys (progress_values s') = ["a.mkv"] /\
  ui s' = ui one_running.
Proof. vm_compute. repeat split. Qed.

Lemma failed_creation_drops_job_witness :
  conversion_queue before_detection = ["a.mkv"; "b.mkv"] /\
  hw_detector before_detection = None /\
  snd (HardwareDetector.detect cpu_only_machine
         (HardwareDetector.init "ffmpeg")) = false /\
  conversion_queue (process_next_in_queue "ffmpeg" cpu_only_machine
                      before_detection) = ["b.mkv"] /\
  active_conversions (process_next_in_queue "ffmpeg" cpu_only_machine
                        before_detection) = [].
Proof.
  split; [reflexivity|]. split; [reflexivity|]. split; [reflexivity|].
  pose proof (failed_creation_drops_job "ffmpeg" cpu_only_machine
                before_detection "a.mkv" ["b.mkv"] eq_refl eq_refl
                (or_intror eq_refl)) as (_ & Hq & Ha & _).
  split; [exact Hq | exact Ha].
Defined.

(** On that machine the first job of a run is lost and the second one
    starts, since the failed initialisation has left a detector behind. *)
Example first_job_lost_second_runs :
  let s := handle 2 "ffmpeg" cpu_only_machine true (StartConversion true)
             before_detection in
  conversion_queue s = [] /\
  PyDict.keys (active_conversions s) = ["b.mkv"] /\
  ui s = [QueueListAddItem "a.mkv"; QueueListAddItem "b.mkv";
          SetButtons false true;
          QueueListTakeItem;
          MessageBox "critical" "Error" "Failed to create conversion job";
          QueueListTakeItem; ThreadStart 1 0 "b.mkv"].
Proof. vm_compute. repeat split. Qed.

(** Without an ffmpeg path no detector is ever created: the loop of
    [fill_conversion_slots] takes every queued job and loses it. *)
Example every_job_lost_without_ffmpeg :
  let s := run_events 2 "" cpu_only_machine true three_queued init in
  conversion_queue s = [] /\
  active_conversions s = [] /\
  List.length (filter (fun e => match e with
                                | MessageBox "critical" _ _ => true
                                | _ => false
                                end) (ui s)) = 3%nat.
Proof. vm_compute. repeat split. Qed.

End SchedulerScenarios.

(** * Further properties of the code *)

(** ** Format compatibility *)

Section FormatFacts.

Import FormatCompatibility FormatQueries.

Lemma get_In {V} (d : PyDict.t V) (k : string) (v : V) :
  PyDict.get d k = Some v -> In (k, v) d.
Proof.
  induction d as [|[k' v'] r IH]; cbn; [discriminate|].
  destruct (String.eqb_spec k k') as [->|Hne].
  - intros H. injection H as ->. now left.
  - intros H. right. auto.
Qed.

(** Resolving a second time changes nothing. *)
Lemma fallback_component_fixed (req : string) (allowed : list string) :
  let chosen := if andb (negb (PyStr.in_list req allowed)) (truthy allowed)
                then hd req allowed else req in
  (if andb (negb (PyStr.in_list chosen allowed)) (truthy allowed)
   then hd chosen allowed else chosen) = chosen.
Proof.
  cbv zeta. destruct (fallback_component req allowed) as [Hin|[-> ->]].
  - apply in_list_In in Hin. cbv zeta in Hin. now rewrite Hin.
  - reflexivity.
Qed.

(** X1.  The fallback is idempotent: the pair it returns is one it returns
    unchanged, for a known and for an unknown container. *)
Theorem get_fallback_codec_idempotent (C v a : string) :
  get_fallback_codec C (fst (get_fallback_codec C v a))
                       (snd (get_fallback_codec C v a))
  = get_fallback_codec C v a.
Proof.
  unfold get_fallback_codec.
  destruct (PyDict.get formats C) as [fmt|]; [|reflexivity].
  cbn [fst snd]. f_equal; apply fallback_component_fixed.
Qed.

Lemma formats_well_formed (C : string) (fmt : FormatInfo) :
  PyDict.get formats C = Some fmt -> well_formed fmt = true.
Proof.
  intros H. apply get_In in H.
  assert (Hall : forallb (fun kv => well_formed (snd kv)) formats = true)
    by reflexivity.
  rewrite forallb_forall in Hall. exact (Hall _ H).
Qed.

(** X2.  A pair of codecs is compatible with a container exactly when the
    container is known and the fallback leaves the pair as it is. *)
Theorem compatible_iff_fallback_fixed (C v a : string) :
  v <> "" -> a <> "" ->
  (is_format_compatible C (Some v) (Some a) = true <->
   get_format_info C <> None /\ get_fallback_codec C v a = (v, a)).
Proof.
  intros Hv Ha. unfold is_format_compatible, get_format_info,
                  get_fallback_codec.
  destruct (PyDict.get formats C) as [fmt|] eqn:Hget;
    [|split; [discriminate | intros [H _]; now elim H]].
  pose proof (formats_well_formed C fmt Hget) as Hwf.
  unfold well_formed in Hwf. apply andb_prop in Hwf as [Hvid Haud].
  destruct v as [|cv rv]; [now elim Hv|].
  destruct a as [|ca ra]; [now elim Ha|].
  split.
  - intros H. apply andb_prop in H as [Hv' Ha'].
    split; [discriminate|]. rewrite Ha'. cbn [negb andb]. f_equal.
    destruct (String.eqb (type fmt) "video").
    + now rewrite Hv'.
    + apply negb_true_iff in Hvid. rewrite Hvid. now rewrite andb_false_r.
  - intros [_ H]. injection H as Hfv Hfa.
    apply andb_true_intro. split.
    + destruct (String.eqb (type fmt) "video"); [|reflexivity].
      rewrite Hvid, andb_true_r in Hfv.
      destruct (PyStr.in_list (String cv rv) (supported_video_codecs fmt))
        eqn:E; [reflexivity|]. cbn [negb] in Hfv.
      apply (truthy_hd (String cv rv)) in Hvid. rewrite Hfv in Hvid.
      apply in_list_In in Hvid. congruence.
    + rewrite Haud, andb_true_r in Hfa.
      destruct (PyStr.in_list (String ca ra) (supported_audio_codecs fmt))
        eqn:E; [reflexivity|]. cbn [negb] in Hfa.
      apply (truthy_hd (String ca ra)) in Haud. rewrite Hfa in Haud.
      apply in_list_In in Haud. congruence.
Qed.

Lemma compatible_iff_fallback_fixed_witness :
  "h264" <> "" /\ "aac" <> "" /\
  (is_format_compatible "mp4" (Some "h264") (Some "aac") = true <->
   get_format_info "mp4" <> None /\
   get_fallback_codec "mp4" "h264" "aac" = ("h264", "aac")).
Proof.
  split; [discriminate|]. split; [discriminate|].
  apply (compatible_iff_fallback_fixed "mp4" "h264" "aac"); discriminate.
Defined.

(** X3.  For every known container, whatever is requested, the pair the
    fallback returns is compatible with the container. *)
Theorem fallback_is_compatible (C v a : string) :
  get_format_info C <> None ->
  is_format_compatible C (Some (fst (get_fallback_codec C v a)))
                         (Some (snd (get_fallback_codec C v a))) = true.
Proof.
  intros Hknown. unfold is_format_compatible, get_format_info,
                   get_fallback_codec in *.
  destruct (PyDict.get formats C) as [fmt|] eqn:Hget; [|now elim Hknown].
  pose proof (formats_well_formed C fmt Hget) as Hwf.
  unfold well_formed in Hwf. apply andb_prop in Hwf as [Hvid Haud].
  cbn [fst snd].
  pose proof (fallback_component v (supported_video_codecs fmt)) as Hv.
  pose proof (fallback_component a (supported_audio_codecs fmt)) as Ha.
  cbv zeta in Hv, Ha.
  remember (if andb (negb (PyStr.in_list v (supported_video_codecs fmt)))
                    (truthy (supported_video_codecs fmt))
            then hd v (supported_video_codecs fmt) else v) as vv.
  remember (if andb (negb (PyStr.in_list a (supported_audio_codecs fmt)))
                    (truthy (supported_audio_codecs fmt))
            then hd a (supported_audio_codecs fmt) else a) as aa.
  apply andb_true_intro. split.
  - destruct vv as [|c r]; [reflexivity|].
    destruct (String.eqb (type fmt) "video"); [|reflexivity].
    destruct Hv as [Hv|[Hv _]]; [now apply in_list_In|].
    rewrite Hv in Hvid. discriminate.
  - destruct aa as [|c r]; [reflexivity|].
    destruct Ha as [Ha|[Ha _]]; [now apply in_list_In|].
    rewrite Ha in Haud. discriminate.
Qed.

Lemma fallback_is_compatible_witness :
  get_format_info "webm" <> None /\
  is_format_compatible "webm"
    (Some (fst (get_fallback_codec "webm" "h264" "aac")))
    (Some (snd (get_fallback_codec "webm" "h264" "aac"))) = true.
Proof.
  split; [discriminate|].
  apply (fallback_is_compatible "webm" "h264" "aac"). discriminate.
Defined.

End FormatFacts.

(** ** Hardware detection *)

Section HardwareFacts.

Import HardwareDetector HardwareProbe.

Lemma first_available_listed (order : list AccelerationType)
    (hwaccels : list string) :
  first_available order hwaccels = NONE \/
  In (value (first_available order hwaccels)) hwaccels.
Proof.
  induction order as [|a r IH]; cbn; [now left|].
  destruct (PyStr.in_list (value a) hwaccels) eqn:E; [|exact IH].
  right. now apply in_list_In.
Qed.

Lemma best_acceleration_listed (system : string) (hw : t) :
  best_acceleration (_determine_best_acceleration system hw) = NONE \/
  In (value (best_acceleration (_determine_best_acceleration system hw)))
     (available_hwaccels hw).
Proof.
  unfold _determine_best_acceleration. cbn [best_acceleration].
  destruct (available_hwaccels hw) eqn:E; [now left|].
  rewrite <- E. apply first_available_listed.
Qed.

(** X4.  When [detect] reports success, the method it has chosen is one that
    [ffmpeg -hwaccels] listed, and the acceleration flags of every job name
    that method. *)
Theorem detect_success_method_listed (m : Machine) (path codec : string) :
  snd (detect m (init path)) = true ->
  path <> "" /\
  In (value (best_acceleration (fst (detect m (init path))))) (hwaccels m) /\
  exists rest,
    get_acceleration_args (fst (detect m (init path))) codec =
    "-hwaccel" :: value (best_acceleration (fst (detect m (init path))))
               :: rest.
Proof.
  unfold detect. cbn [ffmpeg_path init].
  destruct (String.eqb_spec path "") as [->|Hne]; [discriminate|].
  cbn [fst snd]. intros Hok.
  set (hw1 := mk path (hwaccels m) (encoders m) (gpu m) NONE).
  change (mk path (available_hwaccels (init path) ++ hwaccels m)
             (encoders m) (gpu m) (best_acceleration (init path)))
    with hw1 in *.
  split; [assumption|].
  destruct (best_acceleration_listed (system m) hw1) as [Hn|Hin].
  - rewrite Hn in Hok. discriminate.
  - split; [exact Hin|].
    unfold get_acceleration_args.
    destruct (best_acceleration (_determine_best_acceleration (system m) hw1));
      try discriminate; try (eexists; reflexivity).
    destruct (match PyDict.get _ codec with Some _ => _ | None => _ end);
      eexists; reflexivity.
Qed.

Lemma detect_success_method_listed_witness :
  snd (detect Scenario.intel_machine (init "ffmpeg")) = true /\
  In "qsv" (hwaccels Scenario.intel_machine).
Proof.
  split; [reflexivity|].
  exact (proj1 (proj2 (detect_success_method_listed
                         Scenario.intel_machine "ffmpeg" "h264" eq_refl))).
Defined.

(** X5.  When [detect] reports failure, no job gets an acceleration flag or a
    hardware encoder from the detector it leaves. *)
Theorem detect_failure_cpu_only (m : Machine) (path codec fallback : string) :
  snd (detect m (init path)) = false ->
  get_acceleration_args (fst (detect m (init path))) codec = [] /\
  get_encoder (fst (detect m (init path))) codec fallback = fallback.
Proof.
  unfold detect. cbn [ffmpeg_path init].
  destruct (String.eqb path ""); [intros _; split; reflexivity|].
  cbn [fst snd]. intros Hok. apply negb_false_iff in Hok.
  unfold get_acceleration_args, get_encoder. rewrite Hok.
  destruct (best_acceleration _); try discriminate Hok. split; reflexivity.
Qed.

Lemma detect_failure_cpu_only_witness :
  snd (detect Scenario.cpu_only_machine (init "ffmpeg")) = false /\
  get_encoder (fst (detect Scenario.cpu_only_machine (init "ffmpeg")))
              "h264" "libx264" = "libx264".
Proof.
  split; [reflexivity|].
  exact (proj2 (detect_failure_cpu_only Scenario.cpu_only_machine "ffmpeg"
                                        "h264" "libx264" eq_refl)).
Defined.

Lemma string_app_assoc (a b c : string) : (a ++ b) ++ c = a ++ (b ++ c).
Proof. induction a as [|x a IH]; cbn; [reflexivity | now rewrite IH]. Qed.

Lemma substring_all (s : string) : substring 0 (String.length s) s = s.
Proof. induction s as [|c r IH]; cbn; [reflexivity | now rewrite IH]. Qed.

Lemma startswith_split (p : string) :
  forall s, PyStr.startswith p s = true ->
            s = p ++ substring (String.length p)
                               (String.length s - String.length p) s.
Proof.
  induction p as [|a p IH]; intros s H; cbn.
  - rewrite Nat.sub_0_r. symmetry. apply substring_all.
  - destruct s as [|b s]; cbn in H; [discriminate|].
    apply andb_prop in H as [Hab Hs]. apply Ascii.eqb_eq in Hab. subst b.
    cbn. f_equal. now apply IH.
Qed.

Lemma startswith_app (p g r : string) :
  PyStr.startswith (p ++ g) (p ++ r) = PyStr.startswith g r.
Proof.
  induction p as [|a p IH]; cbn; [reflexivity|].
  now rewrite Ascii.eqb_refl, IH.
Qed.

Lemma startswith_take_word (r : string) :
  PyStr.startswith (take_word r) r = true.
Proof.
  induction r as [|c r IH]; cbn; [reflexivity|].
  destruct (is_word c); cbn; [|reflexivity].
  now rewrite Ascii.eqb_refl, IH.
Qed.

Lemma match_here_startswith (prefix s g : string) :
  match_here prefix s = Some g -> PyStr.startswith (prefix ++ g) s = true.
Proof.
  unfold match_here. destruct (PyStr.startswith prefix s) eqn:Hp;
    [|discriminate].
  apply startswith_split in Hp.
  set (rest := substring _ _ s) in *.
  destruct (take_word rest) as [|c w] eqn:Hw; [discriminate|].
  intros H. injection H as <-. rewrite Hp, startswith_app, <- Hw.
  apply startswith_take_word.
Qed.

Lemma contains_cons (p : string) (c : ascii) (r : string) :
  PyStr.contains p r = true -> PyStr.contains p (String c r) = true.
Proof. intros H. cbn [PyStr.contains]. rewrite H. apply orb_true_r. Qed.

Lemma startswith_contains (p s : string) :
  PyStr.startswith p s = true -> PyStr.contains p s = true.
Proof. intros H. destruct s; cbn [PyStr.contains]; now rewrite H. Qed.

(** Every group [finditer] returns stands in the text behind the
    prefix. *)
Lemma finditer_contains (prefix g : string) :
  forall s skip, In g (finditer prefix s skip) ->
                 PyStr.contains (prefix ++ g) s = true.
Proof.
  induction s as [|c r IH]; intros skip Hin; cbn [finditer] in Hin;
    [destruct Hin|].
  destruct skip as [|k].
  - destruct (match_here prefix (String c r)) as [g0|] eqn:Hm.
    + destruct Hin as [<-|Hin].
      * apply startswith_contains. now apply match_here_startswith.
      * apply contains_cons. eapply IH; eauto.
    + apply contains_cons. eapply IH; eauto.
  - apply contains_cons. eapply IH; eauto.
Qed.

Lemma detect_encoders_get (stdout codec : string) (l : list string) :
  PyDict.get (_detect_encoders stdout) codec = Some l ->
  l = finditer (codec ++ "_") stdout 0.
Proof.
  unfold _detect_encoders, hw_families. cbn [map PyDict.get].
  destruct (String.eqb_spec codec "h264") as [->|_];
    [intros H; now injection H as <-|].
  destruct (String.eqb_spec codec "hevc") as [->|_];
    [intros H; now injection H as <-|].
  destruct (String.eqb_spec codec "vp9") as [->|_];
    [intros H; now injection H as <-|].
  destruct (String.eqb_spec codec "av1") as [->|_];
    [intros H; now injection H as <-|].
  discriminate.
Qed.

(** A hardware encoder that [get_encoder] returns is the codec followed by
    one of the suffixes recorded for it. *)
Lemma get_encoder_cases (hw : t) (codec fallback : string) :
  get_encoder hw codec fallback = fallback \/
  exists l suffix,
    PyDict.get (available_encoders hw) codec = Some l /\
    In suffix l /\
    get_encoder hw codec fallback = codec ++ "_" ++ suffix.
Proof.
  unfold get_encoder.
  destruct (is_none (best_acceleration hw)); [now left|].
  destruct (PyDict.get (available_encoders hw) codec) as [l|]; [|now left].
  assert (Hpick : forall x rest,
             (if PyStr.in_list x l then codec ++ String "_" x else rest)
             = rest \/
             exists suffix, In suffix l /\
               (if PyStr.in_list x l then codec ++ String "_" x else rest)
               = codec ++ "_" ++ suffix).
  { intros x rest. destruct (PyStr.in_list x l) eqn:E; [|now left].
    right. exists x. split; [now apply in_list_In | reflexivity]. }
  assert (Hlift : forall r : string,
             (r = fallback \/
              exists suffix, In suffix l /\ r = codec ++ "_" ++ suffix) ->
             r = fallback \/
             exists l0 suffix, Some l = Some l0 /\ In suffix l0 /\
                               r = codec ++ "_" ++ suffix).
  { intros r [H|[sfx [H1 H2]]]; [now left|]. right. now exists l, sfx. }
  apply Hlift.
  assert (Htail : (if PyStr.in_list "vaapi" l then codec ++ "_vaapi"
                   else fallback) = fallback \/
                  exists suffix, In suffix l /\
                    (if PyStr.in_list "vaapi" l then codec ++ "_vaapi"
                     else fallback) = codec ++ "_" ++ suffix)
    by apply (Hpick "vaapi").
  set (tail := if PyStr.in_list "vaapi" l then codec ++ "_vaapi"
               else fallback) in *.
  assert (Hone : forall x,
             (if PyStr.in_list x l then codec ++ String "_" x else tail)
             = fallback \/
             exists suffix, In suffix l /\
               (if PyStr.in_list x l then codec ++ String "_" x else tail)
               = codec ++ "_" ++ suffix).
  { intros x. destruct (PyStr.in_list x l) eqn:E; [|exact Htail].
    right. exists x. split; [now apply in_list_In | reflexivity]. }
  destruct (best_acceleration hw);
    try apply Hone; try exact Htail.
  - destruct (PyStr.in_list "nvenc" l) eqn:E1;
      [right; exists "nvenc"; split; [now apply in_list_In | reflexivity]|].
    destruct (PyStr.in_list "qsv" l) eqn:E2;
      [right; exists "qsv"; split; [now apply in_list_In | reflexivity]|].
    apply (Hone "amf").
  - destruct (PyStr.in_list "amf" l) eqn:E1;
      [right; exists "amf"; split; [now apply in_list_In | reflexivity]|].
    destruct (PyStr.in_list "qsv" l) eqn:E2;
      [right; exists "qsv"; split; [now apply in_list_In | reflexivity]|].
    apply (Hone "nvenc").
  - destruct (PyStr.in_list "amf" l) eqn:E1;
      [right; exists "amf"; split; [now apply in_list_In | reflexivity]|].
    destruct (PyStr.in_list "qsv" l) eqn:E2;
      [right; exists "qsv"; split; [now apply in_list_In | reflexivity]|].
    apply (Hone "nvenc").
Qed.

(** X6.  With the encoder catalogue read from [ffmpeg -encoders], the encoder
    [get_encoder] returns is the given CPU encoder or a name that stands in
    that output. *)
Theorem hardware_encoder_is_listed (hw : t) (stdout codec fallback : string) :
  available_encoders hw = _detect_encoders stdout ->
  get_encoder hw codec fallback = fallback \/
  PyStr.contains (get_encoder hw codec fallback) stdout = true.
Proof.
  intros Hcat.
  destruct (get_encoder_cases hw codec fallback)
    as [H|(l & suffix & Hget & Hin & Heq)]; [now left|].
  right. rewrite Heq. rewrite Hcat in Hget.
  apply detect_encoders_get in Hget. subst l.
  apply finditer_contains in Hin.
  now rewrite string_app_assoc in Hin.
Qed.

Lemma hardware_encoder_is_listed_witness :
  available_encoders Samples.cuda_detector
  = _detect_encoders Samples.encoders_stdout /\
  get_encoder Samples.cuda_detector "h264" "libx264" = "h264_nvenc" /\
  (get_encoder Samples.cuda_detector "h264" "libx264" = "libx264" \/
   PyStr.contains (get_encoder Samples.cuda_detector "h264" "libx264")
                  Samples.encoders_stdout = true).
Proof.
  split; [reflexivity|]. split; [reflexivity|].
  apply (hardware_encoder_is_listed Samples.cuda_detector
           Samples.encoders_stdout "h264" "libx264").
  reflexivity.
Defined.


Lemma collect_hwaccels_spec (x : string) (lines : list string) :
  forall in_list : bool,
    In x (collect_hwaccels lines in_list) ->
    x <> "" /\ x <> hwaccels_header /\
    exists before line after,
      lines = (before ++ line :: after)%list /\ x = PyStr.strip line /\
      (in_list = true \/
       exists h, In h before /\ PyStr.strip h = hwaccels_header).
Proof.
  induction lines as [|l rest IH]; intros in_list; cbn [collect_hwaccels];
    [intros []|].
  assert (Hrest : forall b,
             In x (collect_hwaccels rest b) ->
             (b = true -> in_list = true \/
                          PyStr.strip l = hwaccels_header) ->
             x <> "" /\ x <> hwaccels_header /\
             exists before line after,
               (l :: rest)%list = (before ++ line :: after)%list /\
               x = PyStr.strip line /\
               (in_list = true \/
                exists h, In h before /\ PyStr.strip h = hwaccels_header)).
  { intros b Hin Hb.
    destruct (IH b Hin) as (H1 & H2 & before & line & after & -> & Hx & Hh).
    repeat split; try assumption.
    exists (l :: before)%list, line, after. repeat split; try assumption.
    destruct Hh as [Hh|(h & Hh & Hs)].
    - destruct (Hb Hh) as [Ht|Ht]; [now left|].
      right. exists l. split; [now left | assumption].
    - right. exists h. split; [now right | assumption]. }
  destruct (String.eqb_spec (PyStr.strip l) hwaccels_header) as [Hhead|Hhead].
  { intros Hin. apply (Hrest true Hin). auto. }
  destruct in_list; cbn [andb].
  - destruct (String.eqb_spec (PyStr.strip l) "") as [Hblank|Hblank];
      cbn [negb].
    + intros Hin. apply (Hrest true Hin). auto.
    + intros [<-|Hin]; [|apply (Hrest true Hin); auto].
      repeat split; try assumption.
      exists [], l, rest. repeat split. now left.
  - intros Hin. apply (Hrest false Hin). discriminate.
Qed.

(** X8.  Every method [_detect_hwaccels] collects from the output of
    [ffmpeg -hwaccels] is a line of it, stripped, that is not blank, is not
    the heading and stands after a heading line; an output without the
    heading gives no method. *)
Theorem hwaccels_come_after_heading (stdout x : string) :
  In x (_detect_hwaccels stdout) ->
  x <> "" /\ x <> hwaccels_header /\
  exists before line after,
    split_lines stdout = (before ++ line :: after)%list /\
    x = PyStr.strip line /\
    exists h, In h before /\ PyStr.strip h = hwaccels_header.
Proof.
  intros Hin. apply collect_hwaccels_spec in Hin
    as (H1 & H2 & before & line & after & Hs & Hx & [Hf|Hh]);
    [discriminate Hf|].
  repeat split; try assumption. exists before, line, after. auto.
Qed.

Lemma hwaccels_come_after_heading_witness :
  In "cuda" (_detect_hwaccels
               ("Hardware acceleration methods:" ++ JobExecutor.nl ++
                "cuda" ++ JobExecutor.nl ++ "qsv" ++ JobExecutor.nl)) /\
  "cuda" <> hwaccels_header.
Proof.
  assert (Hin : In "cuda"
                   (_detect_hwaccels
                      ("Hardware acceleration methods:" ++ JobExecutor.nl ++
                       "cuda" ++ JobExecutor.nl ++ "qsv" ++ JobExecutor.nl))).
  { vm_compute. left. reflexivity. }
  split; [exact Hin|].
  exact (proj1 (proj2 (hwaccels_come_after_heading _ _ Hin))).
Defined.

(** The catalogue is keyed by [hevc] while the engine asks for [h265]:
    for the codec [h265] the encoder of a job that names none is the CPU
    encoder [libx265], with every detector. *)
Lemma h265_encoder_is_cpu (hw : t) (stdout : string)
    (config : ConversionWorker.JobConfig) :
  available_encoders hw = _detect_encoders stdout ->
  ConversionWorker.str_truthy (ConversionWorker.video_encoder config)
  = false ->
  ConversionWorker.select_video_encoder hw config "h265" = "libx265".
Proof.
  intros Hcat Hover. unfold ConversionWorker.select_video_encoder.
  rewrite Hover. cbn [PyDict.get ConversionWorker._DEFAULT_VIDEO_ENCODERS
                      ConversionWorker.get_or String.eqb Ascii.eqb Bool.eqb].
  destruct (ConversionWorker.get_or _ true); [|reflexivity].
  unfold get_encoder. rewrite Hcat.
  destruct (is_none (best_acceleration hw)); reflexivity.
Qed.

End HardwareFacts.

(** ** Command synthesis *)

Section SynthesisFacts.

Import ConversionWorker CommandSynthesis Observations.

(** X9.  For an NVENC encoder a preset is passed on only when it is one NVENC
    accepts; for any other encoder a preset that is not blank is passed on
    as it was written. *)
Theorem nvenc_preset_is_valid (encoder : string) (preset : option string)
    (mapped : string) :
  _map_encoder_preset encoder preset = Some mapped ->
  (PyStr.contains "nvenc" (PyStr.lower encoder) = true ->
   In mapped nvenc_presets) /\
  (PyStr.contains "nvenc" (PyStr.lower encoder) = false ->
   preset = Some mapped).
Proof.
  unfold _map_encoder_preset. destruct preset as [[|c r]|]; try discriminate.
  destruct (String.eqb _ ""); [discriminate|].
  destruct (PyStr.contains "nvenc" (PyStr.lower encoder)).
  - destruct (PyStr.in_list _ nvenc_presets) eqn:E; [|discriminate].
    intros H. injection H as <-. split; [|discriminate].
    intros _. now apply in_list_In.
  - intros H. injection H as <-. split; [discriminate | reflexivity].
Qed.

Lemma nvenc_preset_is_valid_witness :
  _map_encoder_preset "h264_nvenc" (Some "Ultrafast") = Some "p1" /\
  In "p1" nvenc_presets.
Proof.
  split; [reflexivity|].
  apply (proj1 (nvenc_preset_is_valid "h264_nvenc" (Some "Ultrafast") "p1"
                  eq_refl)).
  reflexivity.
Defined.

Lemma skip_flag_starts_with_dash (x : string) :
  PyStr.in_list x skip_nvenc_only = true -> PyStr.startswith "-" x = true.
Proof.
  intros H. apply in_list_In in H. cbn in H.
  destruct H as [<-|[<-|[<-|[<-|[]]]]]; reflexivity.
Qed.

(** One turn of the loop of [_iter_video_options] with two items left. *)
Lemma iter_video_options_step (flag next : string) (rest : list string)
    (encoder : string) :
  _iter_video_options (flag :: next :: rest) encoder =
  if negb (PyStr.startswith "-" next) then
    if andb (PyStr.in_list flag skip_nvenc_only)
            (negb (PyStr.contains "nvenc" (PyStr.lower encoder)))
    then _iter_video_options rest encoder
    else (flag, Some next) :: _iter_video_options rest encoder
  else
    if andb (PyStr.in_list flag skip_nvenc_only)
            (negb (PyStr.contains "nvenc" (PyStr.lower encoder)))
    then _iter_video_options (next :: rest) encoder
    else (flag, None) :: _iter_video_options (next :: rest) encoder.
Proof. reflexivity. Qed.

Lemma iter_video_options_other (encoder : string) (n : nat) :
  PyStr.contains "nvenc" (PyStr.lower encoder) = false ->
  forall options x,
    (List.length options <= n)%nat ->
    In x (option_args (_iter_video_options options encoder)) ->
    PyStr.in_list x skip_nvenc_only = false.
Proof.
  intros Henc. induction n as [|n IH]; intros options x Hlen Hin.
  - destruct options; [destruct Hin | cbn in Hlen; lia].
  - destruct options as [|flag [|next rest]]; [destruct Hin| |].
    + cbn [_iter_video_options] in Hin. rewrite Henc in Hin.
      cbn [negb] in Hin. rewrite andb_true_r in Hin.
      destruct (PyStr.in_list flag skip_nvenc_only) eqn:Hf;
        [destruct Hin|].
      cbn in Hin. destruct Hin as [<-|[]]. exact Hf.
    + rewrite iter_video_options_step, Henc in Hin.
      cbn [negb] in Hin. rewrite andb_true_r in Hin. cbn in Hlen.
      destruct (PyStr.startswith "-" next) eqn:Hdash; cbn [negb] in Hin;
        destruct (PyStr.in_list flag skip_nvenc_only) eqn:Hf.
      * apply (IH (next :: rest)); [cbn; lia | exact Hin].
      * cbn [option_args flat_map snd fst app] in Hin.
        destruct Hin as [<-|Hin]; [exact Hf|].
        apply (IH (next :: rest)); [cbn; lia | exact Hin].
      * apply (IH rest); [lia | exact Hin].
      * cbn [option_args flat_map snd fst app] in Hin.
        destruct Hin as [<-|[<-|Hin]]; [exact Hf| |].
        -- destruct (PyStr.in_list next skip_nvenc_only) eqn:Hn;
             [|reflexivity].
           apply skip_flag_starts_with_dash in Hn. congruence.
        -- apply (IH rest); [lia | exact Hin].
Qed.

Lemma iter_video_options_nvenc (encoder : string) (n : nat) :
  PyStr.contains "nvenc" (PyStr.lower encoder) = true ->
  forall options,
    (List.length options <= n)%nat ->
    option_args (_iter_video_options options encoder) = options.
Proof.
  intros Henc. induction n as [|n IH]; intros options Hlen.
  - destruct options; [reflexivity | cbn in Hlen; lia].
  - destruct options as [|flag [|next rest]]; [reflexivity| |].
    + cbn [_iter_video_options]. rewrite Henc. cbn [negb].
      now rewrite andb_false_r.
    + rewrite iter_video_options_step, Henc. cbn [negb].
      rewrite andb_false_r. cbn in Hlen.
      destruct (PyStr.startswith "-" next); cbn [negb].
      * cbn [option_args flat_map snd fst app]. f_equal.
        apply (IH (next :: rest)). cbn. lia.
      * cbn [option_args flat_map snd fst app]. do 2 f_equal.
        apply (IH rest). lia.
Qed.

(** X10.  The extra video options reach the command unchanged when the encoder
    is NVENC; for every other encoder none of the four NVENC flags is left
    among the options that are passed on. *)
Theorem nvenc_flags_only_for_nvenc (options : list string)
    (encoder : string) :
  (PyStr.contains "nvenc" (PyStr.lower encoder) = true ->
   option_args (_iter_video_options options encoder) = options) /\
  (PyStr.contains "nvenc" (PyStr.lower encoder) = false ->
   forall x, In x (option_args (_iter_video_options options encoder)) ->
             ~ In x skip_nvenc_only).
Proof.
  split.
  - intros H. now apply (iter_video_options_nvenc encoder
                           (List.length options)).
  - intros H x Hin Hskip. apply in_list_In in Hskip.
    rewrite (iter_video_options_other encoder (List.length options) H
               options x (Nat.le_refl _) Hin) in Hskip.
    discriminate.
Qed.

Lemma nvenc_flags_only_for_nvenc_witness :
  PyStr.contains "nvenc" (PyStr.lower "libx264") = false /\
  option_args (_iter_video_options ["-rc"; "vbr"; "-spatial_aq"; "1";
                                    "-b:v"; "0"] "libx264")
  = ["-b:v"; "0"] /\
  ~ In "-b:v" skip_nvenc_only.
Proof.
  split; [reflexivity|]. split; [reflexivity|].
  apply (proj2 (nvenc_flags_only_for_nvenc
                  ["-rc"; "vbr"; "-spatial_aq"; "1"; "-b:v"; "0"] "libx264")
               eq_refl "-b:v").
  vm_compute. left. reflexivity.
Defined.

(** X11.  For a codec that is not lossy (FLAC, ALAC, PCM) the configured audio
    bitrate has no influence on the audio part of the command. *)
Theorem lossless_audio_ignores_bitrate (config : JobConfig) (o : Options)
    (fmt_info : option FormatCompatibility.FormatInfo) (output_ext : string)
    (b : pyval) :
  _is_lossy_audio (snd (corrected_audio config fmt_info output_ext)) = false ->
  fst (_apply_audio_settings (with_audio_bitrate config b) o fmt_info
                             output_ext)
  = fst (_apply_audio_settings config o fmt_info output_ext).
Proof.
  intros Hlossless. unfold _apply_audio_settings.
  destruct (audio_copy o); [reflexivity|].
  change (audio_codec (with_audio_bitrate config b))
    with (audio_codec config).
  destruct (String.eqb _ "copy"); [reflexivity|].
  change (corrected_audio (with_audio_bitrate config b) fmt_info output_ext)
    with (corrected_audio config fmt_info output_ext).
  change (audio_fallback_needed (with_audio_bitrate config b) fmt_info)
    with (audio_fallback_needed config fmt_info).
  destruct (corrected_audio config fmt_info output_ext) as [v a].
  cbn [snd] in Hlossless. cbn [fst]. rewrite Hlossless.
  now rewrite !andb_false_r.
Qed.

Lemma lossless_audio_ignores_bitrate_witness :
  let config := set_codecs Scenario.film_config "ffv1" "flac" in
  let o := Samples.no_options in
  _is_lossy_audio
    (snd (corrected_audio config (FormatCompatibility.get_format_info "mkv")
                          "mkv")) = false /\
  fst (_apply_audio_settings (with_audio_bitrate config (PyStr "320k")) o
         (FormatCompatibility.get_format_info "mkv") "mkv")
  = ["-c:a"; "flac"].
Proof.
  cbv zeta. split; [reflexivity|].
  rewrite (lossless_audio_ignores_bitrate _ _ _ _ (PyStr "320k"));
    reflexivity.
Defined.

Lemma plain_audio_codecs (C : string) (fmt : FormatCompatibility.FormatInfo)
    (a : string) :
  PyDict.get FormatCompatibility.formats C = Some fmt ->
  In a (FormatCompatibility.supported_audio_codecs fmt) ->
  plain_audio_codec a = true.
Proof.
  intros Hget Hin. apply get_In in Hget.
  assert (Hall : forallb
                   (fun kv => forallb plain_audio_codec
                                (FormatCompatibility.supported_audio_codecs
                                   (snd kv)))
                   FormatCompatibility.formats = true) by reflexivity.
  rewrite forallb_forall in Hall. specialize (Hall _ Hget). cbn [snd] in Hall.
  rewrite forallb_forall in Hall. now apply Hall.
Qed.

(** The audio codec [_apply_audio_settings] settles on is one the
    container allows. *)
Lemma corrected_audio_allowed (C : string)
    (fmt : FormatCompatibility.FormatInfo) (config : JobConfig) :
  PyDict.get FormatCompatibility.formats C = Some fmt ->
  In (snd (corrected_audio config (Some fmt) C))
     (FormatCompatibility.supported_audio_codecs fmt).
Proof.
  intros Hget. unfold corrected_audio, audio_fallback_needed.
  pose proof (formats_well_formed C fmt Hget) as Hwf.
  unfold FormatQueries.well_formed in Hwf. apply andb_prop in Hwf as [_ Haud].
  destruct (PyStr.in_list _ (FormatCompatibility.supported_audio_codecs fmt))
    eqn:E; cbn [negb snd].
  - now apply in_list_In.
  - unfold FormatCompatibility.get_fallback_codec. rewrite Hget. cbn [snd].
    rewrite E, Haud. cbn [negb andb]. now apply truthy_hd.
Qed.

(** The video codec [_apply_video_settings] settles on is one the
    container allows, when it allows any. *)
Lemma corrected_video_allowed (C : string)
    (fmt : FormatCompatibility.FormatInfo) (config : JobConfig) :
  PyDict.get FormatCompatibility.formats C = Some fmt ->
  FormatCompatibility.truthy (FormatCompatibility.supported_video_codecs fmt)
  = true ->
  In (fst (corrected_codecs config (Some fmt) C))
     (FormatCompatibility.supported_video_codecs fmt).
Proof.
  intros Hget Hvid. unfold corrected_codecs.
  destruct (PyStr.in_list _ (FormatCompatibility.supported_video_codecs fmt))
    eqn:E; cbn [negb fst].
  - now apply in_list_In.
  - unfold FormatCompatibility.get_fallback_codec. rewrite Hget. cbn [fst].
    rewrite E, Hvid. cbn [negb andb]. now apply truthy_hd.
Qed.

(** Unless a stream copy is asked for, the audio part of the command
    starts with the encoder of a codec the container allows. *)
Lemma audio_settings_allowed (C : string)
    (fmt : FormatCompatibility.FormatInfo) (config : JobConfig)
    (o : Options) :
  PyDict.get FormatCompatibility.formats C = Some fmt ->
  audio_copy o = false ->
  asks_audio_copy config = false ->
  exists a rest,
    In a (FormatCompatibility.supported_audio_codecs fmt) /\
    fst (_apply_audio_settings config o (Some fmt) C)
    = "-c:a" :: chosen_audio_encoder o a :: rest.
Proof.
  intros Hget Hcopy Hasks. unfold _apply_audio_settings.
  rewrite Hcopy. unfold asks_audio_copy in Hasks. rewrite Hasks.
  pose proof (corrected_audio_allowed C fmt config Hget) as Hin.
  destruct (corrected_audio config (Some fmt) C) as [v a]. cbn [snd] in Hin.
  exists a. eexists. split; [exact Hin|]. cbn [fst app]. reflexivity.
Qed.

(** What [_apply_video_settings] returns when the video is not copied:
    the configuration with the codec pair it settled on, and arguments
    that start with the encoder. *)
Lemma video_settings_shape (hw : HardwareDetector.t) (config : JobConfig)
    (o : Options) (fmt_info : option FormatCompatibility.FormatInfo)
    (C : string) (input_info : InputInfo) (args : list string)
    (config1 : JobConfig) :
  video_copy o = false ->
  _apply_video_settings hw config o fmt_info C input_info
  = Some (args, config1) ->
  config1 = (if video_fallback_needed config fmt_info
             then set_codecs config
                    (fst (corrected_codecs config fmt_info C))
                    (snd (corrected_codecs config fmt_info C))
             else config) /\
  exists rest,
    args = "-c:v" :: select_video_encoder hw config
                       (fst (corrected_codecs config fmt_info C)) :: rest.
Proof.
  intros Hvc. unfold _apply_video_settings. rewrite Hvc.
  destruct (corrected_codecs config fmt_info C) as [v a]. cbn [fst snd].
  destruct (encoding_mode_args _ input_info) as [mode_args|];
    [|discriminate].
  intros H. injection H as <- <-. split; [reflexivity|].
  eexists. cbn [app]. f_equal. f_equal.
  destruct (video_fallback_needed config fmt_info); reflexivity.
Qed.

(** After [_apply_video_settings] the configuration asks for an audio
    stream copy only if it did before and the video codec was kept. *)
Lemma video_settings_keep_copy (hw : HardwareDetector.t) (C : string)
    (fmt : FormatCompatibility.FormatInfo) (config : JobConfig)
    (o : Options) (input_info : InputInfo) (args : list string)
    (config1 : JobConfig) :
  PyDict.get FormatCompatibility.formats C = Some fmt ->
  video_copy o = false ->
  _apply_video_settings hw config o (Some fmt) C input_info
  = Some (args, config1) ->
  asks_audio_copy config1
  = andb (asks_audio_copy config)
         (negb (video_fallback_needed config (Some fmt))).
Proof.
  intros Hget Hvc Hvs.
  destruct (video_settings_shape _ _ _ _ _ _ _ _ Hvc Hvs) as [-> _].
  destruct (corrected_codecs config (Some fmt) C) as [v a] eqn:Hcc.
  cbn [fst snd].
  destruct (video_fallback_needed config (Some fmt)) eqn:Hneed;
    [|now rewrite andb_true_r].
  rewrite andb_false_r.
  assert (Ha : In a (FormatCompatibility.supported_audio_codecs fmt)).
  { unfold corrected_codecs in Hcc. unfold video_fallback_needed in Hneed.
    rewrite Hneed in Hcc.
    unfold FormatCompatibility.get_fallback_codec in Hcc.
    rewrite Hget in Hcc. injection Hcc as _ <-.
    pose proof (formats_well_formed C fmt Hget) as Hwf.
    unfold FormatQueries.well_formed in Hwf.
    apply andb_prop in Hwf as [_ Haud].
    destruct (fallback_component
                (_normalize_audio_codec
                   (Some (get_or (audio_codec config) "aac")))
                (FormatCompatibility.supported_audio_codecs fmt))
      as [H|[H _]]; [exact H|].
    rewrite H in Haud. discriminate. }
  apply (plain_audio_codecs C fmt a Hget) in Ha.
  unfold plain_audio_codec in Ha. apply andb_prop in Ha as [_ Ha].
  apply andb_prop in Ha as [Ha _]. apply negb_true_iff in Ha.
  unfold asks_audio_copy, set_codecs. cbn [audio_codec].
  destruct a as [|c r]; [reflexivity | exact Ha].
Qed.

(** The command of a job whose output is not in an audio container and
    that is not a conversion to audio: the arguments of
    [_apply_video_settings], then, unless it is a conversion from audio,
    those of [_apply_audio_settings] for the configuration the former
    leaves. *)
Lemma build_video_container (ffmpeg_path : string)
    (hw : HardwareDetector.t) (cpu_count : Z) (config : JobConfig)
    (o : Options) (input_file output_file : string) (input_info : InputInfo)
    (fmt : FormatCompatibility.FormatInfo) (command : list string) :
  FormatCompatibility.get_format_info (output_ext_of output_file)
  = Some fmt ->
  String.eqb (FormatCompatibility.type fmt) "audio" = false ->
  conversion_type_is o "video_to_audio" = false ->
  conversion_type_is o "audio_to_video" = false ->
  _build_ffmpeg_command ffmpeg_path hw cpu_count config o input_file
                        output_file input_info = Some command ->
  exists video_args config1,
    _apply_video_settings hw config o (Some fmt) (output_ext_of output_file)
                          input_info = Some (video_args, config1) /\
    command =
    ([ffmpeg_path; "-y"] ++ acceleration_args hw config ++
     ["-i"; input_file] ++ video_args ++
     fst (_apply_audio_settings config1 o (Some fmt)
                                (output_ext_of output_file)) ++
     trailing_args cpu_count o output_file)%list.
Proof.
  intros Hfmt Htype Hv2a Ha2v.
  unfold _build_ffmpeg_command. cbv zeta. rewrite Hfmt, Htype.
  change (match conversion_type o with
          | Some t => String.eqb t "video_to_audio"
          | None => false
          end) with (conversion_type_is o "video_to_audio").
  change (match conversion_type o with
          | Some t => String.eqb t "audio_to_video"
          | None => false
          end) with (conversion_type_is o "audio_to_video").
  rewrite Hv2a, Ha2v. cbn [orb negb]. rewrite andb_true_r.
  destruct (_apply_video_settings hw config o (Some fmt) _ input_info)
    as [[video_args config1]|]; [|discriminate].
  intros H. injection H as <-. exists video_args, config1.
  split; reflexivity.
Qed.

(** Every encoding mode but [target_size] gives its flags. *)
Lemma encoding_mode_args_total (config : JobConfig) (input_info : InputInfo) :
  PyStr.lower (str_or (encoding_mode config) "crf") <> "target_size" ->
  encoding_mode_args config input_info <> None.
Proof.
  intros Hmode. unfold encoding_mode_args.
  destruct (String.eqb _ "crf"); [discriminate|].
  destruct (String.eqb _ "bitrate"); [discriminate|].
  destruct (String.eqb_spec
              (PyStr.lower (str_or (encoding_mode config) "crf"))
              "target_size") as [E|_]; [contradiction|].
  destruct (String.eqb _ "cq"); discriminate.
Qed.

(** X7.  [_detect_encoders] keys its catalogue by [hevc] while command
    synthesis asks [get_encoder] for [h265]: when the video is not copied,
    the job names no encoder, its video codec normalises to [h265] and the
    container, if it is a known one, allows that codec, the video
    arguments start with [-c:v libx265], the CPU encoder, whatever
    hardware encoders the detector has found. *)
Theorem h265_never_hardware (hw : HardwareDetector.t) (stdout : string)
    (config : JobConfig) (o : Options)
    (fmt_info : option FormatCompatibility.FormatInfo) (output_ext : string)
    (input_info : InputInfo) (args : list string) (config1 : JobConfig) :
  HardwareDetector.available_encoders hw
  = HardwareProbe._detect_encoders stdout ->
  video_copy o = false ->
  str_truthy (video_encoder config) = false ->
  _normalize_video_codec (Some (get_or (video_codec config) "h264"))
  = "h265" ->
  video_fallback_needed config fmt_info = false ->
  _apply_video_settings hw config o fmt_info output_ext input_info
  = Some (args, config1) ->
  firstn 2 args = ["-c:v"; "libx265"].
Proof.
  intros Hcat Hvc Hover Hnorm Hneed Hvs.
  destruct (video_settings_shape _ _ _ _ _ _ _ _ Hvc Hvs) as [_ [rest ->]].
  assert (Hcc : fst (corrected_codecs config fmt_info output_ext) = "h265").
  { unfold corrected_codecs. unfold video_fallback_needed in Hneed.
    destruct fmt_info as [fmt|]; [rewrite Hneed|]; exact Hnorm. }
  rewrite Hcc, (h265_encoder_is_cpu hw stdout config Hcat Hover).
  reflexivity.
Qed.

Lemma h265_never_hardware_witness :
  let config := set_codecs Scenario.film_config "hevc" "aac" in
  HardwareDetector.available_encoders Samples.cuda_detector
  = HardwareProbe._detect_encoders Samples.encoders_stdout /\
  PyDict.get (HardwareDetector.available_encoders Samples.cuda_detector)
             "hevc" = Some ["nvenc"] /\
  video_fallback_needed config (FormatCompatibility.get_format_info "mp4")
  = false /\
  option_map (fun r => firstn 2 (fst r))
    (_apply_video_settings Samples.cuda_detector config Samples.no_options
       (FormatCompatibility.get_format_info "mp4") "mp4"
       Scenario.sample_input)
  = Some ["-c:v"; "libx265"].
Proof.
  cbv zeta. split; [reflexivity|]. split; [reflexivity|].
  split; [reflexivity|].
  destruct (_apply_video_settings Samples.cuda_detector
              (set_codecs Scenario.film_config "hevc" "aac")
              Samples.no_options (FormatCompatibility.get_format_info "mp4")
              "mp4" Scenario.sample_input) as [[args config1]|] eqn:E;
    [|vm_compute in E; discriminate E].
  cbn [option_map fst]. f_equal.
  apply (h265_never_hardware Samples.cuda_detector Samples.encoders_stdout
           (set_codecs Scenario.film_config "hevc" "aac") Samples.no_options
           (FormatCompatibility.get_format_info "mp4") "mp4"
           Scenario.sample_input args config1);
    try reflexivity.
  exact E.
Defined.

(** Where the container does not allow H.265 the codec is replaced before
    the encoder is chosen, and the hardware encoder of the replacement is
    used: HEVC to FLV with NVENC. *)
Example hevc_to_flv_uses_nvenc :
  option_map (fun r => firstn 2 (fst r))
    (_apply_video_settings Samples.cuda_detector
       (set_codecs Scenario.film_config "hevc" "aac") Samples.no_options
       (FormatCompatibility.get_format_info "flv") "flv"
       Scenario.sample_input)
  = Some ["-c:v"; "h264_nvenc"].
Proof. vm_compute. reflexivity. Qed.

(** X12.  For an output that is not in an audio container, in a job that is
    no conversion to or from audio, copies neither stream by option and
    names no audio encoder, a request to copy the audio stream made
    through the audio codec [copy] is honoured exactly when the container
    allows the requested video codec: the command is made of the
    acceleration flags, the input, the video arguments, the audio
    arguments and the trailing flags, and its audio arguments are
    [-c:a copy] if and only if the video codec was kept. *)
Theorem audio_copy_survives_iff_video_kept (ffmpeg_path : string)
    (hw : HardwareDetector.t) (cpu_count : Z) (config : JobConfig)
    (o : Options) (input_file output_file : string) (input_info : InputInfo)
    (fmt : FormatCompatibility.FormatInfo) (command : list string) :
  FormatCompatibility.get_format_info (output_ext_of output_file)
  = Some fmt ->
  String.eqb (FormatCompatibility.type fmt) "audio" = false ->
  conversion_type_is o "video_to_audio" = false ->
  conversion_type_is o "audio_to_video" = false ->
  video_copy o = false ->
  audio_copy o = false ->
  str_truthy (audio_encoder o) = false ->
  asks_audio_copy config = true ->
  _build_ffmpeg_command ffmpeg_path hw cpu_count config o input_file
                        output_file input_info = Some command ->
  exists video_args config1 audio_args,
    _apply_video_settings hw config o (Some fmt) (output_ext_of output_file)
                          input_info = Some (video_args, config1) /\
    audio_args = fst (_apply_audio_settings config1 o (Some fmt)
                                            (output_ext_of output_file)) /\
    command =
    ([ffmpeg_path; "-y"] ++ acceleration_args hw config ++
     ["-i"; input_file] ++ video_args ++ audio_args ++
     trailing_args cpu_count o output_file)%list /\
    (audio_args = ["-c:a"; "copy"]
     <-> video_fallback_needed config (Some fmt) = false).
Proof.
  intros Hfmt Htype Hv2a Ha2v Hvc Hac Hover Hasks Hbuild.
  destruct (build_video_container _ _ _ _ _ _ _ _ _ _ Hfmt Htype Hv2a Ha2v
              Hbuild) as (video_args & config1 & Hvs & ->).
  set (C := output_ext_of output_file) in *.
  exists video_args, config1. eexists.
  split; [exact Hvs|]. split; [reflexivity|]. split; [reflexivity|].
  unfold FormatCompatibility.get_format_info in Hfmt.
  pose proof (video_settings_keep_copy hw C fmt config o input_info _ _
                Hfmt Hvc Hvs) as Hkeep.
  rewrite Hasks in Hkeep. cbn [andb] in Hkeep.
  destruct (video_fallback_needed config (Some fmt)); cbn [negb] in Hkeep.
  - split; [|discriminate]. intros Hargs.
    destruct (audio_settings_allowed C fmt config1 o Hfmt Hac Hkeep)
      as (a & rest & Hin & Heq).
    rewrite Heq in Hargs. injection Hargs as Henc _.
    apply (plain_audio_codecs C fmt a Hfmt) in Hin.
    unfold plain_audio_codec in Hin. apply andb_prop in Hin as [_ Hin].
    apply andb_prop in Hin as [_ Hin]. apply negb_true_iff in Hin.
    unfold chosen_audio_encoder, default_audio_encoder in Henc.
    rewrite Hover in Henc. rewrite Henc in Hin. discriminate.
  - split; [reflexivity|]. intros _. unfold _apply_audio_settings.
    rewrite Hac. unfold asks_audio_copy in Hkeep. now rewrite Hkeep.
Qed.

Lemma audio_copy_survives_iff_video_kept_witness :
  FormatCompatibility.get_format_info (output_ext_of "/out/a.mp4")
  = FormatCompatibility.get_format_info "mp4" /\
  asks_audio_copy Samples.vp9_copy_config = true /\
  video_fallback_needed Samples.vp9_copy_config
    (FormatCompatibility.get_format_info "mp4") = true /\
  exists command video_args config1 audio_args,
    _build_ffmpeg_command "ffmpeg" Scenario.qsv_detector 8
      Samples.vp9_copy_config Samples.no_options "in.mkv" "/out/a.mp4"
      Scenario.sample_input = Some command /\
    _apply_video_settings Scenario.qsv_detector Samples.vp9_copy_config
      Samples.no_options (FormatCompatibility.get_format_info "mp4")
      (output_ext_of "/out/a.mp4") Scenario.sample_input
    = Some (video_args, config1) /\
    audio_args = fst (_apply_audio_settings config1 Samples.no_options
                        (FormatCompatibility.get_format_info "mp4")
                        (output_ext_of "/out/a.mp4")) /\
    audio_args <> ["-c:a"; "copy"].
Proof.
  split; [reflexivity|]. split; [reflexivity|]. split; [reflexivity|].
  destruct (_build_ffmpeg_command "ffmpeg" Scenario.qsv_detector 8
              Samples.vp9_copy_config Samples.no_options "in.mkv"
              "/out/a.mp4" Scenario.sample_input) as [command|] eqn:E;
    [|vm_compute in E; discriminate E].
  destruct (audio_copy_survives_iff_video_kept "ffmpeg"
              Scenario.qsv_detector 8 Samples.vp9_copy_config
              Samples.no_options "in.mkv" "/out/a.mp4" Scenario.sample_input
              (FormatCompatibility.mkFormatInfo "MP4" "mp4" "video"
                 ["h264"; "h265"] ["aac"; "alac"]
                 ["chapters"; "subtitles"; "metadata"])
              command eq_refl eq_refl eq_refl eq_refl eq_refl eq_refl
              eq_refl eq_refl E)
    as (video_args & config1 & audio_args & Hvs & Ha & _ & Hiff).
  exists command, video_args, config1, audio_args.
  split; [reflexivity|]. split; [exact Hvs|]. split; [exact Ha|].
  intros H. apply Hiff in H. discriminate H.
Defined.

(** X13.  For an output in a video container, in a job that is no conversion
    to or from audio, copies no stream and names no encoder, the command
    names after [-c:v] the encoder offered for a video codec the container
    allows and after [-c:a] the default encoder of an audio codec the
    container allows, whatever codecs the job asks for. *)
Theorem build_uses_allowed_codecs (ffmpeg_path : string)
    (hw : HardwareDetector.t) (cpu_count : Z) (config : JobConfig)
    (o : Options) (input_file output_file : string) (input_info : InputInfo)
    (fmt : FormatCompatibility.FormatInfo) (command : list string) :
  FormatCompatibility.get_format_info (output_ext_of output_file)
  = Some fmt ->
  FormatCompatibility.type fmt = "video" ->
  conversion_type_is o "video_to_audio" = false ->
  conversion_type_is o "audio_to_video" = false ->
  video_copy o = false ->
  audio_copy o = false ->
  asks_audio_copy config = false ->
  str_truthy (video_encoder config) = false ->
  str_truthy (audio_encoder o) = false ->
  _build_ffmpeg_command ffmpeg_path hw cpu_count config o input_file
                        output_file input_info = Some command ->
  exists v a video_rest audio_rest config1,
    In v (FormatCompatibility.supported_video_codecs fmt) /\
    In a (FormatCompatibility.supported_audio_codecs fmt) /\
    _apply_video_settings hw config o (Some fmt) (output_ext_of output_file)
                          input_info
    = Some ("-c:v" :: offered_video_encoder hw config v :: video_rest,
            config1) /\
    fst (_apply_audio_settings config1 o (Some fmt)
                               (output_ext_of output_file))
    = "-c:a" :: default_audio_encoder a :: audio_rest /\
    command =
    ([ffmpeg_path; "-y"] ++ acceleration_args hw config ++
     ["-i"; input_file; "-c:v"; offered_video_encoder hw config v] ++
     video_rest ++
     ["-c:a"; default_audio_encoder a] ++ audio_rest ++
     trailing_args cpu_count o output_file)%list.
Proof.
  intros Hfmt Htype Hv2a Ha2v Hvc Hac Hasks Hvenc Haenc Hbuild.
  assert (Htype' : String.eqb (FormatCompatibility.type fmt) "audio" = false)
    by (rewrite Htype; reflexivity).
  destruct (build_video_container _ _ _ _ _ _ _ _ _ _ Hfmt Htype' Hv2a Ha2v
              Hbuild) as (video_args & config1 & Hvs & ->).
  set (C := output_ext_of output_file) in *.
  unfold FormatCompatibility.get_format_info in Hfmt.
  pose proof (formats_well_formed C fmt Hfmt) as Hwf.
  unfold FormatQueries.well_formed in Hwf. rewrite Htype in Hwf.
  cbn [String.eqb Ascii.eqb Bool.eqb] in Hwf.
  apply andb_prop in Hwf as [Hvid _].
  destruct (video_settings_shape _ _ _ _ _ _ _ _ Hvc Hvs)
    as [_ [vrest Hhead]].
  pose proof (video_settings_keep_copy hw C fmt config o input_info _ _
                Hfmt Hvc Hvs) as Hkeep.
  rewrite Hasks in Hkeep. cbn [andb] in Hkeep.
  destruct (audio_settings_allowed C fmt config1 o Hfmt Hac Hkeep)
    as (a & arest & Hain & Haeq).
  unfold chosen_audio_encoder in Haeq. rewrite Haenc in Haeq.
  assert (Henc : select_video_encoder hw config
                   (fst (corrected_codecs config (Some fmt) C))
                 = offered_video_encoder hw config
                     (fst (corrected_codecs config (Some fmt) C))).
  { unfold select_video_encoder. rewrite Hvenc. reflexivity. }
  rewrite Henc in Hhead. subst video_args.
  exists (fst (corrected_codecs config (Some fmt) C)), a, vrest, arest,
    config1.
  split; [now apply corrected_video_allowed|]. split; [exact Hain|].
  split; [exact Hvs|]. split; [exact Haeq|].
  rewrite Haeq. cbn [app]. rewrite <- ?app_assoc. reflexivity.
Qed.

Lemma build_uses_allowed_codecs_witness :
  FormatCompatibility.get_format_info (output_ext_of "/out/a.mp4")
  = FormatCompatibility.get_format_info "mp4" /\
  asks_audio_copy Samples.vp9_opus_config = false /\
  exists command v a video_rest audio_rest,
    _build_ffmpeg_command "ffmpeg" Scenario.qsv_detector 8
      Samples.vp9_opus_config Samples.no_options "in.mkv" "/out/a.mp4"
      Scenario.sample_input = Some command /\
    In v ["h264"; "h265"] /\ In a ["aac"; "alac"] /\
    command =
    (["ffmpeg"; "-y"] ++
     acceleration_args Scenario.qsv_detector Samples.vp9_opus_config ++
     ["-i"; "in.mkv"; "-c:v";
      offered_video_encoder Scenario.qsv_detector Samples.vp9_opus_config v]
     ++ video_rest ++
     ["-c:a"; default_audio_encoder a] ++ audio_rest ++
     trailing_args 8 Samples.no_options "/out/a.mp4")%list.
Proof.
  split; [reflexivity|]. split; [reflexivity|].
  destruct (_build_ffmpeg_command "ffmpeg" Scenario.qsv_detector 8
              Samples.vp9_opus_config Samples.no_options "in.mkv"
              "/out/a.mp4" Scenario.sample_input) as [command|] eqn:E;
    [|vm_compute in E; discriminate E].
  destruct (build_uses_allowed_codecs "ffmpeg" Scenario.qsv_detector 8
              Samples.vp9_opus_config Samples.no_options "in.mkv"
              "/out/a.mp4" Scenario.sample_input
              (FormatCompatibility.mkFormatInfo "MP4" "mp4" "video"
                 ["h264"; "h265"] ["aac"; "alac"]
                 ["chapters"; "subtitles"; "metadata"])
              command eq_refl eq_refl eq_refl eq_refl eq_refl eq_refl
              eq_refl eq_refl eq_refl E)
    as (v & a & vrest & arest & config1 & Hv & Ha & _ & _ & Hc).
  exists command, v, a, vrest, arest.
  split; [reflexivity|]. split; [exact Hv|]. split; [exact Ha | exact Hc].
Defined.

(** The whole command of that job: both codecs replaced by the first ones
    MP4 allows, the hardware encoder of the detector, the default modes. *)
Example build_vp9_opus_to_mp4 :
  _build_ffmpeg_command "ffmpeg" Scenario.qsv_detector 8
    Samples.vp9_opus_config Samples.no_options "in.mkv" "/out/a.mp4"
    Scenario.sample_input
  = Some
    ["ffmpeg"; "-y"; "-hwaccel"; "qsv"; "-hwaccel_output_format"; "qsv";
     "-i"; "in.mkv"; "-c:v"; "h264_qsv"; "-crf"; "23"; "-tune"; "film";
     "-g"; "15"; "-movflags"; "+faststart"; "-c:a"; "aac";
     "-threads"; "8"; "-hide_banner"; "-loglevel"; "info"; "-stats";
     "/out/a.mp4"].
Proof. vm_compute. reflexivity. Qed.

(** A job that names its encoders gets them, whatever the container
    allows. *)
Example named_encoders_are_kept :
  let config :=
    mkJobConfig (Some "vp9") (Some "opus") (Some "libvpx-vp9") (Some true)
                None None None None None PyNone None None None None in
  let o :=
    mkOptions None None None None false None PyNone PyNone PyNone PyNone
              PyNone false None None None Absent PyNone Absent [] PyNone
              PyNone PyNone false (Some "libopus") PyNone PyNone [] in
  _build_ffmpeg_command "ffmpeg" Scenario.qsv_detector 8 config o "in.mkv"
    "/out/a.mp4" Scenario.sample_input
  = Some
    ["ffmpeg"; "-y"; "-hwaccel"; "qsv"; "-hwaccel_output_format"; "qsv";
     "-i"; "in.mkv"; "-c:v"; "libvpx-vp9"; "-crf"; "23"; "-g"; "15";
     "-movflags"; "+faststart"; "-c:a"; "libopus";
     "-threads"; "8"; "-hide_banner"; "-loglevel"; "info"; "-stats";
     "/out/a.mp4"].
Proof. vm_compute. reflexivity. Qed.

(** X14.  For an output in an audio container, in a job that is no
    conversion from audio, does not copy the audio and names no audio
    encoder, the command is built without [_apply_video_settings] and
    without acceleration flags, whatever the job sets for the video: it is
    the input, [-vn], the default encoder of an audio codec the container
    allows, the audio bitrate when that codec is lossy, the sample rate,
    the channels, the extra audio options and the trailing flags. *)
Theorem audio_container_has_no_video_part (ffmpeg_path : string)
    (hw : HardwareDetector.t) (cpu_count : Z) (config : JobConfig)
    (o : Options) (input_file output_file : string) (input_info : InputInfo)
    (fmt : FormatCompatibility.FormatInfo) :
  FormatCompatibility.get_format_info (output_ext_of output_file)
  = Some fmt ->
  FormatCompatibility.type fmt = "audio" ->
  conversion_type_is o "audio_to_video" = false ->
  audio_copy o = false ->
  asks_audio_copy config = false ->
  str_truthy (audio_encoder o) = false ->
  exists a,
    a = snd (corrected_audio config (Some fmt) (output_ext_of output_file)) /\
    In a (FormatCompatibility.supported_audio_codecs fmt) /\
    _build_ffmpeg_command ffmpeg_path hw cpu_count config o input_file
                          output_file input_info
    = Some
      ([ffmpeg_path; "-y"; "-i"; input_file; "-vn"; "-c:a";
        default_audio_encoder a] ++
       (if andb (truthy (audio_bitrate config)) (_is_lossy_audio a)
        then ["-b:a"; str (audio_bitrate config)] else []) ++
       flag_if "-ar" (audio_sample_rate o) ++
       flag_if "-ac" (audio_channels o) ++
       extra_audio_options o ++
       trailing_args cpu_count o output_file)%list.
Proof.
  intros Hfmt Htype Ha2v Hac Hasks Haenc.
  unfold _build_ffmpeg_command. cbv zeta. rewrite Hfmt, Htype.
  change (match conversion_type o with
          | Some t => String.eqb t "audio_to_video"
          | None => false
          end) with (conversion_type_is o "audio_to_video").
  rewrite Ha2v. cbn [String.eqb Ascii.eqb Bool.eqb negb].
  rewrite andb_false_r, orb_true_r.
  unfold FormatCompatibility.get_format_info in Hfmt.
  pose proof (corrected_audio_allowed (output_ext_of output_file) fmt config
                Hfmt) as Hin.
  eexists. split; [reflexivity|]. split; [exact Hin|].
  unfold _apply_audio_settings. rewrite Hac.
  unfold asks_audio_copy in Hasks. rewrite Hasks, Haenc.
  destruct (corrected_audio config (Some fmt) (output_ext_of output_file))
    as [v a]. cbn [fst snd app].
  assert (Hb : audio_bitrate
                 (if audio_fallback_needed config (Some fmt)
                  then set_codecs config v a else config)
               = audio_bitrate config)
    by (destruct (audio_fallback_needed config (Some fmt)); reflexivity).
  rewrite Hb. unfold default_audio_encoder.
  rewrite <- !app_assoc. reflexivity.
Qed.

Lemma audio_container_has_no_video_part_witness :
  FormatCompatibility.get_format_info (output_ext_of "/out/a.flac")
  = FormatCompatibility.get_format_info "flac" /\
  _build_ffmpeg_command "ffmpeg" Scenario.qsv_detector 8
    Samples.vp9_opus_config Samples.no_options "in.mkv" "/out/a.flac"
    Scenario.sample_input
  = Some ["ffmpeg"; "-y"; "-i"; "in.mkv"; "-vn"; "-c:a"; "flac";
          "-threads"; "8"; "-hide_banner"; "-loglevel"; "info"; "-stats";
          "/out/a.flac"].
Proof.
  split; [reflexivity|].
  destruct (audio_container_has_no_video_part "ffmpeg"
              Scenario.qsv_detector 8 Samples.vp9_opus_config
              Samples.no_options "in.mkv" "/out/a.flac" Scenario.sample_input
              (FormatCompatibility.mkFormatInfo "FLAC Lossless" "flac"
                 "audio" [] ["flac"] ["metadata"; "lossless"])
              eq_refl eq_refl eq_refl eq_refl eq_refl eq_refl)
    as (a & Ha & _ & Hc).
  rewrite Hc, Ha. reflexivity.
Defined.

End SynthesisFacts.

(** ** Job execution *)

Section ExecutionFacts.

Import PrimFloat ConversionWorker JobExecutor Observations.

Lemma digit_of_nonneg (c : ascii) (d : Z) :
  PyStr.digit_of c = Some d -> 0 <= d.
Proof.
  unfold PyStr.digit_of. destruct (andb _ _); [|discriminate].
  intros H. injection H as <-. lia.
Qed.

Lemma two_digits_nonneg (s r : string) (n : Z) :
  two_digits s = Some (n, r) -> 0 <= n.
Proof.
  unfold two_digits. destruct s as [|a [|b t]]; try discriminate.
  destruct (PyStr.digit_of a) as [x|] eqn:Ha; [|discriminate].
  destruct (PyStr.digit_of b) as [y|] eqn:Hb; [|discriminate].
  apply digit_of_nonneg in Ha, Hb.
  assert (Hn : 0 <= 10 * x + y) by lia.
  intros H. injection H as <- _. exact Hn.
Qed.

Lemma time_here_nonneg (s : string) (h m : Z) (sec : Q) :
  time_here s = Some (h, m, sec) -> 0 <= h /\ 0 <= m /\ (0 <= sec)%Q.
Proof.
  unfold time_here. destruct (PyStr.startswith "time=" s); [|discriminate].
  destruct (two_digits _) as [[h' s1]|] eqn:H1; [|discriminate].
  destruct (expect ":" s1) as [s2|]; [|discriminate].
  destruct (two_digits s2) as [[m' s3]|] eqn:H2; [|discriminate].
  destruct (expect ":" s3) as [s4|]; [|discriminate].
  destruct (two_digits s4) as [[sec' s5]|] eqn:H3; [|discriminate].
  destruct (expect "." s5) as [s6|]; [|discriminate].
  destruct (two_digits s6) as [[cs s7]|] eqn:H4; [|discriminate].
  apply two_digits_nonneg in H1, H2, H3, H4.
  assert (Hs : (0 <= inject_Z (100 * sec' + cs) / 100)%Q).
  { assert (Hn : 0 <= 100 * sec' + cs) by lia.
    revert Hn. generalize (100 * sec' + cs). intros z Hz.
    unfold Qle, Qdiv, Qmult, Qinv, inject_Z. cbn [Qnum Qden]. lia. }
  intros H. injection H as <- <- <-.
  repeat split; assumption.
Qed.

Lemma time_search_nonneg (s : string) (h m : Z) (sec : Q) :
  time_search s = Some (h, m, sec) -> 0 <= h /\ 0 <= m /\ (0 <= sec)%Q.
Proof.
  induction s as [|c r IH]; cbn [time_search].
  - destruct (time_here "") as [[[h' m'] sec']|] eqn:E; [|discriminate].
    intros H. injection H as <- <- <-. now apply time_here_nonneg in E.
  - destruct (time_here (String c r)) as [[[h' m'] sec']|] eqn:E; [|exact IH].
    intros H. injection H as <- <- <-. now apply time_here_nonneg in E.
Qed.

Lemma Qmin_bounds (x : Q) : (10 <= x)%Q ->
  (10 <= PyNum.Qmin x 99)%Q /\ (PyNum.Qmin x 99 <= 99)%Q.
Proof.
  intros Hx. unfold PyNum.Qmin. destruct (Qle_bool x 99) eqn:E.
  - apply Qle_bool_iff in E. now split.
  - split; [discriminate | apply Qle_refl].
Qed.

Lemma inject_Z_nonneg (z : Z) : 0 <= z -> (0 <= inject_Z z)%Q.
Proof. intros H. unfold Qle. cbn. lia. Qed.

(** A float above zero that is no infinity has an exact value above
    zero. *)
Lemma exact_positive (d : PrimFloat.float) (q : Q) :
  PrimFloat.ltb 0%float d = true -> Binary64.exact d = Some q -> (0 < q)%Q.
Proof.
  rewrite FloatAxioms.ltb_spec. unfold Binary64.exact, SpecFloat.SFltb.
  change (FloatOps.Prim2SF 0%float) with (SpecFloat.S754_zero false).
  destruct (FloatOps.Prim2SF d) as [s|s| |s mant e];
    cbn [SpecFloat.SFcompare]; try discriminate.
  destruct s; [discriminate|]. intros _ H. injection H as <-.
  apply finite_value_pos.
Qed.

(** The progress computed from a line lies between 10 and 99. *)
Lemma line_progress_bounds (line : string) (d : PrimFloat.float) (p : Q) :
  In p (progress_values_of (line_progress line d)) ->
  (10 <= p)%Q /\ (p <= 99)%Q.
Proof.
  unfold line_progress.
  destruct (time_search line) as [[[h m] sec]|] eqn:Hs; [|intros []].
  destruct (PrimFloat.ltb 0%float d) eqn:Hd; [|intros []].
  cbn. intros [<-|[]]. apply Qmin_bounds.
  apply time_search_nonneg in Hs as (Hh & Hm & Hsec).
  apply inject_Z_nonneg in Hh, Hm.
  setoid_replace (10 : Q) with (0 + 10)%Q at 1 by ring.
  apply Qplus_le_compat; [|apply Qle_refl].
  apply Qmult_le_0_compat; [|discriminate].
  destruct (Binary64.exact d) as [q|] eqn:Hq; [|apply Qle_refl].
  pose proof (exact_positive d q Hd Hq) as Hdpos.
  unfold Qdiv. apply Qmult_le_0_compat.
  - assert (H1 : (0 <= inject_Z h * 3600)%Q)
      by (apply Qmult_le_0_compat; [assumption | discriminate]).
    assert (H2 : (0 <= inject_Z m * 60)%Q)
      by (apply Qmult_le_0_compat; [assumption | discriminate]).
    setoid_replace (0 : Q) with (0 + 0 + 0)%Q by ring.
    repeat apply Qplus_le_compat; assumption.
  - apply Qinv_le_0_compat. now apply Qlt_le_weak.
Qed.

Lemma progress_values_app (l1 l2 : list Effect) :
  progress_values_of (l1 ++ l2)
  = (progress_values_of l1 ++ progress_values_of l2)%list.
Proof.
  unfold progress_values_of. rewrite signals_app. apply flat_map_app.
Qed.

Lemma read_output_progress_bounds (events : list OutputEvent) (p : Q) :
  forall (st : bool) (lines : list string) (d : PrimFloat.float),
    In p (progress_values_of (emitted (read_output events st lines d))) ->
    (10 <= p)%Q /\ (p <= 99)%Q.
Proof.
  induction events as [|[line| |exc] rest IH]; intros st lines d;
    cbn [read_output].
  - intros [].
  - destruct st; cbn [emitted]; [intros []|].
    rewrite progress_values_app, in_app_iff.
    intros [H|H]; [now apply line_progress_bounds in H | eapply IH; eauto].
  - apply IH.
  - intros [].
Qed.

Lemma execute_progress_bounds (w : World) (d : PrimFloat.float) (p : Q) :
  In p (progress_values_of (snd (_execute_conversion w d))) ->
  (10 <= p)%Q /\ (p <= 99)%Q.
Proof.
  unfold _execute_conversion.
  destruct (popen_error w); [intros []|].
  destruct (raised _); [apply read_output_progress_bounds|].
  destruct (cancelled _); [apply read_output_progress_bounds|].
  destruct (Z.eqb _ 0); apply read_output_progress_bounds.
Qed.

(** X15.  Every progress value a run emits lies between 0 and 100, and a
    value above 99 is only emitted by a run that reports success: the
    values computed from the child's output stay between 10 and 99
    ([read_output_progress_bounds]). *)
Theorem progress_within_bounds (w : World) (fs : TempFileManager.FS)
    (p : Q) :
  In p (progress_values_of (fst (run w fs))) ->
  (0 <= p)%Q /\ (p <= 100)%Q /\
  ((99 < p)%Q -> outcomes (fst (run w fs)) = [Succeeded]).
Proof.
  unfold run, TempFileManager.create_temp_dir.
  destruct (mkdir_error w) as [e|]; cbn [fst]; [intros []|].
  rewrite progress_values_app, outcomes_app.
  change (progress_values_of [Cleanup _]) with (@nil Q).
  change (outcomes [Cleanup _]) with (@nil Outcome).
  rewrite !app_nil_r. unfold run_body.
  destruct (input_file w); [|intros []].
  destruct (output_file w) as [out|]; [|intros []].
  destruct (probe w) as [info|].
  2:{ cbn. intros [<-|[]]. repeat split; discriminate. }
  destruct (build_error w) as [e|].
  { cbn. intros [<-|[<-|[]]]; repeat split; discriminate. }
  pose proof (execute_progress_bounds w (ConversionWorker.duration info) p)
    as Hloop.
  destruct (execute_quiet w (ConversionWorker.duration info)) as [Hq _].
  destruct (_execute_conversion w (ConversionWorker.duration info))
    as [[success m] em]. cbn [snd] in Hloop, Hq.
  change (?a :: ?b :: ?c :: ?l)%list with ([a; b; c] ++ l)%list.
  rewrite !progress_values_app, !outcomes_app, Hq.
  change (progress_values_of [_; _; _]) with [0%Q; 5%Q; 10%Q].
  change (outcomes [_; _; _]) with (@nil Outcome). cbn [app].
  intros [<-|[<-|[<-|Hin]]]; try (repeat split; discriminate).
  apply in_app_iff in Hin as [Hin|Hin].
  - destruct (Hloop Hin) as [H10 H99]. split; [|split].
    + apply Qle_trans with (y := 10%Q); [discriminate | assumption].
    + apply Qle_trans with (y := 99%Q); [assumption | discriminate].
    + intros H. exfalso. apply (Qlt_not_le _ _ H H99).
  - destruct success.
    + cbn in Hin. destruct Hin as [<-|[]].
      repeat split; try discriminate.
    + exfalso. rewrite progress_values_app in Hin.
      apply in_app_iff in Hin as [Hin|Hin].
      * destruct (andb _ _); destruct Hin.
      * destruct Hin.
Qed.

Lemma progress_within_bounds_witness :
  In (100 # 1)%Q (progress_values_of (fst (run Scenario.removal_fails
                                              Scenario.no_files))) /\
  outcomes (fst (run Scenario.removal_fails Scenario.no_files))
  = [Succeeded].
Proof.
  assert (Hin : In (100 # 1)%Q
                   (progress_values_of (fst (run Scenario.removal_fails
                                               Scenario.no_files)))).
  { vm_compute. do 4 right. left. reflexivity. }
  split; [exact Hin|].
  apply (progress_within_bounds _ _ _ Hin). reflexivity.
Defined.

Lemma lastn_all {A} (n : nat) (l : list A) :
  (List.length l <= n)%nat -> lastn n l = l.
Proof.
  intros H. unfold lastn.
  replace (List.length l - n)%nat with 0%nat by lia. reflexivity.
Qed.

Lemma lastn_length {A} (n : nat) (l : list A) :
  (List.length (lastn n l) <= n)%nat.
Proof. unfold lastn. rewrite length_skipn. lia. Qed.

Lemma lastn_app_lastn {A} (n : nat) (a b : list A) :
  lastn n (lastn n a ++ b) = lastn n (a ++ b).
Proof.
  destruct (Nat.le_gt_cases (List.length a) n) as [Hle|Hgt].
  - now rewrite (lastn_all n a Hle).
  - unfold lastn. rewrite !length_app, length_skipn.
    replace (List.length a - (List.length a - n) + List.length b - n)%nat
      with (List.length b) by lia.
    replace (List.length a + List.length b - n)%nat
      with (List.length b + (List.length a - n))%nat by lia.
    rewrite <- skipn_skipn. f_equal.
    rewrite skipn_app.
    replace (List.length a - n - List.length a)%nat with 0%nat by lia.
    reflexivity.
Qed.

Lemma lastn_lastn {A} (m n : nat) (l : list A) :
  (m <= n)%nat -> lastn m (lastn n l) = lastn m l.
Proof.
  intros Hmn. unfold lastn. rewrite length_skipn, skipn_skipn.
  f_equal. lia.
Qed.

Lemma remember_lastn (l : list string) (x : string) :
  (List.length l <= 200)%nat -> remember l x = lastn 200 (l ++ [x]).
Proof.
  intros Hl. unfold remember, lastn.
  rewrite length_app. cbn [List.length].
  destruct (Nat.ltb_spec 200 (List.length l + 1)) as [H|H].
  - replace (List.length l + 1 - 200)%nat with 1%nat by lia.
    reflexivity.
  - replace (List.length l + 1 - 200)%nat with 0%nat by lia.
    reflexivity.
Qed.

(** The buffer of the reading loop holds the last 200 of the lines kept
    so far. *)
Lemma read_output_lines (events : list OutputEvent) (d : PrimFloat.float) :
  forall (st : bool) (lines : list string),
    (List.length lines <= 200)%nat ->
    output_lines (read_output events st lines d)
    = lastn 200 (lines ++ lines_read events st).
Proof.
  induction events as [|[line| |exc] rest IH]; intros st lines Hl;
    cbn [read_output lines_read].
  - cbn [output_lines]. rewrite app_nil_r. symmetry. now apply lastn_all.
  - set (kept := if String.eqb (PyStr.rstrip line) "" then []
                 else [PyStr.rstrip line]).
    assert (Hk : (if String.eqb (PyStr.rstrip line) "" then lines
                  else remember lines (PyStr.rstrip line))
                 = lastn 200 (lines ++ kept)).
    { unfold kept. destruct (String.eqb (PyStr.rstrip line) "").
      - rewrite app_nil_r. symmetry. now apply lastn_all.
      - now apply remember_lastn. }
    rewrite Hk. destruct st; cbn [output_lines]; [reflexivity|].
    rewrite IH by apply lastn_length.
    rewrite lastn_app_lastn, app_assoc. reflexivity.
  - now apply IH.
  - cbn [output_lines]. rewrite app_nil_r. symmetry. now apply lastn_all.
Qed.

(** X16.  The bound of 200 lines on the buffer of the reading loop never
    shows: the lines quoted in a failure message, [output_lines[-20:]],
    are the last 20 of all the non-blank lines read, however many were
    read and dropped. *)
Theorem failure_tail_is_last_20_lines (events : list OutputEvent)
    (st : bool) (d : PrimFloat.float) :
  last20 (output_lines (read_output events st [] d))
  = lastn 20 (lines_read events st).
Proof.
  rewrite read_output_lines by (cbn; lia). cbn [app].
  change (last20 ?l) with (lastn 20 l).
  apply lastn_lastn. lia.
Qed.

Lemma on_exception_shape (e : string) :
  exists body ok m,
    on_exception e = (body ++ [Emit (finished ok m)])%list /\
    outcomes body = [] /\ (ok = true -> error_messages body = []).
Proof.
  exists [Emit (error ("Conversion error: " ++ e))], false, e.
  repeat split. discriminate.
Qed.

Lemma run_body_shape (w : World) :
  exists body ok m,
    run_body w = (body ++ [Emit (finished ok m)])%list /\
    outcomes body = [] /\ (ok = true -> error_messages body = []).
Proof.
  unfold run_body.
  destruct (input_file w); [|apply on_exception_shape].
  destruct (output_file w) as [out|]; [|apply on_exception_shape].
  destruct (probe w) as [info|].
  2:{ exists [Emit (progress 0 "Analyzing input file...");
              Emit (error "Failed to analyze input file")],
             false, "Analysis failed".
      repeat split. discriminate. }
  destruct (build_error w) as [e|].
  { exists [Emit (progress 0 "Analyzing input file...");
            Emit (progress 5 "Building conversion command...");
            Emit (error ("Conversion error: " ++ e))], false, e.
    repeat split. discriminate. }
  destruct (execute_quiet w (ConversionWorker.duration info)) as [Hq He].
  destruct (_execute_conversion w (ConversionWorker.duration info))
    as [[success msg] em]. cbn [snd] in Hq, He.
  destruct success.
  - exists ([Emit (progress 0 "Analyzing input file...");
             Emit (progress 5 "Building conversion command...");
             Emit (progress 10 "Starting conversion...")] ++ em ++
            [Emit (progress 100 "Conversion complete!")])%list, true, out.
    split; [|split].
    + cbn [app]. rewrite <- app_assoc. reflexivity.
    + rewrite !outcomes_app, Hq. reflexivity.
    + intros _. rewrite !error_messages_app, He. reflexivity.
  - exists ([Emit (progress 0 "Analyzing input file...");
             Emit (progress 5 "Building conversion command...");
             Emit (progress 10 "Starting conversion...")] ++ em ++
            (if andb (negb (String.eqb msg ""))
                     (negb (String.eqb msg "Conversion cancelled"))
             then [Emit (error msg)] else []))%list, false,
           (if String.eqb msg "" then "Conversion failed" else msg).
    split; [|split].
    + cbn [app]. rewrite <- !app_assoc. reflexivity.
    + rewrite !outcomes_app, Hq. destruct (andb _ _); reflexivity.
    + discriminate.
Qed.

(** X17.  Every run ends its signals with [finished]: what it emits is some
    signals none of which is [finished], then one [finished], then at most
    the removal of its temporary directory; and when that [finished]
    reports success, no [error] was emitted before it. *)
Theorem finished_is_last_signal (w : World) (fs : TempFileManager.FS) :
  exists body ok m rest,
    fst (run w fs) = (body ++ [Emit (finished ok m)] ++ rest)%list /\
    outcomes body = [] /\ signals rest = [] /\
    (ok = true -> error_messages body = []).
Proof.
  unfold run, TempFileManager.create_temp_dir.
  destruct (mkdir_error w) as [e|]; cbn [fst].
  - destruct (on_exception_shape e) as (body & ok & m & H & Ho & He).
    exists body, ok, m, []. rewrite H. auto.
  - destruct (run_body_shape w) as (body & ok & m & H & Ho & He).
    exists body, ok, m,
      [Cleanup (session_dir w ++ "/" ++ "job_" ++ uuid w)%string].
    rewrite H, <- app_assoc. auto.
Qed.

End ExecutionFacts.

(** ** The scheduler over whole runs *)

Section SchedulerRuns.

Import MainWindow Observations.

Variable N : Z.
Variable path : string.
Variable m : HardwareDetector.Machine.
Variable comp : bool.

Lemma thread_starts_app (a b : list UiEffect) :
  thread_starts (a ++ b) = (thread_starts a ++ thread_starts b)%list.
Proof. apply flat_map_app. Qed.

Lemma completion_shown_app (a b : list UiEffect) :
  completion_shown (a ++ b) = orb (completion_shown a) (completion_shown b).
Proof. apply existsb_app. Qed.

Lemma creation_failures_app (a b : list UiEffect) :
  creation_failures (a ++ b)
  = (creation_failures a + creation_failures b)%nat.
Proof.
  unfold creation_failures. rewrite filter_app. apply length_app.
Qed.

Lemma quiet_effects (l : list UiEffect) :
  forallb quiet l = true ->
  thread_starts l = [] /\ completion_shown l = false /\
  creation_failures l = 0%nat.
Proof.
  induction l as [|e l IH]; [repeat split|].
  cbn [forallb]. intros H. apply andb_prop in H as [He Hl].
  destruct (IH Hl) as (Ht & Hc & Hf).
  change (e :: l)%list with ([e] ++ l)%list.
  rewrite thread_starts_app, completion_shown_app, creation_failures_app,
    Ht, Hc, Hf.
  destruct e as [kind title text| | | | | | | |]; try discriminate He;
    try (repeat split; reflexivity).
  unfold quiet in He. unfold completion_shown, creation_failures.
  cbn [existsb filter].
  destruct (String.eqb kind "information"); [discriminate He|].
  destruct (String.eqb kind "critical"); [discriminate He|].
  repeat split; reflexivity.
Qed.

(** One call of [process_next_in_queue] on a queue that is not empty:
    the first file leaves the queue, and either its thread is started or,
    there being no detector and none that reports success, the job is
    dropped. *)
Lemma process_next_nonempty (s : State) (f : string) (rest : list string) :
  conversion_queue s = f :: rest ->
  conversion_queue (process_next_in_queue path m s) = rest /\
  (hw_detector s <> None ->
   hw_detector (process_next_in_queue path m s) <> None) /\
  (path <> "" -> hw_detector (process_next_in_queue path m s) <> None) /\
  (((exists t w, ui (process_next_in_queue path m s)
                 = (ui s ++ [QueueListTakeItem; ThreadStart t w f])%list) /\
    (path = "" -> hw_detector s <> None)) \/
   (ui (process_next_in_queue path m s)
    = (ui s ++ [QueueListTakeItem;
                MessageBox "critical" "Error"
                           "Failed to create conversion job"])%list /\
    hw_detector s = None /\
    (path = "" -> hw_detector (process_next_in_queue path m s) = None) /\
    (path = "" \/
     snd (HardwareDetector.detect m (HardwareDetector.init path)) = false))).
Proof.
  intros Hq. unfold process_next_in_queue. rewrite Hq.
  unfold create_conversion_job. cbn [hw_detector].
  destruct (hw_detector s) as [hw|] eqn:Hhw.
  - cbn. rewrite <- app_assoc. repeat split; try discriminate.
    left. split; [do 2 eexists; reflexivity | discriminate].
  - unfold initialize_hardware.
    destruct (String.eqb_spec path "") as [Hp|Hp].
    + cbn. rewrite <- app_assoc. repeat split; try congruence.
      right. repeat split; auto.
    + destruct (HardwareDetector.detect m (HardwareDetector.init path))
        as [hw ok]. destruct ok; cbn; rewrite <- app_assoc.
      * repeat split; try discriminate. left. split; [do 2 eexists; reflexivity | congruence].
      * repeat split; try discriminate. right.
        repeat split; auto; congruence.
Qed.

Lemma fill_loop_preserves (P : State -> Prop) :
  (forall s f rest, P s -> conversion_queue s = f :: rest ->
                    P (process_next_in_queue path m s)) ->
  forall n s, P s -> P (fill_loop N path m n s).
Proof.
  intros Hstep. induction n as [|n IH]; intros s Hs; cbn [fill_loop];
    [assumption|].
  destruct (slot_free N s) eqn:Hfree; [|assumption].
  apply IH. unfold slot_free in Hfree.
  destruct (conversion_queue s) as [|f rest] eqn:Hq; [discriminate|].
  eapply Hstep; eauto.
Qed.

Lemma release_worker_quiet (sender : option nat) (s : State) :
  exists l, forallb quiet l = true /\
            ui (release_worker sender s) = (ui s ++ l)%list /\
            hw_detector (release_worker sender s) = hw_detector s /\
            conversion_queue (release_worker sender s) = conversion_queue s.
Proof.
  unfold release_worker.
  destruct (match sender with
            | Some worker => find_worker (active_conversions s) worker
            | None => None
            end) as [[key thr]|].
  - exists [ThreadQuit thr]. repeat split.
  - destruct (PyDict.popitem (active_conversions s))
      as [[[key [thr w]] rest]|].
    + exists [ThreadQuit thr]. repeat split.
    + exists []. repeat split.
Qed.

Lemma stops_quiet (d : PyDict.t (nat * nat)) :
  forallb quiet
    (flat_map (fun kv => [WorkerStop (snd (snd kv));
                          ThreadQuit (fst (snd kv))]) d ++
     [SetButtons true false]) = true.
Proof. induction d as [|kv d IH]; [reflexivity | exact IH]. Qed.

Lemma added_quiet (files : list string) :
  forallb quiet (map QueueListAddItem files) = true.
Proof. induction files as [|f files IH]; [reflexivity | exact IH]. Qed.

(** The handlers that do not fill the slots only add quiet effects. *)
Lemma handle_quiet (e : Event) (s : State) :
  fills_slots e = false ->
  exists l, forallb quiet l = true /\
            ui (handle N path m comp e s) = (ui s ++ l)%list /\
            (hw_detector s <> None ->
             hw_detector (handle N path m comp e s) <> None) /\
            (path = "" -> hw_detector s = None ->
             hw_detector (handle N path m comp e s) = None) /\
            conversion_queue (handle N path m comp e s)
            = (if is_clear e then []
               else conversion_queue s ++ files_added [e])%list.
Proof.
  destruct e as [files| |ok| | |w p|w ok msg]; cbn [fills_slots handle];
    intros He; try discriminate He.
  - exists (map QueueListAddItem files). cbn. rewrite app_nil_r.
    repeat split; auto using added_quiet.
  - exists [QueueListClear]. cbn. repeat split; auto.
  - exists (flat_map (fun kv => [WorkerStop (snd (snd kv));
                                 ThreadQuit (fst (snd kv))])
                     (active_conversions s) ++ [SetButtons true false])%list.
    cbn. rewrite app_nil_r. repeat split; auto using stops_quiet.
  - exists []. unfold initialize_hardware. rewrite !app_nil_r.
    destruct (String.eqb_spec path "") as [Hp|Hp]; cbn [fst].
    + cbn. repeat split; auto.
    + destruct (HardwareDetector.detect m (HardwareDetector.init path))
        as [hw ok]. cbn. repeat split; auto; try discriminate.
      intros Hp'. congruence.
  - unfold on_conversion_progress. cbn. rewrite app_nil_r.
    eexists. repeat split; auto.
    destruct (match find_worker (active_conversions s) w with
              | Some (key, _) => PyDict.set (progress_values s) key p
              | None => progress_values s
              end); [reflexivity|].
    destruct (Binary64.mean comp _) as [avg|]; [|reflexivity].
    destruct (Binary64.int_of_float avg) as [n|]; [|reflexivity].
    destruct (c_int n); reflexivity.
  - destruct ok; [discriminate He|]. unfold on_conversion_finished.
    destruct (release_worker_quiet w s) as (l & Hl & Hu & Hh & Hq).
    cbn [is_clear files_added flat_map]. rewrite !app_nil_r.
    destruct (String.eqb _ "Conversion cancelled").
    + exists l. rewrite Hu, Hh, Hq. repeat split; auto.
    + eexists (l ++ [_])%list. cbn [show ui hw_detector conversion_queue].
      rewrite Hu, Hh, Hq, <- app_assoc. repeat split; auto.
      rewrite forallb_app, Hl. reflexivity.
Qed.

(** The handlers that fill the slots: quiet effects, then possibly the
    loop of [fill_conversion_slots]. *)
Lemma handle_fills (e : Event) (s : State) :
  fills_slots e = true ->
  exists l s', forallb quiet l = true /\
               ui s' = (ui s ++ l)%list /\
               conversion_queue s' = conversion_queue s /\
               hw_detector s' = hw_detector s /\
               (handle N path m comp e s = s' \/
                handle N path m comp e s = fill_conversion_slots N path m s').
Proof.
  destruct e as [files| |ok| | |w p|w ok msg]; cbn [fills_slots handle];
    try discriminate.
  - intros _. unfold start_conversion.
    destruct (conversion_queue s) eqn:Hq.
    + exists [MessageBox "warning" "No Files"
                         "Please add files to the queue first."],
             (show s [MessageBox "warning" "No Files"
                                 "Please add files to the queue first."]).
      repeat match goal with |- _ /\ _ => split end;
        try reflexivity; try (cbn; assumption). now left.
    + destruct ok.
      * exists [SetButtons false true], (show s [SetButtons false true]).
        repeat match goal with |- _ /\ _ => split end;
          try reflexivity; try (cbn; assumption). now right.
      * exists [MessageBox "warning" "Invalid Output"
                           "Please select a valid output directory."],
               (show s [MessageBox "warning" "Invalid Output"
                                   "Please select a valid output directory."]).
        repeat match goal with |- _ /\ _ => split end;
          try reflexivity; try (cbn; assumption). now left.
  - destruct ok; [intros _|discriminate]. unfold on_conversion_finished.
    destruct (release_worker_quiet w s) as (l & Hl & Hu & Hh & Hq).
    exists l, (release_worker w s).
    repeat match goal with |- _ /\ _ => split end; auto.
Qed.

(** A property of the window kept by quiet effects and by every call of
    [process_next_in_queue] on a queue that is not empty holds after every
    sequence of events. *)
Lemma fill_conversion_slots_preserves (P : State -> Prop) (s : State) :
  (forall s f rest, P s -> conversion_queue s = f :: rest ->
                    P (process_next_in_queue path m s)) ->
  P s -> P (fill_conversion_slots N path m s).
Proof. intros Hstep. now apply fill_loop_preserves. Qed.

Lemma completion_step (s : State) (f : string) (rest : list string) :
  completion_shown (ui s) = false -> conversion_queue s = f :: rest ->
  completion_shown (ui (process_next_in_queue path m s)) = false.
Proof.
  intros Hs Hq.
  destruct (process_next_nonempty s f rest Hq)
    as (_ & _ & _ & [[(t & w & ->) _]|(-> & _)]);
    rewrite completion_shown_app, Hs; reflexivity.
Qed.

Lemma completion_handle (e : Event) (s : State) :
  completion_shown (ui s) = false ->
  completion_shown (ui (handle N path m comp e s)) = false.
Proof.
  intros Hs. destruct (fills_slots e) eqn:He.
  - destruct (handle_fills e s He) as (l & s' & Hl & Hu & _ & _ & H).
    assert (Hs' : completion_shown (ui s') = false).
    { rewrite Hu, completion_shown_app, Hs.
      now destruct (quiet_effects l Hl) as (_ & -> & _). }
    destruct H as [->| ->]; [assumption|].
    apply (fill_conversion_slots_preserves
             (fun s => completion_shown (ui s) = false));
      [apply completion_step | assumption].
  - destruct (handle_quiet e s He) as (l & Hl & -> & _).
    rewrite completion_shown_app, Hs.
    now destruct (quiet_effects l Hl) as (_ & -> & _).
Qed.

(** X19.  The box telling that all conversions are completed is never shown.
    [process_next_in_queue] opens it when it finds the queue and the active
    set empty, but its only caller, the loop of [fill_conversion_slots],
    calls it while the queue is not empty: after any sequence of user
    actions and worker signals the box has not been opened (nor are the
    buttons reset and the progress bar cleared by that branch). *)
Theorem completion_never_shown (es : list Event) :
  completion_shown (ui (run_events N path m comp es init)) = false.
Proof.
  assert (H : forall s, completion_shown (ui s) = false ->
                        completion_shown (ui (run_events N path m comp es s))
                        = false).
  { induction es as [|e es IH]; intros s Hs; cbn; [assumption|].
    apply IH. now apply completion_handle. }
  apply H. reflexivity.
Qed.

(** X20.  Threads are started by [start_conversion] and by the [finished]
    signal of a successful job only: over any sequence of other events
    (files added, queue cleared, stop, hardware detection, progress,
    failed or cancelled jobs) no thread is started, so after a failure or a
    cancellation the files still queued wait, even with free slots. *)
Theorem starts_need_start_or_success (es : list Event) (s : State) :
  forallb (fun e => negb (fills_slots e)) es = true ->
  thread_starts (ui (run_events N path m comp es s)) = thread_starts (ui s) /\
  conversion_queue (run_events N path m comp es s)
  = fold_left (fun q e => if is_clear e then []
                          else (q ++ files_added [e])%list)
              es (conversion_queue s).
Proof.
  revert s. induction es as [|e es IH]; intros s Hes; cbn; [auto|].
  cbn [forallb] in Hes. apply andb_prop in Hes as [He Hes].
  apply negb_true_iff in He.
  destruct (handle_quiet e s He) as (l & Hl & Hu & _ & _ & Hq).
  destruct (IH (handle N path m comp e s) Hes) as [IH1 IH2].
  unfold run_events in IH1, IH2. rewrite IH1, IH2, Hu, Hq.
  rewrite thread_starts_app.
  destruct (quiet_effects l Hl) as (-> & _).
  rewrite app_nil_r. cbn [files_added flat_map]. auto.
Qed.

Lemma failures_step (s : State) (f : string) (rest : list string) :
  path <> "" ->
  let bound :=
    if snd (HardwareDetector.detect m (HardwareDetector.init path))
    then 0%nat else 1%nat in
  ((creation_failures (ui s) <= bound)%nat /\
   (hw_detector s = None -> creation_failures (ui s) = 0%nat)) ->
  conversion_queue s = f :: rest ->
  (creation_failures (ui (process_next_in_queue path m s)) <= bound)%nat /\
  (hw_detector (process_next_in_queue path m s) = None ->
   creation_failures (ui (process_next_in_queue path m s)) = 0%nat).
Proof.
  intros Hp bound [Hb H0] Hq.
  destruct (process_next_nonempty s f rest Hq)
    as (_ & _ & Hhw & [[(t & w & ->) _]|(-> & Hnone & _ & Hd)]).
  - rewrite creation_failures_app. cbn.
    split; [lia | intros H; now apply Hhw in H].
  - rewrite creation_failures_app, (H0 Hnone). cbn.
    split; [|intros H; now apply Hhw in H].
    destruct Hd as [Hd|Hd]; [contradiction|].
    unfold bound. rewrite Hd. lia.
Qed.

(** X21.  With a non-empty ffmpeg path at most one job is ever dropped for
    want of a worker, and none when hardware detection reports an
    acceleration method.  [create_conversion_job] refuses only while the
    engine has no detector; [initialize_hardware] leaves a detector behind
    even when it reports failure, so on a machine without acceleration the
    first job is dropped and every later one is created. *)
Theorem at_most_one_job_dropped (es : list Event) :
  path <> "" ->
  (creation_failures (ui (run_events N path m comp es init))
   <= if snd (HardwareDetector.detect m (HardwareDetector.init path))
      then 0 else 1)%nat.
Proof.
  intros Hp.
  set (bound := if snd (HardwareDetector.detect m
                          (HardwareDetector.init path))
                then 0%nat else 1%nat).
  set (P := fun s : State =>
              (creation_failures (ui s) <= bound)%nat /\
              (hw_detector s = None -> creation_failures (ui s) = 0%nat)).
  assert (Hquiet : forall s s' l,
             forallb quiet l = true -> ui s' = (ui s ++ l)%list ->
             (hw_detector s <> None -> hw_detector s' <> None) ->
             P s -> P s').
  { intros s s' l Hl Hu Hh [Hb H0]. unfold P.
    rewrite Hu, creation_failures_app.
    destruct (quiet_effects l Hl) as (_ & _ & ->). rewrite Nat.add_0_r.
    split; [assumption|]. intros Hn. apply H0.
    destruct (hw_detector s); [|reflexivity].
    exfalso. apply Hh; [discriminate | assumption]. }
  assert (Hhandle : forall e s, P s -> P (handle N path m comp e s)).
  { intros e s Hs. destruct (fills_slots e) eqn:He.
    - destruct (handle_fills e s He) as (l & s' & Hl & Hu & _ & Hh & H).
      assert (Hs' : P s').
      { apply (Hquiet s s' l Hl Hu); [congruence | assumption]. }
      destruct H as [->| ->]; [assumption|].
      apply (fill_conversion_slots_preserves P); [|assumption].
      intros s0 f rest. now apply failures_step.
    - destruct (handle_quiet e s He) as (l & Hl & Hu & Hh & _).
      now apply (Hquiet s _ l Hl Hu). }
  assert (H : forall s, P s -> P (run_events N path m comp es s)).
  { induction es as [|e es IH]; intros s Hs; cbn; [assumption|].
    apply IH. now apply Hhandle. }
  apply H. split; [cbn; lia | reflexivity].
Qed.

Lemma no_path_step (s : State) (f : string) (rest : list string) :
  path = "" ->
  hw_detector s = None /\ thread_starts (ui s) = [] ->
  conversion_queue s = f :: rest ->
  hw_detector (process_next_in_queue path m s) = None /\
  thread_starts (ui (process_next_in_queue path m s)) = [].
Proof.
  intros Hp [Hn Ht] Hq.
  destruct (process_next_nonempty s f rest Hq)
    as (_ & _ & _ & [[_ Hhw]|(-> & _ & Hnone & _)]).
  - exfalso. now apply Hhw.
  - rewrite thread_starts_app, Ht. auto.
Qed.

Lemma no_path_handle (e : Event) (s : State) :
  path = "" ->
  hw_detector s = None /\ thread_starts (ui s) = [] ->
  hw_detector (handle N path m comp e s) = None /\
  thread_starts (ui (handle N path m comp e s)) = [].
Proof.
  intros Hp [Hn Ht]. destruct (fills_slots e) eqn:He.
  - destruct (handle_fills e s He) as (l & s' & Hl & Hu & _ & Hh & H).
    assert (Hs' : hw_detector s' = None /\ thread_starts (ui s') = []).
    { rewrite Hh, Hu, thread_starts_app, Ht.
      now destruct (quiet_effects l Hl) as (-> & _). }
    destruct H as [->| ->]; [assumption|].
    apply (fill_conversion_slots_preserves
             (fun s => hw_detector s = None /\ thread_starts (ui s) = []));
      [|assumption].
    intros s0 f rest. now apply no_path_step.
  - destruct (handle_quiet e s He) as (l & Hl & Hu & _ & Hh & _).
    rewrite Hu, thread_starts_app, Ht.
    destruct (quiet_effects l Hl) as (-> & _). auto.
Qed.

Lemma fifo_step (K : list string) (s : State) (f : string)
    (rest : list string) :
  hw_detector s <> None /\
  (thread_starts (ui s) ++ conversion_queue s)%list = K ->
  conversion_queue s = f :: rest ->
  hw_detector (process_next_in_queue path m s) <> None /\
  (thread_starts (ui (process_next_in_queue path m s)) ++
   conversion_queue (process_next_in_queue path m s))%list = K.
Proof.
  intros [Hhw HK] Hq.
  destruct (process_next_nonempty s f rest Hq)
    as (Hrest & Hkeep & _ & [[(t & w & Hu) _]|(_ & Hnone & _)]).
  - split; [auto|]. rewrite Hu, Hrest, thread_starts_app, <- HK, Hq.
    cbn. rewrite <- app_assoc. reflexivity.
  - contradiction.
Qed.

(** X22.  Once the engine has a detector, files are started in the order in
    which they were added and none is lost: over any sequence of events
    that does not clear the queue, the files of the threads started so
    far, followed by the files still queued, are the files started and
    queued before, followed by the files added since. *)
Theorem started_in_arrival_order (es : list Event) (s : State) :
  hw_detector s <> None ->
  forallb (fun e => negb (is_clear e)) es = true ->
  (thread_starts (ui (run_events N path m comp es s)) ++
   conversion_queue (run_events N path m comp es s))%list
  = (thread_starts (ui s) ++ conversion_queue s ++ files_added es)%list.
Proof.
  revert s. induction es as [|e es IH]; intros s Hhw Hes.
  - cbn. now rewrite app_nil_r.
  - cbn [forallb] in Hes. apply andb_prop in Hes as [He Hes].
    apply negb_true_iff in He.
    assert (Hstep : hw_detector (handle N path m comp e s) <> None /\
                    (thread_starts (ui (handle N path m comp e s)) ++
                     conversion_queue (handle N path m comp e s))%list
                    = (thread_starts (ui s) ++ conversion_queue s ++
                       files_added [e])%list).
    { destruct (fills_slots e) eqn:Hf.
      - destruct (handle_fills e s Hf) as (l & s' & Hl & Hu & Hq & Hh & H).
        assert (Hadd : files_added [e] = []).
        { destruct e as [files| |ok| | |w p|w ok msg]; try discriminate;
            reflexivity. }
        rewrite Hadd, app_nil_r.
        assert (Hs' : hw_detector s' <> None /\
                      (thread_starts (ui s') ++ conversion_queue s')%list
                      = (thread_starts (ui s) ++ conversion_queue s)%list).
        { rewrite Hh, Hu, Hq, thread_starts_app.
          destruct (quiet_effects l Hl) as (-> & _).
          now rewrite app_nil_r. }
        destruct H as [->| ->]; [assumption|].
        apply (fill_conversion_slots_preserves
                 (fun s0 => hw_detector s0 <> None /\
                            (thread_starts (ui s0) ++
                             conversion_queue s0)%list
                            = (thread_starts (ui s) ++
                               conversion_queue s)%list));
          [|assumption].
        intros s0 f rest. apply fifo_step.
      - destruct (handle_quiet e s Hf) as (l & Hl & Hu & Hh & _ & Hq).
        split; [auto|]. rewrite Hu, Hq, He, thread_starts_app.
        destruct (quiet_effects l Hl) as (-> & _).
        now rewrite app_nil_r. }
    destruct Hstep as [Hhw' Hstep].
    change (run_events N path m comp (e :: es) s)
      with (run_events N path m comp es (handle N path m comp e s)).
    rewrite (IH _ Hhw' Hes),
      (app_assoc (thread_starts (ui (handle N path m comp e s)))), Hstep.
    replace (files_added (e :: es))
      with (files_added [e] ++ files_added es)%list
      by (cbn [files_added flat_map]; now rewrite app_nil_r).
    rewrite <- !app_assoc. reflexivity.
Qed.

Lemma remove_length_In {V} (d : PyDict.t V) (k : string) :
  In k (PyDict.keys d) ->
  S (List.length (PyDict.remove d k)) = List.length d.
Proof.
  induction d as [|[k' v'] r IH]; cbn; [tauto|].
  destruct (String.eqb_spec k k') as [->|Hne]; [reflexivity|].
  intros [H|H]; [congruence|]. cbn. now rewrite IH.
Qed.


Lemma find_worker_none (d : PyDict.t (nat * nat)) (w : nat) :
  find_worker d w = None ->
  forall key thr w', In (key, (thr, w')) d -> w' <> w.
Proof.
  induction d as [|[k [t w0]] r IH]; cbn; [intros _ ? ? ? []|].
  destruct (Nat.eqb_spec w0 w) as [->|Hne]; [discriminate|].
  intros Hnone key thr w' [H|H].
  - injection H as _ _ <-. exact Hne.
  - now apply (IH Hnone key thr).
Qed.

(** X23.  While the active set is not empty, the first half of
    [on_conversion_finished] removes exactly one entry from it, with its
    recorded progress, and quits the thread of that entry.  When the
    sender has an entry, that entry is the one removed.  When it has none
    (it is no worker, or its entry is gone), the entry removed is the one
    inserted last, which belongs to another worker. *)
Theorem finished_frees_one_slot (sender : option nat) (s : State) :
  active_conversions s <> [] ->
  S (List.length (active_conversions (release_worker sender s)))
  = List.length (active_conversions s) /\
  match
    match sender with
    | Some w => find_worker (active_conversions s) w
    | None => None
    end
  with
  | Some (key, thr) =>
      active_conversions (release_worker sender s)
      = PyDict.remove (active_conversions s) key /\
      progress_values (release_worker sender s)
      = PyDict.remove (progress_values s) key /\
      ui (release_worker sender s) = (ui s ++ [ThreadQuit thr])%list
  | None =>
      exists key thr w,
        active_conversions s
        = (active_conversions (release_worker sender s)
           ++ [(key, (thr, w))])%list /\
        sender <> Some w /\
        progress_values (release_worker sender s)
        = PyDict.remove (progress_values s) key /\
        ui (release_worker sender s) = (ui s ++ [ThreadQuit thr])%list
  end.
Proof.
  intros Hne. unfold release_worker.
  destruct (match sender with
            | Some worker => find_worker (active_conversions s) worker
            | None => None
            end) as [[key thr]|] eqn:Hfound.
  - destruct sender as [w|]; [|discriminate].
    cbn [active_conversions progress_values ui].
    split; [|repeat split].
    apply remove_length_In. eapply find_worker_In; eauto.
  - destruct (PyDict.popitem (active_conversions s))
      as [[[key [thr w]] rest]|] eqn:Hpop.
    + apply popitem_last in Hpop.
      cbn [active_conversions progress_values ui].
      rewrite Hpop, length_app. cbn [List.length]. split; [lia|].
      exists key, thr, w. repeat split.
      intros ->. apply (find_worker_none _ _ Hfound key thr w);
        [|reflexivity].
      rewrite Hpop. apply in_or_app. right. now left.
    + apply popitem_none in Hpop. contradiction.
Qed.

End SchedulerRuns.

Section SchedulerRunScenarios.

Import MainWindow Observations Scenario.

(** X24.  With an empty ffmpeg path no job is ever started: the engine never
    gets a detector, so every file taken from the queue is dropped. *)
Theorem no_ffmpeg_path_no_job (N : Z) (m : HardwareDetector.Machine)
    (comp : bool) (es : list Event) :
  thread_starts (ui (run_events N "" m comp es init)) = [].
Proof.
  assert (H : forall s,
             hw_detector s = None /\ thread_starts (ui s) = [] ->
             hw_detector (run_events N "" m comp es s) = None /\
             thread_starts (ui (run_events N "" m comp es s)) = []).
  { induction es as [|e es IH]; intros s Hs; cbn; [assumption|].
    apply IH. now apply no_path_handle. }
  apply H. split; reflexivity.
Qed.

Lemma starts_need_start_or_success_witness :
  thread_starts
    (ui (run_events 2 "ffmpeg" intel_machine true
           [WorkerFinished (Some 0%nat) false "ffmpeg exited with code 1";
            AddFiles ["d.mkv"]]
           (run_events 2 "ffmpeg" intel_machine true three_queued init)))
  = ["a.mkv"; "b.mkv"].
Proof.
  exact (proj1 (starts_need_start_or_success 2 "ffmpeg" intel_machine true
                  [WorkerFinished (Some 0%nat) false "ffmpeg exited with code 1";
                   AddFiles ["d.mkv"]]
                  (run_events 2 "ffmpeg" intel_machine true three_queued init)
                  eq_refl)).
Defined.

Lemma at_most_one_job_dropped_witness :
  (creation_failures
     (ui (run_events 2 "ffmpeg" cpu_only_machine true three_queued init))
   <= 1)%nat.
Proof.
  apply (at_most_one_job_dropped 2 "ffmpeg" cpu_only_machine true
           three_queued).
  discriminate.
Defined.

Lemma started_in_arrival_order_witness :
  (thread_starts
     (ui (run_events 2 "ffmpeg" intel_machine true three_queued
            (run_events 2 "ffmpeg" intel_machine true [DetectHardware] init))) ++
   conversion_queue
     (run_events 2 "ffmpeg" intel_machine true three_queued
        (run_events 2 "ffmpeg" intel_machine true [DetectHardware] init)))%list
  = ["a.mkv"; "b.mkv"; "c.mkv"].
Proof.
  apply (started_in_arrival_order 2 "ffmpeg" intel_machine true three_queued
           (run_events 2 "ffmpeg" intel_machine true [DetectHardware] init));
    [intros H; vm_compute in H; discriminate H | reflexivity].
Defined.

Lemma finished_frees_one_slot_witness :
  active_conversions one_running = [("a.mkv", (1, 0))%nat] /\
  S (List.length (active_conversions (release_worker (Some 7%nat) one_running)))
  = List.length (active_conversions one_running).
Proof.
  split; [reflexivity|].
  apply (finished_frees_one_slot (Some 7%nat) one_running).
  intros H. vm_compute in H. discriminate H.
Defined.

(** A [finished] signal whose sender has no entry takes the slot of
    another job: worker 7 is unknown, and the entry of worker 0 goes. *)
Example unknown_sender_frees_last_entry :
  let s' := release_worker (Some 7%nat) one_running in
  active_conversions s' = [] /\
  last (ui s') QueueListClear = ThreadQuit 1.
Proof. vm_compute. repeat split. Qed.

End SchedulerRunScenarios.
